(** * ptypy.core.data: diffraction data access

    A shallow embedding of [ptypy/core/data.py] (Python 2): the [DataScan]
    container with its loader, [load], [unload_data], [save] and
    [as_data_package]; the [StaticDataSource] and [PseudoDynamicDataSource]
    aggregators; the [MetaTranslator].

    Python exceptions are values of [exn]; a computation returns [res A].
    Methods that mutate [self] thread the object and an event log through
    the monad [M].  numpy arrays are a shape with the elements in row-major
    order; only the indexing forms that [load] builds are modelled. *)

From Stdlib Require Import ZArith QArith Qround Lia List String Ascii.
From stdpp Require Import base option list gmap strings pretty.

Local Open Scope string_scope.
Local Open Scope Z_scope.

(** ** Exceptions and results *)

Inductive exn :=
| IndexError
| TypeError
| KeyError
| AttributeError
| AssertionError
| NameError
| UnboundLocalError
| ValueError
| RuntimeError (msg : string)
| IOError (msg : string)
| OverflowError.

Inductive res (A : Type) :=
| Ok (a : A)
| Raise (e : exn).
Arguments Ok {A} a.
Arguments Raise {A} e.

Definition res_bind {A B} (r : res A) (k : A → res B) : res B :=
  match r with
  | Ok a => k a
  | Raise e => Raise e
  end.

Definition res_map {A B} (f : A → B) (r : res A) : res B :=
  match r with
  | Ok a => Ok (f a)
  | Raise e => Raise e
  end.

Fixpoint res_mapM {A B} (f : A → res B) (l : list A) : res (list B) :=
  match l with
  | [] => Ok []
  | x :: l' =>
      res_bind (f x) (λ y, res_bind (res_mapM f l') (λ ys, Ok (y :: ys)))
  end.

(** The message of the [RuntimeError] Python 2 raises when the interpreter
    stack is used up. *)
Definition recursion_exceeded : exn :=
  RuntimeError "maximum recursion depth exceeded".

(** ** Python sequences *)

(** [range(a, b)] *)
Definition py_range (a b : Z) : list Z :=
  map (λ k, a + Z.of_nat k) (seq 0 (Z.to_nat (b - a))).

(** An index into a sequence of length [n]: negative indices count from
    the end, anything else out of range is an [IndexError]. *)
Definition norm_index (n : nat) (i : Z) : res nat :=
  if (0 <=? i) && (i <? Z.of_nat n) then Ok (Z.to_nat i)
  else if (- Z.of_nat n <=? i) && (i <? 0) then Ok (Z.to_nat (i + Z.of_nat n))
  else Raise IndexError.

(** [l[i]] *)
Definition py_getitem {A} (l : list A) (i : Z) : res A :=
  res_bind (norm_index (length l) i)
    (λ k, match l !! k with Some x => Ok x | None => Raise IndexError end).

(** [l[i] = v] *)
Definition py_setitem {A} (l : list A) (i : Z) (v : A) : res (list A) :=
  res_bind (norm_index (length l) i) (λ k, Ok (<[k := v]> l)).

(** ** numpy arrays *)

Record ndarray := mkArr { shape : list nat; elems : list Z }.

Definition size_of (sh : list nat) : nat := fold_right Nat.mul 1%nat sh.

Definition ndim (a : ndarray) : nat := length (shape a).

(** [len(a)]: a 0-d array has no length. *)
Definition nd_len (a : ndarray) : res nat :=
  match shape a with
  | [] => Raise TypeError
  | n :: _ => Ok n
  end.

(** [np.ones(shape)], [np.zeros(shape)]: a negative dimension is refused. *)
Definition np_full (v : Z) (sh : list Z) : res ndarray :=
  if forallb (λ d, 0 <=? d) sh
  then let sh' := map Z.to_nat sh in Ok (mkArr sh' (replicate (size_of sh') v))
  else Raise ValueError.

Definition np_ones := np_full 1.
Definition np_zeros := np_full 0.

(** A slice object [slice(start, stop)]; [None] bounds are open. *)
Record pyslice := mkSlice { sl_start : option Z; sl_stop : option Z }.

Definition slice_all : pyslice := mkSlice None None.

(** The index tuples that [load] builds and [probe_n_load] shortens:
    slices only, or a tuple of frame numbers followed by slices. *)
Inductive slc :=
| Slices (ss : list pyslice)
| Picked (ids : list Z) (ss : list pyslice).

(** [slc[1:]] *)
Definition slc_tail (s : slc) : slc :=
  match s with
  | Slices ss => Slices (tail ss)
  | Picked _ ss => Slices ss
  end.

(** [len(slc)] *)
Definition slc_len (s : slc) : nat :=
  match s with
  | Slices ss => length ss
  | Picked _ ss => S (length ss)
  end.

(** Bounds of a slice on an axis of length [n], as [slice.indices] gives
    them for step 1: first position and number of positions. *)
Definition clamp (n : nat) (v : Z) : Z :=
  if v <? 0 then Z.max (v + Z.of_nat n) 0 else Z.min v (Z.of_nat n).

Definition slice_bounds (s : pyslice) (n : nat) : nat * nat :=
  let lo := from_option (clamp n) 0 (sl_start s) in
  let hi := from_option (clamp n) (Z.of_nat n) (sl_stop s) in
  (Z.to_nat lo, Z.to_nat (hi - lo)).

Definition slice_positions (s : pyslice) (n : nat) : list nat :=
  seq (slice_bounds s n).1 (slice_bounds s n).2.

(** The [p]-th block of [stride] elements. *)
Definition chunk (stride : nat) (el : list Z) (p : nat) : list Z :=
  take stride (drop (p * stride) el).

(** Shape left by a tuple of slices; [None] when there are more slices
    than axes ("too many indices"). *)
Fixpoint crop_shape (ss : list pyslice) (sh : list nat) : option (list nat) :=
  match ss, sh with
  | [], _ => Some sh
  | _ :: _, [] => None
  | s :: ss', n :: sh' =>
      match crop_shape ss' sh' with
      | Some sh'' => Some ((slice_bounds s n).2 :: sh'')
      | None => None
      end
  end.

Fixpoint crop_elems (ss : list pyslice) (sh : list nat) (el : list Z) : list Z :=
  match ss, sh with
  | s :: ss', n :: sh' =>
      flat_map (λ p, crop_elems ss' sh' (chunk (size_of sh') el p))
               (slice_positions s n)
  | _, _ => el
  end.

(** [a[slc]] *)
Definition nd_getitem (a : ndarray) (s : slc) : res ndarray :=
  match s with
  | Slices ss =>
      match crop_shape ss (shape a) with
      | Some sh => Ok (mkArr sh (crop_elems ss (shape a) (elems a)))
      | None => Raise IndexError
      end
  | Picked ids ss =>
      match shape a with
      | [] => Raise IndexError
      | n :: sh' =>
          match crop_shape ss sh' with
          | None => Raise IndexError
          | Some sh'' =>
              res_bind (res_mapM (norm_index n) ids) (λ ps,
                Ok (mkArr (length ps :: sh'')
                      (flat_map (λ p, crop_elems ss sh'
                                        (chunk (size_of sh') (elems a) p)) ps)))
          end
      end
  end.

(** [a[k]] for an integer [k]. *)
Definition nd_item (a : ndarray) (k : Z) : res ndarray :=
  match shape a with
  | [] => Raise IndexError
  | n :: sh' =>
      res_bind (norm_index n k) (λ p, Ok (mkArr sh' (chunk (size_of sh') (elems a) p)))
  end.

(** ** The frame loader: [probe_n_load] *)

Section ProbeNLoad.

(** [self.loader]: the store, read by key and slice. *)
Variable loader : string → option slc → res ndarray.

(** One entry per call of the loader. *)
Definition attempt : Type := string * slc.

(** [probe_n_load(key, slc, altkey=None)].  [depth] is the number of stack
    frames the interpreter still grants; Python 2 raises [RuntimeError]
    when they are used up.  The calls in the [except] clauses are outside
    the [try], so what they raise is not caught again here. *)
Fixpoint probe_n_load (depth : nat) (key : option string) (s : slc)
    (altkey : option string) : list attempt * res (option ndarray) :=
  match depth with
  | O => ([], Raise recursion_exceeded)
  | S depth' =>
      match key with
      | None => ([], Ok None)
      | Some k =>
          match loader k (Some s) with
          | Ok a => ([(k, s)], Ok (Some a))
          | Raise IndexError | Raise TypeError =>
              let r := probe_n_load depth' key (slc_tail s) None in
              ((k, s) :: r.1, r.2)
          | Raise KeyError =>
              match altkey with
              | None => ([(k, s)], Ok None)
              | Some ak =>
                  let r := probe_n_load depth' (Some ak) s None in
                  ((k, s) :: r.1, r.2)
              end
          | Raise e => ([(k, s)], Raise e)
          end
      end
  end.

End ProbeNLoad.

(** ** Python values held in [scan_info] *)

#[warnings="-register-all"] Inductive pyval :=
| PNone
| PInt (z : Z)
| PStr (s : string)
| PTuple (l : list Z)
| PList (l : list pyval).

(** [u.Param]: a dictionary with attribute access. *)
Abbreviation param := (gmap string pyval).

(** Attribute access [p.name]. *)
Definition param_attr (p : param) (name : string) : res pyval :=
  match p !! name with
  | Some v => Ok v
  | None => Raise AttributeError
  end.

(** [p.get(name)] *)
Definition param_get (p : param) (name : string) : pyval :=
  default PNone (p !! name).

(** [p.update(q)] *)
Definition param_update (p q : param) : param := q ∪ p.

(** [v[i]] for a value of [scan_info]. *)
Definition pyval_item (v : pyval) (i : Z) : res pyval :=
  match v with
  | PList l => py_getitem l i
  | PTuple l => res_bind (py_getitem l i) (λ z, Ok (PInt z))
  | PStr s =>
      res_bind (norm_index (String.length s) i)
        (λ k, match String.get k s with
              | Some c => Ok (PStr (String c EmptyString))
              | None => Raise IndexError
              end)
  | PNone | PInt _ => Raise TypeError
  end.

Definition DEFAULT_scan_info : param :=
  list_to_map
    [ ("scan_number", PNone);
      ("scan_label", PStr "Scan%(idx)02d");
      ("data_filename", PNone);
      ("wavelength", PNone);
      ("energy", PNone);
      ("detector_pixel_size", PNone);
      ("detector_distance", PNone);
      ("initial_ctr", PNone);
      ("date_collected", PNone);
      ("date_processed", PNone);
      ("exposure_time", PNone);
      ("preparation_basepath", PNone);
      ("preparation_other", PNone);
      ("shape", PTuple [10; 96; 96]);
      ("positions", PNone);
      ("positions_theory", PNone);
      ("scan_command", PNone) ].

(** [scan_info.shape], read as a tuple of integers. *)
Definition si_shape (si : param) : res (list Z) :=
  res_bind (param_attr si "shape")
    (λ v, match v with PTuple l => Ok l | _ => Raise TypeError end).

(** ** DataScan *)

(** What a scan reads from: nothing, a file name, or a dictionary holding
    the arrays and (under the key [scan_info]) the meta data. *)
Inductive source_t :=
| SrcNone
| SrcFile (path : string)
| SrcDict (info : option param) (arrays : gmap string ndarray).

(** The three [loader] closures of [set_source]. *)
Inductive loader_kind :=
| LoaderEmpty
| LoaderH5
| LoaderDict.

(** An instance attribute that [del] can remove: [None] is a deleted
    attribute, [Some v] holds the value [v]. *)
Abbreviation attr A := (option A).

Record DataScan := mkDataScan {
  data : attr (option ndarray);
  mask : attr (option ndarray);
  flat : attr (option ndarray);
  dark : attr (option ndarray);
  datalist : attr (list (option ndarray));
  masklist : attr (list (option ndarray));
  flatlist : attr (list (option ndarray));
  darklist : attr (list (option ndarray));
  indices : option (list Z);
  scan_info : param;
  label : pyval;
  sink : source_t;
  source : source_t;
  loader : loader_kind;
  Nframes : attr Z;
  frame_slice : attr (option pyslice);
  asize : attr (list Z)
}.

(** Attribute assignment [self.f = v], one function per attribute. *)
Definition upd_data (v : attr (option ndarray)) (d : DataScan) : DataScan :=
  mkDataScan v (mask d) (flat d) (dark d) (datalist d) (masklist d)
    (flatlist d) (darklist d) (indices d) (scan_info d) (label d) (sink d)
    (source d) (loader d) (Nframes d) (frame_slice d) (asize d).
Definition upd_mask (v : attr (option ndarray)) (d : DataScan) : DataScan :=
  mkDataScan (data d) v (flat d) (dark d) (datalist d) (masklist d)
    (flatlist d) (darklist d) (indices d) (scan_info d) (label d) (sink d)
    (source d) (loader d) (Nframes d) (frame_slice d) (asize d).
Definition upd_flat (v : attr (option ndarray)) (d : DataScan) : DataScan :=
  mkDataScan (data d) (mask d) v (dark d) (datalist d) (masklist d)
    (flatlist d) (darklist d) (indices d) (scan_info d) (label d) (sink d)
    (source d) (loader d) (Nframes d) (frame_slice d) (asize d).
Definition upd_dark (v : attr (option ndarray)) (d : DataScan) : DataScan :=
  mkDataScan (data d) (mask d) (flat d) v (datalist d) (masklist d)
    (flatlist d) (darklist d) (indices d) (scan_info d) (label d) (sink d)
    (source d) (loader d) (Nframes d) (frame_slice d) (asize d).
Definition upd_datalist (v : attr (list (option ndarray))) (d : DataScan) : DataScan :=
  mkDataScan (data d) (mask d) (flat d) (dark d) v (masklist d) (flatlist d)
    (darklist d) (indices d) (scan_info d) (label d) (sink d) (source d)
    (loader d) (Nframes d) (frame_slice d) (asize d).
Definition upd_masklist (v : attr (list (option ndarray))) (d : DataScan) : DataScan :=
  mkDataScan (data d) (mask d) (flat d) (dark d) (datalist d) v (flatlist d)
    (darklist d) (indices d) (scan_info d) (label d) (sink d) (source d)
    (loader d) (Nframes d) (frame_slice d) (asize d).
Definition upd_flatlist (v : attr (list (option ndarray))) (d : DataScan) : DataScan :=
  mkDataScan (data d) (mask d) (flat d) (dark d) (datalist d) (masklist d) v
    (darklist d) (indices d) (scan_info d) (label d) (sink d) (source d)
    (loader d) (Nframes d) (frame_slice d) (asize d).
Definition upd_darklist (v : attr (list (option ndarray))) (d : DataScan) : DataScan :=
  mkDataScan (data d) (mask d) (flat d) (dark d) (datalist d) (masklist d)
    (flatlist d) v (indices d) (scan_info d) (label d) (sink d) (source d)
    (loader d) (Nframes d) (frame_slice d) (asize d).
Definition upd_indices (v : option (list Z)) (d : DataScan) : DataScan :=
  mkDataScan (data d) (mask d) (flat d) (dark d) (datalist d) (masklist d)
    (flatlist d) (darklist d) v (scan_info d) (label d) (sink d) (source d)
    (loader d) (Nframes d) (frame_slice d) (asize d).
Definition upd_scan_info (v : param) (d : DataScan) : DataScan :=
  mkDataScan (data d) (mask d) (flat d) (dark d) (datalist d) (masklist d)
    (flatlist d) (darklist d) (indices d) v (label d) (sink d) (source d)
    (loader d) (Nframes d) (frame_slice d) (asize d).
Definition upd_label (v : pyval) (d : DataScan) : DataScan :=
  mkDataScan (data d) (mask d) (flat d) (dark d) (datalist d) (masklist d)
    (flatlist d) (darklist d) (indices d) (scan_info d) v (sink d) (source d)
    (loader d) (Nframes d) (frame_slice d) (asize d).
Definition upd_source (v : source_t) (d : DataScan) : DataScan :=
  mkDataScan (data d) (mask d) (flat d) (dark d) (datalist d) (masklist d)
    (flatlist d) (darklist d) (indices d) (scan_info d) (label d) (sink d) v
    (loader d) (Nframes d) (frame_slice d) (asize d).
Definition upd_loader (v : loader_kind) (d : DataScan) : DataScan :=
  mkDataScan (data d) (mask d) (flat d) (dark d) (datalist d) (masklist d)
    (flatlist d) (darklist d) (indices d) (scan_info d) (label d) (sink d)
    (source d) v (Nframes d) (frame_slice d) (asize d).
Definition upd_Nframes (v : attr Z) (d : DataScan) : DataScan :=
  mkDataScan (data d) (mask d) (flat d) (dark d) (datalist d) (masklist d)
    (flatlist d) (darklist d) (indices d) (scan_info d) (label d) (sink d)
    (source d) (loader d) v (frame_slice d) (asize d).
Definition upd_frame_slice (v : attr (option pyslice)) (d : DataScan) : DataScan :=
  mkDataScan (data d) (mask d) (flat d) (dark d) (datalist d) (masklist d)
    (flatlist d) (darklist d) (indices d) (scan_info d) (label d) (sink d)
    (source d) (loader d) (Nframes d) v (asize d).
Definition upd_asize (v : attr (list Z)) (d : DataScan) : DataScan :=
  mkDataScan (data d) (mask d) (flat d) (dark d) (datalist d) (masklist d)
    (flatlist d) (darklist d) (indices d) (scan_info d) (label d) (sink d)
    (source d) (loader d) (Nframes d) (frame_slice d) v.

(** ** The collaborators outside this file

    [parallel], [io], [os.path], [utils] and the interpreter are not part
    of [data.py]; what [data.py] asks of them is a field of [Env]. *)

Record Env := mkEnv {
  (** [parallel.rank], [parallel.MPIenabled], [parallel.master] *)
  rank : nat;
  MPIenabled : bool;
  master : bool;
  (** [parallel.loadmanager.assign(idlist)[parallel.rank]] *)
  assign : list (pyval * Z) → res (list Z);
  (** the [k]-th value [parallel.receive()] hands out *)
  inbox : nat → ndarray;
  (** [utils.expect2] *)
  expect2 : list Z → res (Z * Z);
  (** [utils.clean_path] *)
  clean_path : pyval → res string;
  (** [os.path.exists] *)
  path_exists : string → bool;
  (** what the user types at [raw_input] *)
  raw_input : string → string;
  (** [io.h5read(source, key, slice=slc)[key]] *)
  h5read : string → string → option slc → res ndarray;
  (** [io.h5read(source, 'scan_info')['scan_info']] *)
  h5info : string → res param;
  (** [label % {'idx': i}] *)
  interpolate : string → nat → res string;
  (** stack frames left when [load] is entered *)
  recursion_limit : nat
}.

(** ** Effects *)

Inductive event :=
| EvLoad (key : string) (s : slc)
| EvWarn (msg : string)
| EvPrompt (msg : string)
| EvSend (a : option ndarray)
| EvRecv
| EvBarrier
| EvWrite (filename : string) (d m f k : option ndarray) (info : param).

Record world := mkWorld { self : DataScan; trace : list event }.

(** A method body: reads and updates [self], appends to the trace, and
    returns or raises.  What was done before a raise stays done. *)
Definition M (A : Type) : Type := world → res A * world.

Global Instance M_ret : MRet M := λ A a w, (Ok a, w).
Global Instance M_bind : MBind M := λ A B k m w,
  match m w with
  | (Ok a, w') => k a w'
  | (Raise e, w') => (Raise e, w')
  end.

Definition raise {A} (e : exn) : M A := λ w, (Raise e, w).
Definition lift {A} (r : res A) : M A := λ w, (r, w).
Definition getself : M DataScan := λ w, (Ok (self w), w).
Definition modify (f : DataScan → DataScan) : M unit :=
  λ w, (Ok (), mkWorld (f (self w)) (trace w)).
Definition emit (e : event) : M unit :=
  λ w, (Ok (), mkWorld (self w) (trace w ++ [e])).
Definition emits (es : list event) : M unit :=
  λ w, (Ok (), mkWorld (self w) (trace w ++ es)).
Definition py_assert (b : bool) : M unit :=
  if b then mret () else raise AssertionError.

(** Reading an attribute that [del] may have removed. *)
Definition getattr {A} (f : DataScan → attr A) : M A :=
  d ← getself;
  match f d with
  | Some v => mret v
  | None => raise AttributeError
  end.

(** [for x in l: body x] *)
Fixpoint for_each {A} (l : list A) (body : A → M unit) : M unit :=
  match l with
  | [] => mret ()
  | x :: l' => body x;; for_each l' body
  end.

(** [enumerate(l)] *)
Definition enumerate {A} (l : list A) : list (Z * A) :=
  zip (map Z.of_nat (seq 0 (length l))) l.

(** ** [DataScan.set_source] and [DataScan.__init__] *)

Definition endswith (s suffix : string) : bool :=
  let n := String.length s in
  let k := String.length suffix in
  (k <=? n)%nat && String.eqb (String.substring (n - k) k s) suffix.

Definition set_label_from_info : M unit :=
  d ← getself;
  modify (upd_label (param_get (scan_info d) "scan_label")).

Definition set_source (env : Env) (other_source : source_t) : M unit :=
  modify (upd_source other_source);;
  match other_source with
  | SrcNone =>
      set_label_from_info;;
      modify (upd_loader LoaderEmpty)
  | SrcFile path =>
      if endswith path ".h5" || endswith path ".ptyd" then
        info ← lift (h5info env path);
        modify (λ d, upd_scan_info (param_update (scan_info d) info) d);;
        modify (λ d, upd_scan_info (<["data_filename" := PStr path]> (scan_info d)) d);;
        set_label_from_info;;
        modify (upd_loader LoaderH5)
      else
        (* no [loader] was bound: [self.loader = loader] fails *)
        raise UnboundLocalError
  | SrcDict info _ =>
      modify (λ d, upd_scan_info (param_update (scan_info d) (default ∅ info)) d);;
      set_label_from_info;;
      modify (upd_loader LoaderDict)
  end.

(** The object as the first lines of [__init__] leave it, before
    [set_source] attaches a loader. *)
Definition blank (pars : option param) (src snk : source_t) : DataScan :=
  let si := match pars with
            | Some p => param_update DEFAULT_scan_info p
            | None => DEFAULT_scan_info
            end in
  {| data := Some None; mask := Some None; flat := Some None; dark := Some None;
     datalist := Some []; masklist := Some []; flatlist := Some []; darklist := Some [];
     indices := None;
     scan_info := si;
     label := param_get si "scan_label";
     sink := match snk with SrcNone => src | _ => snk end;
     source := SrcNone;
     loader := LoaderEmpty;
     Nframes := None; frame_slice := None; asize := None |}.

(** [DataScan(pars, source, sink)]: the new object, or the exception the
    constructor raises. *)
Definition DataScan_init (env : Env) (pars : option param) (src snk : source_t)
    : res DataScan :=
  match set_source env src (mkWorld (blank pars src snk) []) with
  | (Ok _, w) => Ok (self w)
  | (Raise e, _) => Raise e
  end.

(** ** The loader closures *)

(** [self.loader(key, slc)].  The closures read [self.source] and
    [self.scan_info] when they are called. *)
Definition run_loader (env : Env) (d : DataScan) (key : string) (s : option slc)
    : res ndarray :=
  match loader d with
  | LoaderEmpty =>
      res_bind (si_shape (scan_info d)) (λ shp,
      res_bind (if bool_decide (key ∈ ["flat"; "mask"]) then np_ones shp
                else np_zeros shp) (λ buf,
      match s with
      | None => Ok buf
      | Some s => nd_getitem buf s
      end))
  | LoaderH5 =>
      match source d with
      | SrcFile path => h5read env path key s
      | _ => Raise TypeError
      end
  | LoaderDict =>
      match source d with
      | SrcDict _ arrays =>
          match arrays !! key with
          | None => Raise KeyError
          | Some a =>
              match s with
              | None => Ok a
              | Some s => nd_getitem a s
              end
          end
      | _ => Raise TypeError
      end
  end.

(** ** [DataScan.load] *)

(** The [MPIsplit] argument: [False], [True], or a list of frame numbers. *)
Inductive partition :=
| AllFrames
| AutoPartition
| ExplicitIndices (l : list Z).

(** The arithmetic of the region of interest is done in double precision:
    [roidim/2.] is a float, and the integer centre is converted to a float
    before the half size is taken from it or added to it.  The numbers met
    are integers and integers of halves.  [round53 z] is [z] rounded to 53
    significant bits, ties to even: for an integer [z], the float
    [float(z)]; for [z] counting halves, the float that a sum or a
    difference of [z] halves is rounded to. *)
Definition round53 (z : Z) : Z :=
  if Z.log2 (Z.abs z) <? 53 then z
  else
    let sh := Z.log2 (Z.abs z) - 52 in
    let q := Z.abs z / 2 ^ sh in
    let r := Z.abs z mod 2 ^ sh in
    let half := 2 ^ (sh - 1) in
    let q' := if r <? half then q
              else if half <? r then q + 1
              else if Z.even q then q else q + 1 in
    Z.sgn z * (q' * 2 ^ sh).

(** [float(z)]: an integer beyond the range of a double cannot be
    converted. *)
Definition float_of_int (z : Z) : res Z :=
  if Z.abs (round53 z) <? 2 ^ 1024 then Ok (round53 z) else Raise OverflowError.

(** [int(np.ceil(x))] for a float [x] of [h] halves; an infinite [x]
    cannot be converted. *)
Definition int_ceil_halves (h : Z) : res Z :=
  if Z.abs h <? 2 ^ 1025 then Ok ((h + 1) / 2) else Raise OverflowError.

(** [slice(int(np.ceil(ctr - dim/2.)), int(np.ceil(ctr + dim/2.)))] *)
Definition roi_axis (ctr dim : Z) : res pyslice :=
  res_bind (float_of_int dim) (λ d,
  res_bind (float_of_int ctr) (λ c,
  res_bind (int_ceil_halves (round53 (2 * c - d))) (λ lo,
  res_bind (int_ceil_halves (round53 (2 * c + d))) (λ hi,
  Ok (mkSlice (Some lo) (Some hi)))))).

(** The centre of the region of interest: [np.asarray(dpsize) // 2] when
    none is given. *)
Definition roi_centre (env : Env) (dpsize : Z * Z) (roictr : option (list Z))
    : res (Z * Z) :=
  match roictr with
  | None => Ok (dpsize.1 / 2, dpsize.2 / 2)
  | Some c => expect2 env c
  end.

Definition roi_slices (ctr dim : Z * Z) : res (list pyslice) :=
  res_bind (roi_axis ctr.1 dim.1) (λ s0,
  res_bind (roi_axis ctr.2 dim.2) (λ s1,
  Ok [s0; s1])).

(** The frames this process reads and the slice that selects them. *)
Definition choose_indices (env : Env) (first last : Z) (split : partition)
    : M (list Z * option pyslice) :=
  match split with
  | AllFrames => mret (py_range first last, Some slice_all)
  | AutoPartition =>
      d ← getself;
      lbl ← lift (param_attr (scan_info d) "scan_label");
      let idlist := map (λ i, (lbl, i)) (py_range first last) in
      ix ← lift (assign env idlist);
      i0 ← lift (py_getitem ix 0);
      i1 ← lift (py_getitem ix (-1));
      py_assert (bool_decide (ix = py_range i0 (i1 + 1)));;
      mret (ix, Some (mkSlice (Some i0) (Some (i1 + 1))))
  | ExplicitIndices l => mret (l, None)
  end.

(** [probe_n_load] on [self.loader], every loader call recorded. *)
Definition probe (env : Env) (key : string) (s : slc) (altkey : option string)
    : M (option ndarray) :=
  d ← getself;
  let r := probe_n_load (run_loader env d) (recursion_limit env) (Some key) s altkey in
  emits (map (λ a, EvLoad a.1 a.2) r.1);;
  lift r.2.

(** [self.<list>[i] = v] on one of the per-frame lists. *)
Definition setitem_attr (f : DataScan → attr (list (option ndarray)))
    (upd : attr (list (option ndarray)) → DataScan → DataScan)
    (i : Z) (v : option ndarray) : M unit :=
  l ← getattr f;
  l' ← lift (py_setitem l i v);
  modify (upd (Some l')).

(** [self.data[k]]: [None] cannot be indexed. *)
Definition frame_of (dat : option ndarray) (k : Z) : res ndarray :=
  match dat with
  | None => Raise TypeError
  | Some a => nd_item a k
  end.

(** [self.mask if self.mask.ndim==2 else self.mask[k]]: [None] has no
    [ndim]. *)
Definition mask_of (msk : option ndarray) (k : Z) : res ndarray :=
  match msk with
  | None => Raise AttributeError
  | Some a => if (ndim a =? 2)%nat then Ok a else nd_item a k
  end.

(** One turn of the loop that fills the per-frame lists. *)
Definition populate_step (ki : Z * Z) : M unit :=
  let '(k, i) := ki in
  (* self.datalist[i] = self.data[k] *)
  dat ← getattr data;
  frame ← lift (frame_of dat k);
  setitem_attr datalist upd_datalist i (Some frame);;
  (* self.masklist[i] = self.mask if self.mask.ndim==2 else self.mask[k] *)
  msk ← getattr mask;
  m ← lift (mask_of msk k);
  setitem_attr masklist upd_masklist i (Some m);;
  (* self.flatlist[i] = self.flat *)
  fl ← getattr flat;
  setitem_attr flatlist upd_flatlist i fl;;
  (* self.darklist[i] = self.dark *)
  dk ← getattr dark;
  setitem_attr darklist upd_darklist i dk.

(** The first half of [load]: which frames, which slice.  Nothing is
    read from the store here. *)
Definition load_prepare (env : Env) (first : Z) (last : option Z)
    (roidim roictr : option (list Z)) (split : partition)
    : M (list Z * Z * slc) :=
  d ← getself;
  last ← match last with
         | None => shp ← lift (si_shape (scan_info d)); lift (py_getitem shp 0)
         | Some l => mret l
         end;
  let N := last - first in
  py_assert (0 <? N);;
  shp ← lift (si_shape (scan_info d));
  dpsize ← lift (expect2 env (tail shp));
  '(ix, fs) ← choose_indices env first last split;
  modify (upd_indices (Some ix));;
  modify (upd_Nframes (Some N));;
  modify (upd_frame_slice (Some fs));;
  roislice ←
    match roidim with
    | Some rd =>
        dim ← lift (expect2 env rd);
        ctr ← lift (roi_centre env dpsize roictr);
        modify (upd_asize (Some [dim.1; dim.2]));;
        lift (roi_slices ctr dim)
    | None =>
        modify (upd_asize (Some (tail shp)));;
        (* 'Loading full frames (%dx%d)' % tuple(self.asize) *)
        (if (length (tail shp) =? 2)%nat then mret () else raise TypeError);;
        mret [slice_all; slice_all]
    end;
  let sl := match fs with
            | Some f => Slices (f :: roislice)
            | None => Picked ix roislice
            end in
  mret (ix, N, sl).

(** The four reads. *)
Definition load_read (env : Env) (sl : slc) : M unit :=
  a ← probe env "data" sl None;
  modify (upd_data (Some a));;
  a ← probe env "mask" sl (Some "fmask");
  modify (upd_mask (Some a));;
  a ← probe env "dark" sl None;
  modify (upd_dark (Some a));;
  a ← probe env "flat" sl None;
  modify (upd_flat (Some a)).

(** The per-frame lists. *)
Definition load_populate (N : Z) (ix : list Z) : M unit :=
  let blanks := replicate (Z.to_nat N) (@None ndarray) in
  modify (upd_datalist (Some blanks));;
  modify (upd_masklist (Some blanks));;
  modify (upd_flatlist (Some blanks));;
  modify (upd_darklist (Some blanks));;
  for_each (enumerate ix) populate_step.

(** [self.load(first, last, roidim, roictr, MPIsplit)] *)
Definition load (env : Env) (first : Z) (last : option Z)
    (roidim roictr : option (list Z)) (split : partition) : M unit :=
  '(ix, N, sl) ← load_prepare env first last roidim roictr split;
  load_read env sl;;
  load_populate N ix.

(** ** [DataScan.unload_data] *)

Definition del {A} (f : DataScan → attr A) (upd : attr A → DataScan → DataScan)
    : M unit :=
  getattr f;; modify (upd None).

Definition unload_data : M unit :=
  del datalist upd_datalist;;
  del masklist upd_masklist;;
  del darklist upd_darklist;;
  del flatlist upd_flatlist;;
  del data upd_data;;
  del mask upd_mask;;
  del dark upd_dark;;
  del flat upd_flat.

(** ** [DataScan.save] *)

(** [np.asarray(l)] for a per-frame list: the frames stacked when all are
    present with one shape, a 1-d array of objects otherwise. *)
Definition np_asarray (l : list (option ndarray)) : ndarray :=
  match l with
  | Some a :: _ =>
      if forallb (λ x, bool_decide (shape <$> x = Some (shape a))) l
      then mkArr (length l :: shape a) (flat_map (λ x, from_option elems [] x) l)
      else mkArr [length l] []
  | _ => mkArr [length l] []
  end.

Definition is_recv (e : event) : bool :=
  match e with
  | EvRecv => true
  | _ => false
  end.

(** [parallel.receive()] *)
Definition receive (env : Env) : M ndarray :=
  λ w, let k := length (List.filter is_recv (trace w)) in
       (Ok (inbox env k), mkWorld (self w) (trace w ++ [EvRecv])).

(** The collective exchange of one per-frame list, frame by frame. *)
Definition gather (env : Env) (N : nat)
    (f : DataScan → attr (list (option ndarray)))
    (upd : attr (list (option ndarray)) → DataScan → DataScan) : M unit :=
  for_each (py_range 0 (Z.of_nat N)) (λ i,
    l ← getattr f;
    x ← lift (py_getitem l i);
    (if master env then
       match x with
       | None =>
           a ← receive env;
           l' ← lift (py_setitem l i (Some a));
           modify (upd (Some l'))
       | Some _ => mret ()
       end
     else
       match x with
       | Some a => emit (EvSend (Some a))
       | None => mret ()
       end);;
    emit EvBarrier).

Definition ascii_upper (c : ascii) : ascii :=
  let n := nat_of_ascii c in
  if (97 <=? n)%nat && (n <=? 122)%nat then ascii_of_nat (n - 32) else c.

Fixpoint str_upper (s : string) : string :=
  match s with
  | EmptyString => EmptyString
  | String c s' => String (ascii_upper c) (str_upper s')
  end.

(** Truth value of the [force_overwrite] argument ([True], [False] or
    [None]). *)
Definition truthy (b : option bool) : bool := default false b.

(** The branch taken when the destination exists. *)
Definition overwrite_check (env : Env) (filename : string)
    (force_overwrite : option bool) : M unit :=
  if truthy force_overwrite then
    emit (EvWarn "Save file exists but will be overwritten (force_overwrite is True)")
  else if negb (truthy force_overwrite) then
    raise (RuntimeError ("File " ++ filename ++ " exists! Operation cancelled."))
  else if bool_decide (force_overwrite = None) then
    let prompt := "File " ++ filename ++ " exists! Overwrite? [Y]/N" in
    emit (EvPrompt prompt);;
    let ans := raw_input env prompt in
    if negb (String.eqb ans "") && negb (String.eqb (str_upper ans) "Y")
    then raise (RuntimeError "Operation cancelled by user.")
    else mret ()
  else mret ().

Definition save (env : Env) (filename : option string)
    (force_overwrite : option bool) : M unit :=
  d ← getself;
  (* if not hasattr(self, 'data') *)
  (if bool_decide (data d = None)
   then raise (RuntimeError
          "Attempting to save DataScan instance that does not contain data.")
   else mret ());;
  dat ← getattr data;
  n ← lift (match dat with None => Raise TypeError | Some a => nd_len a end);
  dl ← getattr datalist;
  (* the local [Nframes] is bound only in this branch *)
  Nfr ← (if bool_decide (n ≠ length dl) then
           if MPIenabled env
           then raise (RuntimeError "Inconsistent datalist while running MPI.")
           else mret (Some n)
         else mret None);
  (if MPIenabled env then
     N ← match Nfr with
         | None => raise UnboundLocalError
         | Some N => mret N
         end;
     gather env N datalist upd_datalist;;
     emit EvBarrier;;
     gather env N masklist upd_masklist
   else mret ());;
  if (0 <? rank env)%nat then emit EvBarrier
  else
    '(dat, msk) ←
      (if MPIenabled env then
         dl ← getattr datalist;
         ml ← getattr masklist;
         mret (Some (np_asarray dl), Some (np_asarray ml))
       else
         dat ← getattr data;
         msk ← getattr mask;
         mret (dat, msk));
    d ← getself;
    (* data.shape != self.scan_info.shape *)
    shp ← lift (match dat with
                | None => Raise AttributeError
                | Some a => Ok (map Z.of_nat (shape a))
                end);
    declared ← lift (param_attr (scan_info d) "shape");
    (match declared with
     | PTuple l =>
         if bool_decide (shp = l) then mret ()
         else raise (RuntimeError
                "Attempting to save DataScan instance with non-native data dimension ")
     | _ => raise (RuntimeError
                "Attempting to save DataScan instance with non-native data dimension ")
     end);;
    fn ← match filename with
         | None => lift (param_attr (scan_info d) "data_filename")
         | Some f => mret (PStr f)
         end;
    fn ← lift (clean_path env fn);
    (if path_exists env fn then overwrite_check env fn force_overwrite
     else mret ());;
    fl ← getattr flat;
    dk ← getattr dark;
    emit (EvWrite fn dat msk fl dk (scan_info d));;
    emit EvBarrier.

(** ** [MetaTranslator] *)

Definition PAIRS : gmap string string :=
  list_to_map
    [ ("scan_label", "label_original");
      ("wavelength", "lam");
      ("detector_distance", "z");
      ("detector_pixel_size", "psize_det") ].

(** [self.to_meta_dct]: every key of [DEFAULT_scan_info] mapped to
    itself, then the translations of [PAIRS] laid over. *)
Definition to_meta_dct : gmap string string :=
  PAIRS ∪ list_to_map (map (λ kv, (kv.1, kv.1)) (map_to_list DEFAULT_scan_info)).

(** [MT.as_meta(d)] for a dictionary [d]: unknown keys are skipped. *)
Definition as_meta (d : param) : param :=
  list_to_map
    (omap (λ kv, (λ k', (k', kv.2)) <$> to_meta_dct !! kv.1) (map_to_list d)).

(** [self.to_scan_info_dct]: [to_meta_dct] turned round, a later pair
    replacing an earlier one with the same value. *)
Definition to_scan_info_dct : gmap string string :=
  map_fold (λ k v acc, <[v := k]> acc) ∅ to_meta_dct.

(** [MT.as_scan_info(d)] for a dictionary [d]. *)
Definition as_scan_info (d : param) : param :=
  list_to_map
    (omap (λ kv, (λ k', (k', kv.2)) <$> to_scan_info_dct !! kv.1) (map_to_list d)).

(** ** [DataScan.as_data_package] *)

Record frame := mkFrame {
  f_data : option ndarray;
  f_mask : option ndarray;
  f_index : Z;
  f_position : pyval
}.

Record package := mkPackage { common : param; iterable : list frame }.

Definition package_frame (d : DataScan) (i : Z) : res frame :=
  res_bind (match datalist d with Some l => py_getitem l i
            | None => Raise AttributeError end) (λ x,
  res_bind (match masklist d with Some l => py_getitem l i
            | None => Raise AttributeError end) (λ m,
  res_bind (param_attr (scan_info d) "positions") (λ ps,
  res_bind (pyval_item ps i) (λ pos,
  Ok (mkFrame x m i pos))))).

Definition as_data_package (d : DataScan) (start : Z) (stop : option Z)
    : res package :=
  match Nframes d with
  | None => Raise AttributeError
  | Some N =>
      let stop := match stop with
                  | None => N
                  | Some s => if N <? s then N else s
                  end in
      let meta := <["label" := label d]> (as_meta (scan_info d)) in
      res_bind (res_mapM (package_frame d) (py_range start stop)) (λ fs,
      Ok (mkPackage meta fs))
  end.

(** ** The Python 2 dictionary

    [StaticDataSource.scans] is a plain [dict] keyed by the scan labels,
    walked with [iteritems()].  CPython 2.7 keeps a [dict] as an open
    addressing hash table and walks it slot by slot; the model follows
    [stringobject.c] and [dictobject.c] (64-bit [long], no hash
    randomisation, keys never deleted). *)

Module PyDict.

Definition wrap64 (x : Z) : Z := x mod 2 ^ 64.

(** [string_hash], as an unsigned 64-bit word. *)
Definition string_hash (s : string) : Z :=
  match s with
  | EmptyString => 0
  | String c _ =>
      let bytes := map (λ a, Z.of_nat (nat_of_ascii a)) (list_ascii_of_string s) in
      let x0 := Z.shiftl (Z.of_nat (nat_of_ascii c)) 7 in
      let x := fold_left (λ x b, Z.lxor (wrap64 (1000003 * x)) b) bytes x0 in
      let x := Z.lxor x (Z.of_nat (String.length s)) in
      if x =? 2 ^ 64 - 1 then 2 ^ 64 - 2 else x
  end.

Record entry (V : Type) := mkEntry { me_hash : Z; me_key : string; me_value : V }.
Arguments mkEntry {V}.
Arguments me_hash {V}.
Arguments me_key {V}.
Arguments me_value {V}.

Record dict (V : Type) := mkDict {
  ma_used : nat;
  ma_mask : Z;
  ma_table : list (option (entry V))
}.
Arguments mkDict {V}.
Arguments ma_used {V}.
Arguments ma_mask {V}.
Arguments ma_table {V}.

Definition MINSIZE : nat := 8.

Definition new_table {V} (size : nat) : dict V :=
  mkDict 0 (Z.of_nat size - 1) (replicate size None).

(** [{}] *)
Definition empty {V} : dict V := new_table MINSIZE.

Definition same_key {V} (e : entry V) (h : Z) (k : string) : bool :=
  (me_hash e =? h) && String.eqb (me_key e) k.

(** The collision loop of [lookdict_string]. *)
Fixpoint probe_from {V} (fuel : nat) (d : dict V) (h : Z) (k : string)
    (i perturb : Z) : option nat :=
  match fuel with
  | O => None
  | S fuel' =>
      let i' := wrap64 (Z.shiftl i 2 + i + perturb + 1) in
      let j := Z.to_nat (Z.land i' (ma_mask d)) in
      match ma_table d !! j with
      | Some None => Some j
      | Some (Some e) =>
          if same_key e h k then Some j
          else probe_from fuel' d h k i' (Z.shiftr perturb 5)
      | None => None
      end
  end.

(** [lookdict_string]: the slot of [k], or the free slot it would take. *)
Definition lookdict {V} (d : dict V) (h : Z) (k : string) : option nat :=
  let i := Z.land h (ma_mask d) in
  match ma_table d !! Z.to_nat i with
  | Some None => Some (Z.to_nat i)
  | Some (Some e) =>
      if same_key e h k then Some (Z.to_nat i)
      else probe_from (64 + length (ma_table d)) d h k i h
  | None => None
  end.

(** [insertdict] *)
Definition insertdict {V} (d : dict V) (h : Z) (k : string) (v : V) : dict V :=
  match lookdict d h k with
  | None => d
  | Some j =>
      let fresh := match ma_table d !! j with
                   | Some (Some _) => false
                   | _ => true
                   end in
      mkDict (if fresh then S (ma_used d) else ma_used d) (ma_mask d)
             (<[j := Some (mkEntry h k v)]> (ma_table d))
  end.

(** The active entries, in table order. *)
Definition entries {V} (d : dict V) : list (entry V) :=
  omap id (ma_table d).

Fixpoint grow (fuel : nat) (newsize minused : nat) : nat :=
  match fuel with
  | O => newsize
  | S fuel' =>
      if (newsize <=? minused)%nat then grow fuel' (2 * newsize) minused
      else newsize
  end.

(** [dictresize] *)
Definition dictresize {V} (d : dict V) (minused : nat) : dict V :=
  fold_left (λ t e, insertdict t (me_hash e) (me_key e) (me_value e))
            (entries d) (new_table (grow 64 MINSIZE minused)).

(** [d[k] = v] ([PyDict_SetItem]) *)
Definition setitem {V} (d : dict V) (k : string) (v : V) : dict V :=
  let d' := insertdict d (string_hash k) k v in
  if (ma_used d <? ma_used d')%nat
     && (2 * length (ma_table d') <=? 3 * ma_used d')%nat
  then dictresize d' ((if 50000 <? Z.of_nat (ma_used d') then 2 else 4) * ma_used d')
  else d'.

(** [d[k]] *)
Definition getitem {V} (d : dict V) (k : string) : option V :=
  match lookdict d (string_hash k) k with
  | Some j =>
      match ma_table d !! j with
      | Some (Some e) => Some (me_value e)
      | _ => None
      end
  | None => None
  end.

(** [d.keys()], [d.items()]: the order [iteritems()] walks in. *)
Definition keys {V} (d : dict V) : list string := map me_key (entries d).
Definition items {V} (d : dict V) : list (string * V) :=
  map (λ e, (me_key e, me_value e)) (entries d).

End PyDict.

(** ** [StaticDataSource] *)

Record StaticDataSource := mkStatic {
  sources : list source_t;
  recon_labels : list (option string);
  scans : PyDict.dict DataScan;
  labels : list string;
  total_frames : Z;              (* [self.Nframes] *)
  data_available : bool;
  count : Z
}.

(** Running a [DataScan] method on an object outside a method body. *)
Definition run {A} (m : M A) (d : DataScan) (tr : list event)
    : res A * DataScan * list event :=
  let r := m (mkWorld d tr) in (r.1, self r.2, trace r.2).

(** One turn of the loop of [StaticDataSource.__init__]. *)
Definition add_scan (env : Env) (pars_list : list (option param))
    (rl : list (option string)) (acc : StaticDataSource) (i : nat)
    (src : source_t) : res StaticDataSource :=
  res_bind (py_getitem pars_list (Z.of_nat i)) (λ pars,
  res_bind (DataScan_init env pars SrcNone SrcNone) (λ DS,
  match run (set_source env src) DS [] with
  | (Raise e, _, _) => Raise e
  | (Ok _, DS, _) =>
      let lbl := if (i <? length rl)%nat then default None (rl !! i) else None in
      res_bind
        (match lbl with
         | Some l => if bool_decide (l ∈ labels acc)
                     then match label DS with
                          | PStr t => interpolate env t i
                          | _ => Raise TypeError
                          end
                     else Ok l
         | None => match label DS with
                   | PStr t => interpolate env t i
                   | _ => Raise TypeError
                   end
         end) (λ lbl,
      (* the message of the error names [scan_label], which is not bound *)
      res_bind (if bool_decide (lbl ∈ labels acc) then Raise NameError else Ok ()) (λ _,
      let DS := upd_label (PStr lbl) DS in
      res_bind (si_shape (scan_info DS)) (λ shp,
      res_bind (py_getitem shp 0) (λ n,
      Ok (mkStatic (sources acc) (recon_labels acc)
            (PyDict.setitem (scans acc) lbl DS) (labels acc)
            (total_frames acc + n) (data_available acc) (count acc))))))
  end)).

Fixpoint add_scans (env : Env) (pars_list : list (option param))
    (rl : list (option string)) (acc : StaticDataSource) (i : nat)
    (srcs : list source_t) : res StaticDataSource :=
  match srcs with
  | [] => Ok acc
  | src :: srcs' =>
      res_bind (add_scan env pars_list rl acc i src)
        (λ acc', add_scans env pars_list rl acc' (S i) srcs')
  end.

(** [StaticDataSource(sources, pars_list, recon_labels)] *)
Definition StaticDataSource_init (env : Env) (srcs : list source_t)
    (pars_list : list (option param)) (rl : list (option string))
    : res StaticDataSource :=
  res_bind
    (add_scans env pars_list rl
       (mkStatic srcs rl PyDict.empty [] 0 false 0) 0 srcs) (λ s,
  Ok (mkStatic (sources s) (recon_labels s) (scans s) (labels s)
        (total_frames s) (0 <? total_frames s) 0)).

(** *** [StaticDataSource.feed_data]

    The generator is a state machine: not started, suspended at the
    [yield] for one scan with the rest of the dictionary walk still to do,
    or finished. *)

Inductive gen_state :=
| GenNew
| GenAt (lbl : string) (rest : list string)
| GenDone.

Record feeder := mkFeeder {
  agg : StaticDataSource;
  gen : gen_state;
  events : list event
}.

Definition with_scan (s : StaticDataSource) (lbl : string) (d : DataScan)
    : StaticDataSource :=
  mkStatic (sources s) (recon_labels s) (PyDict.setitem (scans s) lbl d)
    (labels s) (total_frames s) (data_available s) (count s).

Definition set_available (b : bool) (s : StaticDataSource) : StaticDataSource :=
  mkStatic (sources s) (recon_labels s) (scans s) (labels s) (total_frames s)
    b (count s).

(** A method of the scan stored under [lbl], run in place. *)
Definition on_scan {A} (f : feeder) (lbl : string) (m : M A) : res A * feeder :=
  match PyDict.getitem (scans (agg f)) lbl with
  | None => (Raise KeyError, f)
  | Some d =>
      let '(r, d', tr) := run m d (events f) in
      (r, mkFeeder (with_scan (agg f) lbl d') (gen f) tr)
  end.

(** The loop body up to the [yield], for the scans still to visit. *)
Definition feed_from (env : Env) (f : feeder) (todo : list string)
    : res (option package) * feeder :=
  match todo with
  | [] =>
      (Ok None, mkFeeder (set_available false (agg f)) GenDone (events f))
  | lbl :: rest =>
      match on_scan f lbl
              (load env 0 None None None AutoPartition;;
               d ← getself;
               outdict ← lift (as_data_package d 0 None);
               emit EvBarrier;;
               mret outdict) with
      | (Ok p, f') => (Ok (Some p), mkFeeder (agg f') (GenAt lbl rest) (events f'))
      | (Raise e, f') => (Raise e, mkFeeder (agg f') GenDone (events f'))
      end
  end.

(** [next(g)] on the generator of [feed_data()]; [Ok None] is
    [StopIteration]. *)
Definition feed_next (env : Env) (f : feeder) : res (option package) * feeder :=
  match gen f with
  | GenNew => feed_from env f (PyDict.keys (scans (agg f)))
  | GenAt lbl rest =>
      match on_scan f lbl unload_data with
      | (Ok _, f') => feed_from env f' rest
      | (Raise e, f') => (Raise e, mkFeeder (agg f') GenDone (events f'))
      end
  | GenDone => (Ok None, f)
  end.

(** [self.feed_data()]: a new generator; nothing runs before the first
    [next]. *)
Definition feed_data (s : StaticDataSource) (tr : list event) : feeder :=
  mkFeeder s GenNew tr.

(** [list(g)]: the batches up to exhaustion, at most [fuel] of them. *)
Fixpoint drain (env : Env) (fuel : nat) (f : feeder)
    : res (list package) * feeder :=
  match fuel with
  | O => (Ok [], f)
  | S fuel' =>
      match feed_next env f with
      | (Ok None, f') => (Ok [], f')
      | (Ok (Some p), f') =>
          match drain env fuel' f' with
          | (Ok ps, f'') => (Ok (p :: ps), f'')
          | (Raise e, f'') => (Raise e, f'')
          end
      | (Raise e, f') => (Raise e, f')
      end
  end.

(** ** [PseudoDynamicDataSource] *)

(** The names bound at module level when a method runs. *)
Definition module_globals : list string :=
  [ "Thread"; "Event"; "time"; "os"; "np"; "copy"; "expect2"; "clean_path";
    "mass_center"; "parallel"; "logger"; "io"; "u"; "DEFAULT_scan_info";
    "DEFAULT_DATA"; "DataScan"; "StaticDataSource"; "PseudoDynamicDataSource";
    "DEFAULT"; "make_datasource"; "MetaTranslator"; "MT" ].

Definition global_name (n : string) : res unit :=
  if bool_decide (n ∈ module_globals) then Ok () else Raise NameError.

(** The methods of [DataScan] that the aggregators call by name. *)
Definition call_method (env : Env) (name : string) : M unit :=
  if String.eqb name "load" then load env 0 None None None AutoPartition
  else if String.eqb name "unload_data" then unload_data
  else raise AttributeError.

Record PseudoDynamicDataSource := mkPseudo {
  base : StaticDataSource;
  ppc : Z;
  calls : Z;
  frame_count : Z
}.

(** [PseudoDynamicDataSource(filelist, unique_scan_labels, patterns_per_call)]:
    the first statement looks up the global [DynamicDataSource] and hands
    [StaticDataSource.__init__] two of its three arguments. *)
Definition PseudoDynamicDataSource_init (env : Env) (filelist : list source_t)
    (unique_scan_labels : bool) (patterns_per_call : Z)
    : res PseudoDynamicDataSource :=
  res_bind (global_name "DynamicDataSource") (λ _, Raise TypeError).

Record pfeeder := mkPFeeder {
  pagg : PseudoDynamicDataSource;
  pgen : gen_state;
  pevents : list event
}.

Definition pseudo_on_scan {A} (f : pfeeder) (lbl : string) (m : M A)
    : res A * pfeeder :=
  match PyDict.getitem (scans (base (pagg f))) lbl with
  | None => (Raise KeyError, f)
  | Some d =>
      let '(r, d', tr) := run m d (pevents f) in
      let p := pagg f in
      (r, mkPFeeder (mkPseudo (with_scan (base p) lbl d') (ppc p) (calls p)
                       (frame_count p)) (pgen f) tr)
  end.

Definition pseudo_feed_from (env : Env) (f : pfeeder) (todo : list string)
    : res (option package) * pfeeder :=
  match todo with
  | [] =>
      let p := pagg f in
      (Ok None,
       mkPFeeder (mkPseudo (set_available (frame_count p <? total_frames (base p))
                              (base p)) (ppc p) (calls p) (frame_count p))
                 GenDone (pevents f))
  | lbl :: rest =>
      let p := pagg f in
      match pseudo_on_scan f lbl
              (call_method env "load_data";;
               modify (λ d, upd_scan_info
                              (<["scan_label" := PStr lbl]> (scan_info d)) d);;
               d ← getself;
               lift (as_data_package d (calls p * ppc p)
                       (Some ((calls p + 1) * ppc p)))) with
      | (Ok out, f') =>
          let p' := pagg f' in
          (Ok (Some out),
           mkPFeeder (mkPseudo (base p') (ppc p') (calls p' + 1)
                        (frame_count p' + Z.of_nat (length (iterable out))))
                     (GenAt lbl rest) (pevents f'))
      | (Raise e, f') => (Raise e, mkPFeeder (pagg f') GenDone (pevents f'))
      end
  end.

(** [next(g)] on the generator of [PseudoDynamicDataSource.feed_data()]. *)
Definition pseudo_feed_next (env : Env) (f : pfeeder)
    : res (option package) * pfeeder :=
  match pgen f with
  | GenNew => pseudo_feed_from env f (PyDict.keys (scans (base (pagg f))))
  | GenAt lbl rest =>
      match pseudo_on_scan f lbl (call_method env "unload_data") with
      | (Ok _, f') => pseudo_feed_from env f' rest
      | (Raise e, f') => (Raise e, mkPFeeder (pagg f') GenDone (pevents f'))
      end
  | GenDone => (Ok None, f)
  end.

Definition pseudo_feed_data (p : PseudoDynamicDataSource) (tr : list event)
    : pfeeder :=
  mkPFeeder p GenNew tr.

(** ** A single-process run

    The collaborators as they behave when one process runs without MPI:
    the load manager hands every frame to rank 0, [expect2] keeps the
    first two entries (or doubles a single one), every destination file
    exists already and the user answers [Y]. *)

Definition expect2_single (l : list Z) : res (Z * Z) :=
  match l with
  | [] => Raise IndexError
  | [a] => Ok (a, a)
  | a :: b :: _ => Ok (a, b)
  end.

(** ['Scan%(idx)02d' % {'idx': i}]: the index written with two digits in
    place of the conversion; a template without it is left as it is. *)
Definition two_digits (i : nat) : string :=
  if (i <? 10)%nat then "0" ++ pretty i else pretty i.

Definition interpolate_idx (t : string) (i : nat) : res string :=
  let spec := "%(idx)02d" in
  match String.index 0 spec t with
  | Some p =>
      Ok (String.substring 0 p t ++ two_digits i
          ++ String.substring (p + String.length spec)
               (String.length t - p - String.length spec) t)
  | None => Ok t
  end.

Definition single_process : Env :=
  {| rank := 0;
     MPIenabled := false;
     master := true;
     assign := λ idlist, Ok (map snd idlist);
     inbox := λ _, mkArr [] [0];
     expect2 := expect2_single;
     clean_path := λ v, match v with PStr f => Ok f | _ => Raise AttributeError end;
     path_exists := λ _, true;
     raw_input := λ _, "Y";
     h5read := λ _ _ _, Raise (IOError "no such file");
     h5info := λ _, Raise (IOError "no such file");
     interpolate := interpolate_idx;
     recursion_limit := 1000 |}.

(** ** Example stores *)

Definition frames3 : ndarray := mkArr [2; 2; 2]%nat [1; 2; 3; 4; 5; 6; 7; 8].
Definition mask2 : ndarray := mkArr [2; 2]%nat [1; 1; 0; 1].
Definition flat3 : ndarray := mkArr [2; 2; 2]%nat [9; 9; 9; 9; 7; 7; 7; 7].

Definition info222 : param :=
  list_to_map
    [ ("shape", PTuple [2; 2; 2]);
      ("positions", PList [PTuple [0; 0]; PTuple [0; 1]]) ].

(** A scan kept in memory: frames, a shared 2-d mask under the old key
    [fmask], no dark, a flat per frame. *)
Definition store_a : source_t :=
  SrcDict (Some info222)
    (list_to_map [("data", frames3); ("fmask", mask2); ("flat", flat3)]).

(** The same with the mask under [mask]. *)
Definition store_b : source_t :=
  SrcDict (Some info222)
    (list_to_map [("data", frames3); ("mask", mask2); ("flat", flat3)]).

(** A store whose dark is one number for all pixels of all frames. *)
Definition dark0 : ndarray := mkArr [] [0].

Definition store_scalar : source_t :=
  SrcDict (Some info222)
    (list_to_map [("data", frames3); ("mask", mask2); ("dark", dark0)]).

(** A store whose mask has three dimensions, one frame per data frame. *)
Definition store_mask3 : source_t :=
  SrcDict (Some info222) (list_to_map [("data", frames3); ("mask", flat3)]).

(** A store without frames. *)
Definition store_nodata : source_t :=
  SrcDict (Some info222) (list_to_map [("mask", mask2)]).

(** The frame range and both image axes in full. *)
Definition full3 : slc := Slices [slice_all; slice_all; slice_all].

(** ** Vocabulary of the statements *)

(** [slc[j:]] *)
Fixpoint slc_drop (j : nat) (s : slc) : slc :=
  match j with
  | O => s
  | S j' => slc_drop j' (slc_tail s)
  end.

(** The two errors [probe_n_load] takes for a slice that does not fit. *)
Definition index_error (r : res ndarray) : Prop :=
  r = Raise IndexError ∨ r = Raise TypeError.

(** An array that holds as many elements as its shape says. *)
Definition well_formed (a : ndarray) : Prop :=
  length (elems a) = size_of (shape a).

(** [last], or [scan_info.shape[0]] when it is not given. *)
Definition resolve_last (d : DataScan) (last : option Z) : res Z :=
  match last with
  | Some l => Ok l
  | None => res_bind (si_shape (scan_info d)) (λ shp, py_getitem shp 0)
  end.

(** A run of consecutive frame numbers [a, a+1, ..., b]. *)
Definition contiguous (ix : list Z) : Prop :=
  ∃ a b, a ≤ b ∧ ix = py_range a (b + 1).

(** Two states of an object that differ in the per-frame lists at most. *)
Definition same_arrays (d d' : DataScan) : Prop :=
  data d' = data d ∧ mask d' = mask d ∧ flat d' = flat d ∧ dark d' = dark d
  ∧ indices d' = indices d ∧ Nframes d' = Nframes d
  ∧ frame_slice d' = frame_slice d ∧ scan_info d' = scan_info d
  ∧ loader d' = loader d ∧ source d' = source d.

(** The objects that [load] was never run on: a newly constructed one,
    and what [set_source], [unload_data] and [save] make of such an
    object, whether they return or raise. *)
Inductive never_loaded (env : Env) : DataScan → Prop :=
| nl_init pars src snk d :
    DataScan_init env pars src snk = Ok d → never_loaded env d
| nl_set_source d src tr :
    never_loaded env d →
    never_loaded env (self (set_source env src (mkWorld d tr)).2)
| nl_unload d tr :
    never_loaded env d →
    never_loaded env (self (unload_data (mkWorld d tr)).2)
| nl_save d filename force_overwrite tr :
    never_loaded env d →
    never_loaded env (self (save env filename force_overwrite (mkWorld d tr)).2).

(** [z] is the ceiling of [q]: the least integer not below it. *)
Definition is_ceiling (z : Z) (q : Q) : Prop :=
  (inject_Z (z - 1) < q)%Q ∧ (q <= inject_Z z)%Q.

(** A load manager that hands this process the frames 0 and 2. *)
Definition gappy : Env :=
  {| rank := 0;
     MPIenabled := true;
     master := true;
     assign := λ _, Ok [0; 2];
     inbox := inbox single_process;
     expect2 := expect2_single;
     clean_path := clean_path single_process;
     path_exists := λ _, true;
     raw_input := λ _, "Y";
     h5read := h5read single_process;
     h5info := h5info single_process;
     interpolate := interpolate_idx;
     recursion_limit := 1000 |}.

(** An empty scan of three 10x10 frames. *)
Definition scan10 : DataScan :=
  match DataScan_init single_process
          (Some (list_to_map [("shape", PTuple [3; 10; 10])])) SrcNone SrcNone with
  | Ok d => d
  | Raise _ => blank None SrcNone SrcNone
  end.

(** An empty scan of two 2x2 frames that names its file, with frames and
    a mask stored in it from outside ([ds.data = ...], [ds.mask = ...]) as
    a reduction routine does before it calls [save]. *)
Definition scan222 : DataScan :=
  match DataScan_init single_process
          (Some (list_to_map [("shape", PTuple [2; 2; 2]);
                              ("data_filename", PStr "scan.h5")]))
          SrcNone SrcNone with
  | Ok d => d
  | Raise _ => blank None SrcNone SrcNone
  end.

Definition attached : DataScan :=
  upd_mask (Some (Some mask2)) (upd_data (Some (Some frames3)) scan222).

(** The object [DataScan(source=src)] of a single-process run. *)
Definition scan_of (src : source_t) : DataScan :=
  match DataScan_init single_process None src SrcNone with
  | Ok d => d
  | Raise _ => blank None src SrcNone
  end.

(** [StaticDataSource([store_b, store_a], [None, None], [])]: both scans
    take their label from the default template. *)
Definition two_scans : res StaticDataSource :=
  StaticDataSource_init single_process [store_b; store_a] [None; None] [].

(** [list(two_scans.feed_data())], with the aggregator as it is left. *)
Definition two_scans_fed : res (res (list package) * feeder) :=
  res_map (λ s, drain single_process 3 (feed_data s [])) two_scans.

(** The labels carried by a sequence of batches. *)
Definition batch_labels (ps : list package) : list (option pyval) :=
  map (λ p, common p !! "label") ps.

(** [store_b] loaded in full. *)
Definition loaded_b : DataScan :=
  (run (load single_process 0 None None None AllFrames) (scan_of store_b) []).1.2.

(** A read of the store under one of the five keys [load] knows. *)
Definition is_load (e : event) : Prop :=
  ∃ k s, e = EvLoad k s ∧ k ∈ ["data"; "mask"; "fmask"; "dark"; "flat"].

(** [w'] comes after [w] by reads of the store alone, with the meta
    data, the label, the source, its loader and the sink as they were. *)
Definition reads_since (w w' : world) : Prop :=
  (∃ evs, trace w' = (trace w ++ evs)%list ∧ Forall is_load evs)
  ∧ scan_info (self w') = scan_info (self w) ∧ label (self w') = label (self w)
  ∧ source (self w') = source (self w) ∧ loader (self w') = loader (self w)
  ∧ sink (self w') = sink (self w).

(** A method body that, returning or raising, only reads the store. *)
Definition reads_only {A} (m : M A) : Prop := ∀ w, reads_since w (m w).2.

(** * Properties *)

(** ** The frame loader *)

Section ProbeNLoadFacts.

Variable loader : string → option slc → res ndarray.

Lemma probe_n_load_ok depth k s altkey a :
  loader k (Some s) = Ok a →
  probe_n_load loader (S depth) (Some k) s altkey = ([(k, s)], Ok (Some a)).
Proof. intros H. simpl. by rewrite H. Qed.

Lemma probe_n_load_index depth k s altkey :
  index_error (loader k (Some s)) →
  probe_n_load loader (S depth) (Some k) s altkey =
    ((k, s) :: (probe_n_load loader depth (Some k) (slc_tail s) None).1,
     (probe_n_load loader depth (Some k) (slc_tail s) None).2).
Proof. intros [H | H]; simpl; by rewrite H. Qed.

Lemma probe_n_load_key_none depth k s :
  loader k (Some s) = Raise KeyError →
  probe_n_load loader (S depth) (Some k) s None = ([(k, s)], Ok None).
Proof. intros H. simpl. by rewrite H. Qed.

Lemma probe_n_load_key_alt depth k s ak :
  loader k (Some s) = Raise KeyError →
  probe_n_load loader (S depth) (Some k) s (Some ak) =
    ((k, s) :: (probe_n_load loader depth (Some ak) s None).1,
     (probe_n_load loader depth (Some ak) s None).2).
Proof. intros H. simpl. by rewrite H. Qed.

(** Without an alternate key every call of the loader uses the key asked
    for. *)
Lemma probe_n_load_keys depth k s :
  Forall (λ a : attempt, a.1 = k) (probe_n_load loader depth (Some k) s None).1.
Proof.
  revert s. induction depth as [| depth IH]; intros s; simpl; [constructor |].
  destruct (loader k (Some s)) as [a | e]; simpl; [by repeat constructor |].
  destruct e; simpl; try by repeat constructor.
  all: constructor; [done | apply IH].
Qed.

(** The first attempt is made with the key and the slice as given. *)
Lemma probe_n_load_first depth k s altkey :
  ∃ rest, (probe_n_load loader (S depth) (Some k) s altkey).1 = (k, s) :: rest.
Proof.
  simpl. destruct (loader k (Some s)) as [a | e]; simpl; [by eexists |].
  destruct e, altkey; simpl; by eexists.
Qed.

Lemma slc_drop_tail j s : slc_drop j (slc_tail s) = slc_tail (slc_drop j s).
Proof. revert s. induction j as [| j IH]; intros s; simpl; [done | apply IH]. Qed.

Lemma slc_len_tail s : slc_len (slc_tail s) = pred (slc_len s).
Proof. destruct s as [[| x ss] | ids ss]; simpl; done. Qed.

(** Once every dimension is dropped the slice stays the empty tuple. *)
Lemma slc_drop_exhausted j s :
  (slc_len s ≤ j)%nat → slc_drop j s = Slices [].
Proof.
  revert s. induction j as [| j IH]; intros s H; simpl.
  - destruct s as [[| x ss] | ids ss]; simpl in *; [done | lia | lia].
  - apply IH. rewrite slc_len_tail. lia.
Qed.

(** Dimension fallback, success: [j] index errors and then a read that
    works give that read's array after exactly [j] retries. *)
Lemma probe_n_load_retries j : ∀ depth k s altkey a,
  (j < depth)%nat →
  (∀ i, (i < j)%nat → index_error (loader k (Some (slc_drop i s)))) →
  loader k (Some (slc_drop j s)) = Ok a →
  probe_n_load loader depth (Some k) s altkey =
    (map (λ i, (k, slc_drop i s)) (seq 0 (S j)), Ok (Some a)).
Proof.
  induction j as [| j IH]; intros depth k s altkey a Hd Herr Hok.
  - destruct depth as [| depth]; [lia |]. simpl in Hok.
    by rewrite (probe_n_load_ok _ _ _ _ _ Hok).
  - destruct depth as [| depth]; [lia |].
    rewrite probe_n_load_index; [| apply (Herr 0%nat); lia].
    rewrite (IH depth k (slc_tail s) None a); [| lia | |].
    + replace (seq 0 (S (S j))) with (0%nat :: map S (seq 0 (S j)))
        by (by rewrite seq_shift).
      by rewrite map_cons, map_map.
    + intros i Hi. apply (Herr (S i)). lia.
    + exact Hok.
Qed.

(** Dimension fallback, exhaustion: when no suffix of the slice can be
    read, not even the empty one, the recursion only ends with the
    interpreter's stack. *)
Lemma probe_n_load_exhausted depth : ∀ k s altkey,
  (∀ i, (i ≤ slc_len s)%nat → index_error (loader k (Some (slc_drop i s)))) →
  (probe_n_load loader depth (Some k) s altkey).2 = Raise recursion_exceeded.
Proof.
  induction depth as [| depth IH]; intros k s altkey H; [done |].
  rewrite probe_n_load_index; [| apply (H 0%nat); lia]. simpl.
  apply IH. intros i Hi.
  destruct (decide (S i ≤ slc_len s)%nat) as [Hle | Hgt].
  - apply (H (S i) Hle).
  - assert (slc_drop i (slc_tail s) = slc_drop (slc_len s) s) as ->.
    { rewrite (slc_drop_exhausted (slc_len s) s); [| lia].
      apply slc_drop_exhausted. rewrite slc_len_tail in *. lia. }
    apply H. lia.
Qed.

End ProbeNLoadFacts.

Lemma slc_drop_S j s : slc_drop j (slc_tail s) = slc_drop (S j) s.
Proof. reflexivity. Qed.

(** Every call of the loader is made with the key asked for or the
    alternate key, on a suffix of the slice asked for; there are at most
    [depth] calls. *)
Lemma probe_n_load_attempts (ld : string → option slc → res ndarray) depth :
  ∀ k s alt,
    (length (probe_n_load ld depth (Some k) s alt).1 ≤ depth)%nat
    ∧ ∀ k' s', (k', s') ∈ (probe_n_load ld depth (Some k) s alt).1 →
        (k' = k ∨ alt = Some k') ∧ ∃ j, s' = slc_drop j s.
Proof.
  induction depth as [| depth IH]; intros k s alt.
  - simpl. split; [lia |]. intros k' s' H. by apply elem_of_nil in H.
  - assert (∀ k' s', (k', s') ∈ [(k, s)] →
              (k' = k ∨ alt = Some k') ∧ ∃ j, s' = slc_drop j s) as Hone.
    { intros k' s' H. apply list_elem_of_singleton in H. inversion H; subst.
      split; [by left | by exists 0%nat]. }
    destruct (IH k (slc_tail s) None) as [Hlen1 Hin1].
    assert (∀ k' s',
              (k', s') ∈ (k, s) :: (probe_n_load ld depth (Some k) (slc_tail s) None).1 →
              (k' = k ∨ alt = Some k') ∧ ∃ j, s' = slc_drop j s) as Hidx.
    { intros k' s' H. apply elem_of_cons in H as [H | H].
      - inversion H; subst. split; [by left | by exists 0%nat].
      - destruct (Hin1 _ _ H) as [[-> | ?] [j ->]]; [| done].
        split; [by left | by exists (S j)]. }
    simpl. destruct (ld k (Some s)) as [a | e]; simpl; [split; [lia | exact Hone] |].
    destruct e; simpl; try (split; [lia | exact Hone]).
    + split; [lia | exact Hidx].
    + split; [lia | exact Hidx].
    + destruct alt as [ak |]; simpl; [| split; [lia | exact Hone]].
      destruct (IH ak s None) as [Hlen2 Hin2]. split; [lia |].
      intros k' s' H. apply elem_of_cons in H as [H | H].
      * inversion H; subst. split; [by left | by exists 0%nat].
      * destruct (Hin2 _ _ H) as [[-> | ?] Hj]; [| done].
        split; [by right | exact Hj].
Qed.

(** ** numpy indexing *)

Lemma slice_bounds_all n : slice_bounds slice_all n = (0%nat, n).
Proof. unfold slice_bounds. simpl. by rewrite Z.sub_0_r, Nat2Z.id. Qed.

Lemma chunk_succ stride el p :
  chunk stride el (S p) = chunk stride (drop stride el) p.
Proof.
  unfold chunk. by rewrite drop_drop.
Qed.

Lemma flat_map_chunks n : ∀ stride el,
  length el = (n * stride)%nat →
  flat_map (chunk stride el) (seq 0 n) = el.
Proof.
  induction n as [| n IH]; intros stride el Hlen.
  - simpl in *. symmetry. by apply nil_length_inv.
  - rewrite <- cons_seq, <- seq_shift. simpl. rewrite flat_map_concat_map, map_map.
    rewrite <- flat_map_concat_map.
    erewrite flat_map_ext; [| intros p; apply chunk_succ].
    rewrite IH.
    + unfold chunk. simpl. rewrite drop_0. apply take_drop.
    + rewrite length_drop. simpl in Hlen. lia.
Qed.

Lemma chunk_length stride el p n :
  length el = (n * stride)%nat → (p < n)%nat → length (chunk stride el p) = stride.
Proof.
  intros Hlen Hp. unfold chunk. rewrite length_take, length_drop. nia.
Qed.

Lemma flat_map_ext_on {A B} (f g : A → list B) (l : list A) :
  (∀ a, In a l → f a = g a) → flat_map f l = flat_map g l.
Proof.
  induction l as [| x l IH]; intros H; simpl; [done |].
  rewrite (H x), IH; [done | | by left]. intros a Ha. apply H. by right.
Qed.

(** Open slices on every axis give the array back. *)
Lemma crop_full ss : ∀ sh el,
  Forall (λ s, s = slice_all) ss → (length ss ≤ length sh)%nat →
  length el = size_of sh →
  crop_shape ss sh = Some sh ∧ crop_elems ss sh el = el.
Proof.
  induction ss as [| s ss IH]; intros sh el Hall Hlen Hel.
  - by destruct sh.
  - destruct sh as [| n sh]; [simpl in Hlen; lia |].
    inversion Hall as [| ? ? Hs Hall']; subst. simpl in Hlen, Hel.
    destruct (IH sh (replicate (size_of sh) 0) Hall') as [Hshape _];
      [lia | by rewrite length_replicate |].
    split.
    + cbn [crop_shape]. by rewrite Hshape, slice_bounds_all.
    + cbn [crop_elems]. unfold slice_positions. rewrite slice_bounds_all.
      cbn [fst snd].
      erewrite flat_map_ext_on.
      * apply flat_map_chunks. exact Hel.
      * intros p Hp. apply in_seq in Hp.
        apply IH; [done | lia |].
        apply (chunk_length _ _ _ n); [exact Hel | lia].
Qed.

Lemma crop_shape_length ss : ∀ sh sh',
  crop_shape ss sh = Some sh' → length sh' = length sh.
Proof.
  induction ss as [| s ss IH]; intros sh sh' H.
  - destruct sh; simpl in H; by inversion H.
  - destruct sh as [| n sh]; [done |]. simpl in H.
    destruct (crop_shape ss sh) as [sh'' |] eqn:E; [| done].
    inversion H; subst. simpl. f_equal. by apply IH.
Qed.

Lemma crop_shape_fits ss : ∀ sh,
  (length ss ≤ length sh)%nat → is_Some (crop_shape ss sh).
Proof.
  induction ss as [| s ss IH]; intros sh H.
  - by destruct sh.
  - destruct sh as [| n sh]; [simpl in H; lia |]. simpl in *.
    destruct (IH sh) as [sh' ->]; [lia | done].
Qed.

Lemma crop_shape_too_many ss : ∀ sh,
  (length sh < length ss)%nat → crop_shape ss sh = None.
Proof.
  induction ss as [| s ss IH]; intros sh H; [simpl in H; lia |].
  destruct sh as [| n sh]; [done |]. simpl in *. rewrite IH; [done | lia].
Qed.

(** More indices than axes: [IndexError]. *)
Lemma nd_getitem_too_many a s :
  (ndim a < slc_len s)%nat → nd_getitem a s = Raise IndexError.
Proof.
  unfold ndim. destruct a as [sh el], s as [ss | ids ss]; simpl; intros H.
  - rewrite crop_shape_too_many; [done | lia].
  - destruct sh as [| n sh]; [done |].
    rewrite crop_shape_too_many; [done | simpl in H; lia].
Qed.

(** As many slices as axes: the array cropped, of the same rank. *)
Lemma nd_getitem_slices a ss :
  (length ss ≤ ndim a)%nat →
  ∃ a', nd_getitem a (Slices ss) = Ok a' ∧ ndim a' = ndim a.
Proof.
  unfold ndim. destruct a as [sh el]. simpl. intros H.
  destruct (crop_shape_fits ss sh H) as [sh' E]. rewrite E.
  eexists. split; [done |]. simpl. by eapply crop_shape_length.
Qed.

Lemma nd_getitem_full a ss :
  well_formed a → Forall (λ s, s = slice_all) ss → (length ss ≤ ndim a)%nat →
  nd_getitem a (Slices ss) = Ok a.
Proof.
  unfold well_formed, ndim. destruct a as [sh el]. simpl. intros Hwf Hall Hlen.
  destruct (crop_full ss sh el Hall Hlen Hwf) as [-> ->]. done.
Qed.

(** ** C1: key fallback *)

(** C1 (as amended): on a missing-key error [probe_n_load] retries once,
    with the alternate key and the same slice, when an alternate is given;
    the retry has no alternate of its own, so every later call of the
    loader uses the alternate key.  When the alternate misses too, or none
    was given, the result is Absent ([None]) whatever the key: the frames
    key [data] is treated like [mask], [dark] and [flat]. *)
Theorem probe_n_load_key_fallback
    (ld : string → option slc → res ndarray) (depth : nat) (k : string) (s : slc) :
  (2 ≤ depth)%nat →
  ld k (Some s) = Raise KeyError →
  probe_n_load ld depth (Some k) s None = ([(k, s)], Ok None)
  ∧ ∀ ak,
      (∃ rest,
         (probe_n_load ld depth (Some k) s (Some ak)).1 = (k, s) :: (ak, s) :: rest
         ∧ Forall (λ a : attempt, a.1 = ak) rest)
      ∧ (ld ak (Some s) = Raise KeyError →
         probe_n_load ld depth (Some k) s (Some ak) = ([(k, s); (ak, s)], Ok None))
      ∧ (∀ a, ld ak (Some s) = Ok a →
         probe_n_load ld depth (Some k) s (Some ak)
         = ([(k, s); (ak, s)], Ok (Some a))).
Proof.
  intros Hd Hmiss.
  destruct depth as [| [| depth]]; [lia | lia |].
  split; [by apply probe_n_load_key_none |].
  intros ak. rewrite (probe_n_load_key_alt ld _ _ _ ak Hmiss).
  split; [| split].
  - destruct (probe_n_load_first ld depth ak s None) as [rest Hrest].
    exists rest. cbn [fst]. split; [by rewrite Hrest |].
    pose proof (probe_n_load_keys ld (S depth) ak s) as Hall.
    rewrite Hrest in Hall. by inversion Hall.
  - intros Hak. by rewrite (probe_n_load_key_none ld _ _ _ Hak).
  - intros a Hak. by rewrite (probe_n_load_ok ld _ _ _ None _ Hak).
Qed.

(** The store [store_a] keeps its mask under [fmask] and has no [dark]:
    asking for [mask] goes on to [fmask], asking for [dark] gives Absent. *)
Lemma probe_n_load_key_fallback_witness :
  (2 ≤ 1000)%nat
  ∧ run_loader single_process (scan_of store_a) "mask" (Some full3) = Raise KeyError
  ∧ probe_n_load (run_loader single_process (scan_of store_a)) 1000
      (Some "mask") full3 None = ([("mask", full3)], Ok None)
  ∧ (probe_n_load (run_loader single_process (scan_of store_a)) 1000
      (Some "mask") full3 (Some "fmask")).2 = Ok (Some mask2).
Proof.
  split; [lia |]. split; [vm_compute; reflexivity |].
  split; [| vm_compute; reflexivity].
  apply (probe_n_load_key_fallback
           (run_loader single_process (scan_of store_a)) 1000 "mask" full3).
  - lia.
  - vm_compute. reflexivity.
Defined.

(** C1 as stated fails: a store without [data] makes [probe_n_load]
    return Absent for [data]; the read of [load] goes through and leaves
    [self.data = None]. *)
Lemma probe_n_load_data_absent :
  run_loader single_process (scan_of store_nodata) "data" (Some full3)
    = Raise KeyError
  ∧ probe_n_load (run_loader single_process (scan_of store_nodata)) 1000
      (Some "data") full3 None = ([("data", full3)], Ok None)
  ∧ (let r := run (load_read single_process full3) (scan_of store_nodata) [] in
     r.1.1 = Ok () ∧ data r.1.2 = Some None).
Proof. vm_compute. repeat split; reflexivity. Qed.

(** ** C2: dimension fallback *)

(** A 2-d array read through the in-memory loader with a 3-d index. *)
Lemma run_loader_dict env d info arrays k m s :
  loader d = LoaderDict → source d = SrcDict info arrays → arrays !! k = Some m →
  run_loader env d k (Some s) = nd_getitem m s.
Proof. intros Hl Hs Hk. unfold run_loader. by rewrite Hl, Hs, Hk. Qed.

(** C2 (as amended): on an index error (IndexError or TypeError) from
    the store [probe_n_load] calls itself with [slc[1:]].  If the read
    works after [j] such errors, its array is returned after exactly [j]
    retries, the attempts being [slc], [slc[1:]], ..., [slc[j:]]; the
    last of these can be the empty tuple, which is read like any other.
    Only if no suffix of the slice can be read, the empty one included,
    does the call end in a fatal error: the recursion stays on the empty
    tuple until the interpreter raises [RuntimeError].  For a 2-d array in
    an in-memory store and a three-entry slice there is exactly one retry,
    and the array comes back cropped by the two image slices only: as it
    is when these are open. *)
Theorem probe_n_load_dimension_fallback
    (ld : string → option slc → res ndarray) (depth : nat) (k : string)
    (s : slc) (altkey : option string) :
  (∀ j a, (j < depth)%nat →
     (∀ i, (i < j)%nat → index_error (ld k (Some (slc_drop i s)))) →
     ld k (Some (slc_drop j s)) = Ok a →
     probe_n_load ld depth (Some k) s altkey
     = (map (λ i, (k, slc_drop i s)) (seq 0 (S j)), Ok (Some a)))
  ∧ ((∀ i, (i ≤ slc_len s)%nat → index_error (ld k (Some (slc_drop i s)))) →
     (probe_n_load ld depth (Some k) s altkey).2 = Raise recursion_exceeded)
  ∧ (∀ env d info arrays m,
       (2 ≤ depth)%nat → ld = run_loader env d →
       loader d = LoaderDict → source d = SrcDict info arrays →
       arrays !! k = Some m → ndim m = 2%nat → slc_len s = 3%nat →
       ∃ m', nd_getitem m (slc_tail s) = Ok m' ∧ ndim m' = 2%nat
         ∧ probe_n_load ld depth (Some k) s altkey
           = ([(k, s); (k, slc_tail s)], Ok (Some m'))
         ∧ (well_formed m → slc_tail s = Slices [slice_all; slice_all] → m' = m)).
Proof.
  split; [| split].
  - intros j a. apply probe_n_load_retries.
  - apply probe_n_load_exhausted.
  - intros env d info arrays m Hd -> Hl Hs Hk Hm Hlen.
    assert (∃ ss, slc_tail s = Slices ss ∧ length ss = 2%nat) as (ss & Htail & Hss).
    { destruct s as [[| x ss] | ids ss]; simpl in *; [lia | | ];
        eexists; split; try done; lia. }
    destruct (nd_getitem_slices m ss) as (m' & Hget & Hdim); [lia |].
    exists m'. rewrite Htail. split; [done |]. split; [congruence |]. split.
    + rewrite <- Htail.
      apply (probe_n_load_retries (run_loader env d) 1 depth k s altkey m'); [lia | |].
      * intros i Hi. assert (i = 0%nat) as -> by lia. left. simpl.
        rewrite (run_loader_dict env d info arrays k m s Hl Hs Hk).
        apply nd_getitem_too_many. lia.
      * simpl. rewrite (run_loader_dict env d info arrays k m _ Hl Hs Hk).
        by rewrite Htail.
    + intros Hwf Hopen. inversion Hopen; subst ss.
      rewrite nd_getitem_full in Hget; [congruence | done | | simpl; lia].
      by repeat constructor.
Qed.

(** [store_b] keeps one 2-d mask for all frames; the request carries the
    frame range as well. *)
Lemma probe_n_load_dimension_fallback_witness :
  probe_n_load (run_loader single_process (scan_of store_b)) 1000
    (Some "mask") full3 (Some "fmask")
  = ([("mask", full3); ("mask", Slices [slice_all; slice_all])], Ok (Some mask2)).
Proof.
  destruct (probe_n_load_dimension_fallback
              (run_loader single_process (scan_of store_b)) 1000 "mask" full3
              (Some "fmask")) as (_ & _ & H).
  destruct (H single_process (scan_of store_b) (Some info222)
              (list_to_map [("data", frames3); ("mask", mask2); ("flat", flat3)])
              mask2) as (m' & _ & _ & Hrun & Hsame);
    [lia | reflexivity | reflexivity | reflexivity | reflexivity | reflexivity
    | reflexivity |].
  rewrite Hrun. rewrite (Hsame eq_refl eq_refl). reflexivity.
Defined.

(** C2 as stated fails: with a 0-d [dark] in the store the three-entry
    slice is used up, down to the empty tuple, and no error is signalled:
    the read with the empty tuple returns the array. *)
Lemma probe_n_load_reads_empty_slice :
  slc_drop 3 full3 = Slices []
  ∧ probe_n_load (run_loader single_process (scan_of store_scalar)) 1000
      (Some "dark") full3 None
    = ([("dark", full3); ("dark", Slices [slice_all; slice_all]);
        ("dark", Slices [slice_all]); ("dark", Slices [])],
       Ok (Some dark0)).
Proof. vm_compute. split; reflexivity. Qed.

(** ** Reasoning about method bodies *)

Lemma bind_ok {A B} (m : M A) (k : A → M B) w b w' :
  (m ≫= k) w = (Ok b, w') → ∃ a w1, m w = (Ok a, w1) ∧ k a w1 = (Ok b, w').
Proof.
  unfold mbind, M_bind. destruct (m w) as [[a | e] w1]; [eauto | discriminate].
Qed.

Lemma bind_raise {A B} (m : M A) (k : A → M B) w e w' :
  (m ≫= k) w = (Raise e, w') →
  m w = (Raise e, w') ∨ ∃ a w1, m w = (Ok a, w1) ∧ k a w1 = (Raise e, w').
Proof.
  unfold mbind, M_bind. destruct (m w) as [[a | e'] w1]; [eauto 6 |].
  intros H. left. by inversion H.
Qed.

Lemma mret_ok {A} (a b : A) w w' :
  (mret a : M A) w = (Ok b, w') → b = a ∧ w' = w.
Proof. unfold mret, M_ret. intros H. by inversion H. Qed.

Lemma lift_ok {A} (r : res A) a w w' :
  lift r w = (Ok a, w') → r = Ok a ∧ w' = w.
Proof. unfold lift. intros H. by inversion H. Qed.

Lemma getself_ok d w w' :
  getself w = (Ok d, w') → d = self w ∧ w' = w.
Proof. unfold getself. intros H. by inversion H. Qed.

Lemma modify_ok f u w w' :
  modify f w = (Ok u, w') → w' = mkWorld (f (self w)) (trace w).
Proof. unfold modify. intros H. by inversion H. Qed.

Lemma emits_ok es u w w' :
  emits es w = (Ok u, w') → w' = mkWorld (self w) (trace w ++ es).
Proof. unfold emits. intros H. by inversion H. Qed.

Lemma emit_ok e u w w' :
  emit e w = (Ok u, w') → w' = mkWorld (self w) (trace w ++ [e]).
Proof. unfold emit. intros H. by inversion H. Qed.

Lemma py_assert_ok b u w w' :
  py_assert b w = (Ok u, w') → b = true ∧ w' = w.
Proof.
  unfold py_assert. destruct b; [| discriminate].
  intros H. apply mret_ok in H. by destruct H.
Qed.

Lemma getattr_ok {A} (f : DataScan → attr A) v w w' :
  getattr f w = (Ok v, w') → f (self w) = Some v ∧ w' = w.
Proof.
  unfold getattr. intros H. apply bind_ok in H as (d & w1 & Hd & H).
  apply getself_ok in Hd as [-> ->].
  destruct (f (self w)); [| discriminate]. apply mret_ok in H as [-> ->]. done.
Qed.

(** Takes a hypothesis [m w = (Ok a, w')] apart along the binds of [m]. *)
Ltac inv_ok H :=
  lazymatch type of H with
  | (_ ≫= _) _ = (Ok _, _) =>
      let a := fresh "a" in
      let w := fresh "w" in
      let H1 := fresh "Hm" in
      apply bind_ok in H as (a & w & H1 & H);
      inv_ok H1; cbv beta in H; inv_ok H
  | @mret M _ _ _ _ = (Ok _, _) => apply mret_ok in H as [? ?]; subst
  | lift _ _ = (Ok _, _) => apply lift_ok in H as [H ?]; subst
  | getself _ = (Ok _, _) => apply getself_ok in H as [? ?]; subst
  | modify _ _ = (Ok _, _) => apply modify_ok in H; subst
  | emit _ _ = (Ok _, _) => apply emit_ok in H; subst
  | emits _ _ = (Ok _, _) => apply emits_ok in H; subst
  | py_assert _ _ = (Ok _, _) => apply py_assert_ok in H as [H ?]; subst
  | getattr _ _ = (Ok _, _) => apply getattr_ok in H as [H ?]; subst
  | raise _ _ = (Ok _, _) => solve [inversion H]
  | (let '(_, _) := ?p in _) _ = (Ok _, _) => destruct p; inv_ok H
  | _ => idtac
  end.

(** ** C4: contiguous assignment, the rejection *)

Lemma bind_raise_l {A B} (m : M A) (k : A → M B) w e w' :
  m w = (Raise e, w') → (m ≫= k) w = (Raise e, w').
Proof. intros H. unfold mbind, M_bind. by rewrite H. Qed.

Lemma bind_ok_l {A B} (m : M A) (k : A → M B) w a w1 :
  m w = (Ok a, w1) → (m ≫= k) w = k a w1.
Proof. intros H. unfold mbind, M_bind. by rewrite H. Qed.

Lemma py_range_length a b : length (py_range a b) = Z.to_nat (b - a).
Proof. unfold py_range. by rewrite length_map, length_seq. Qed.

Lemma bind_assoc {A B C} (m : M A) (f : A → M B) (g : B → M C) w :
  ((m ≫= f) ≫= g) w = (m ≫= λ x, f x ≫= g) w.
Proof. unfold mbind, M_bind. by destruct (m w) as [[a | e] w1]. Qed.

Lemma raises_after {A B} (m : M A) (k : A → M B) w a w1 w' :
  m w = (Ok a, w1) → (∃ e, k a w1 = (Raise e, w')) →
  ∃ e, (m ≫= k) w = (Raise e, w').
Proof. intros H [e He]. exists e. by rewrite (bind_ok_l _ _ _ _ _ H). Qed.

Lemma raises_now {A B} (m : M A) (k : A → M B) w e w' :
  m w = (Raise e, w') → ∃ e, (m ≫= k) w = (Raise e, w').
Proof. intros H. exists e. by apply bind_raise_l. Qed.

(** One step towards [∃ e, m w = (Raise e, w')]: runs the first
    computation of [m], splitting on whether it raises. *)
Ltac raising_step :=
  rewrite ?bind_assoc;
  lazymatch goal with
  | |- ∃ e, (lift (Ok _) ≫= _) _ = (Raise e, _) =>
      eapply raises_after; [reflexivity | cbv beta]
  | |- ∃ e, (lift ?r ≫= _) _ = (Raise e, _) =>
      let E := fresh "E" in
      destruct r eqn:E;
      [ eapply raises_after; [reflexivity | cbv beta]
      | eapply raises_now; reflexivity ]
  | |- ∃ e, (py_assert ?b ≫= _) _ = (Raise e, _) =>
      let E := fresh "E" in
      destruct b eqn:E;
      [ eapply raises_after; [reflexivity | cbv beta]
      | eapply raises_now; reflexivity ]
  | |- ∃ e, (getself ≫= _) _ = (Raise e, _) =>
      eapply raises_after; [reflexivity | cbv beta]
  | |- ∃ e, (mret _ ≫= _) _ = (Raise e, _) =>
      eapply raises_after; [reflexivity | cbv beta]
  end.

(** In automatic-partition mode a list that is no run of consecutive
    numbers stops [load] before the object or the trace is touched. *)
Lemma load_rejects_gaps (env : Env) (first : Z) (last : option Z)
    (roidim roictr : option (list Z)) (w : world) :
  (∀ lst lbl ix,
     match last with
     | Some l => Ok l
     | None => res_bind (si_shape (scan_info (self w))) (λ shp, py_getitem shp 0)
     end = Ok lst →
     param_attr (scan_info (self w)) "scan_label" = Ok lbl →
     assign env (map (λ i, (lbl, i)) (py_range first lst)) = Ok ix →
     ¬ contiguous ix →
     ∃ e, load env first last roidim roictr AutoPartition w = (Raise e, w)).
Proof.
  intros lst lbl ix Hlast Hlbl Hasg Hnc.
  unfold load, load_prepare, choose_indices.
  raising_step.
  assert ((match last with
           | Some l => mret l
           | None => lift (si_shape (scan_info (self w)))
                     ≫= λ shp, lift (py_getitem shp 0)
           end : M Z) w = (Ok lst, w)) as Hl.
  { destruct last as [l |]; [by inversion Hlast |].
    destruct (si_shape (scan_info (self w))) as [shp | e] eqn:E;
      simpl in Hlast; [| done].
    unfold mbind, M_bind, lift. by rewrite Hlast. }
  rewrite ?bind_assoc. refine (raises_after _ _ w lst w w Hl _); cbv beta.
  do 4 (raising_step; try done).
  rewrite Hlbl. raising_step. rewrite Hasg. raising_step.
  do 3 (raising_step; try done).
  exfalso. apply Hnc. apply bool_decide_eq_true in E4.
  match type of E4 with _ = py_range ?a (?b + 1) => exists a, b end.
  split; [| done].
  match goal with |- ?a ≤ ?b => destruct (decide (a ≤ b)) as [| Hgt]; [done |] end.
  exfalso. rewrite E4 in E2. unfold py_range in E2.
  match type of E2 with context [Z.to_nat ?z] =>
    replace (Z.to_nat z) with 0%nat in E2 by lia end.
  discriminate.
Qed.

(** ** Taking [load] apart *)

Lemma norm_index_nonneg n i k :
  0 ≤ i → norm_index n i = Ok k → k = Z.to_nat i ∧ (k < n)%nat.
Proof.
  intros Hi. unfold norm_index.
  destruct ((0 <=? i) && (i <? Z.of_nat n)) eqn:E.
  - intros H. inversion H; subst. apply andb_true_iff in E as [_ E]. lia.
  - destruct ((- Z.of_nat n <=? i) && (i <? 0)) eqn:E'; [| done].
    apply andb_true_iff in E' as [_ E']. lia.
Qed.

Lemma setitem_attr_ok f upd i v u w w' :
  setitem_attr f upd i v w = (Ok u, w') →
  ∃ l n, f (self w) = Some l ∧ norm_index (length l) i = Ok n
    ∧ w' = mkWorld (upd (Some (<[n := v]> l)) (self w)) (trace w).
Proof.
  intros H. unfold setitem_attr in H. inv_ok H.
  unfold py_setitem in Hm0.
  destruct (norm_index (length a) i) as [n |] eqn:E; [| done].
  simpl in Hm0. inversion Hm0; subst. eauto.
Qed.

(** What one turn of the loop does to the object. *)
Lemma populate_step_ok k i w w' :
  populate_step (k, i) w = (Ok (), w') →
  ∃ dat fr msk mk fl dk dl ml fll dkl n1 n2 n3 n4,
    data (self w) = Some dat ∧ frame_of dat k = Ok fr
    ∧ mask (self w) = Some msk ∧ mask_of msk k = Ok mk
    ∧ flat (self w) = Some fl ∧ dark (self w) = Some dk
    ∧ datalist (self w) = Some dl ∧ norm_index (length dl) i = Ok n1
    ∧ masklist (self w) = Some ml ∧ norm_index (length ml) i = Ok n2
    ∧ flatlist (self w) = Some fll ∧ norm_index (length fll) i = Ok n3
    ∧ darklist (self w) = Some dkl ∧ norm_index (length dkl) i = Ok n4
    ∧ w' = mkWorld
             (upd_darklist (Some (<[n4 := dk]> dkl))
                (upd_flatlist (Some (<[n3 := fl]> fll))
                   (upd_masklist (Some (<[n2 := Some mk]> ml))
                      (upd_datalist (Some (<[n1 := Some fr]> dl)) (self w)))))
             (trace w).
Proof.
  intros H. unfold populate_step in H. inv_ok H.
  apply setitem_attr_ok in Hm1 as (dl & n1 & Hdl & Hn1 & ->). simpl in Hm2.
  apply setitem_attr_ok in Hm4 as (ml & n2 & Hml & Hn2 & ->). simpl in Hm5, Hml.
  apply setitem_attr_ok in Hm6 as (fll & n3 & Hfll & Hn3 & ->).
  simpl in Hm7, Hfll.
  apply setitem_attr_ok in H as (dkl & n4 & Hdkl & Hn4 & ->). simpl in Hdkl.
  repeat eexists; eassumption.
Qed.


Lemma same_arrays_refl d : same_arrays d d.
Proof. by repeat split. Qed.

Lemma same_arrays_trans d1 d2 d3 :
  same_arrays d1 d2 → same_arrays d2 d3 → same_arrays d1 d3.
Proof.
  unfold same_arrays. intros H1 H2.
  destruct H1 as (? & ? & ? & ? & ? & ? & ? & ? & ? & ?).
  destruct H2 as (? & ? & ? & ? & ? & ? & ? & ? & ? & ?).
  repeat split; congruence.
Qed.

(** The loop that fills the per-frame lists, for distinct frame numbers
    that are not negative: every slot named is set, the others are kept,
    and nothing else of the object changes. *)
Lemma for_each_populate kis : ∀ w w' dl ml fll dkl,
  for_each kis populate_step w = (Ok (), w') →
  NoDup (map snd kis) → Forall (λ ki : Z * Z, 0 ≤ ki.2) kis →
  datalist (self w) = Some dl → masklist (self w) = Some ml →
  flatlist (self w) = Some fll → darklist (self w) = Some dkl →
  ∃ dl' ml' fll' dkl',
    datalist (self w') = Some dl' ∧ masklist (self w') = Some ml'
    ∧ flatlist (self w') = Some fll' ∧ darklist (self w') = Some dkl'
    ∧ length dl' = length dl ∧ length ml' = length ml
    ∧ length fll' = length fll ∧ length dkl' = length dkl
    ∧ same_arrays (self w) (self w') ∧ trace w' = trace w
    ∧ (∀ j, Z.of_nat j ∉ map snd kis →
         dl' !! j = dl !! j ∧ ml' !! j = ml !! j
         ∧ fll' !! j = fll !! j ∧ dkl' !! j = dkl !! j)
    ∧ (∀ k i, (k, i) ∈ kis →
         ∃ dat fr msk mk fl dk,
           data (self w) = Some dat ∧ frame_of dat k = Ok fr
           ∧ mask (self w) = Some msk ∧ mask_of msk k = Ok mk
           ∧ flat (self w) = Some fl ∧ dark (self w) = Some dk
           ∧ dl' !! Z.to_nat i = Some (Some fr)
           ∧ ml' !! Z.to_nat i = Some (Some mk)
           ∧ fll' !! Z.to_nat i = Some fl
           ∧ dkl' !! Z.to_nat i = Some dk).
Proof.
  induction kis as [| [k i] kis IH];
    intros w w' dl ml fll dkl Hrun Hnd Hpos Hdl Hml Hfll Hdkl.
  - simpl in Hrun. apply mret_ok in Hrun as [_ ->].
    exists dl, ml, fll, dkl. repeat split; try done.
    intros k i Hin. by apply elem_of_nil in Hin.
  - simpl in Hrun. apply bind_ok in Hrun as ([] & w1 & Hstep & Hrest).
    apply populate_step_ok in Hstep
      as (dat & fr & msk & mk & fl & dk & dl0 & ml0 & fll0 & dkl0
          & n1 & n2 & n3 & n4 & Hdat & Hfr & Hmsk & Hmk & Hfl & Hdk
          & Hdl0 & Hn1 & Hml0 & Hn2 & Hfll0 & Hn3 & Hdkl0 & Hn4 & ->).
    rewrite Hdl in Hdl0. rewrite Hml in Hml0. rewrite Hfll in Hfll0.
    rewrite Hdkl in Hdkl0. inversion Hdl0; inversion Hml0; inversion Hfll0;
      inversion Hdkl0; subst dl0 ml0 fll0 dkl0. clear Hdl0 Hml0 Hfll0 Hdkl0.
    inversion Hnd as [| ? ? Hni Hnd']; subst.
    inversion Hpos as [| ? ? Hi Hpos']; subst. simpl in Hi, Hni.
    apply (norm_index_nonneg _ _ _ Hi) in Hn1 as [-> Hlt1].
    apply (norm_index_nonneg _ _ _ Hi) in Hn2 as [-> Hlt2].
    apply (norm_index_nonneg _ _ _ Hi) in Hn3 as [-> Hlt3].
    apply (norm_index_nonneg _ _ _ Hi) in Hn4 as [-> Hlt4].
    destruct (IH _ _ _ _ _ _ Hrest Hnd' Hpos' eq_refl eq_refl eq_refl eq_refl)
      as (dl' & ml' & fll' & dkl' & Hdl' & Hml' & Hfll' & Hdkl'
          & Ll1 & Ll2 & Ll3 & Ll4 & Hsame & Htr & Hkeep & Hset).
    exists dl', ml', fll', dkl'.
    rewrite length_insert in Ll1, Ll2, Ll3, Ll4.
    repeat (split; [assumption |]).
    split.
    + intros j Hj. cbn [map snd] in Hj.
      rewrite not_elem_of_cons in Hj. destruct Hj as [Hne Hj].
      destruct (Hkeep j Hj) as (-> & -> & -> & ->).
      rewrite !list_lookup_insert_ne by lia. done.
    + intros k' i' Hin. apply elem_of_cons in Hin as [Heq | Hin].
      * inversion Heq; subst k' i'.
        exists dat, fr, msk, mk, fl, dk. repeat (split; [assumption |]).
        assert (Z.of_nat (Z.to_nat i) ∉ map snd kis) as Hfree
          by (rewrite Z2Nat.id by lia; exact Hni).
        destruct (Hkeep _ Hfree) as (-> & -> & -> & ->).
        rewrite !list_lookup_insert_eq by lia. done.
      * destruct (Hset k' i' Hin)
          as (dat' & fr' & msk' & mk' & fl' & dk' & H1 & H2 & H3 & H4 & H5
              & H6 & H7).
        simpl in H1, H3, H5, H6.
        exists dat', fr', msk', mk', fl', dk'. by repeat (split; [assumption |]).
Qed.

Lemma enumerate_snd {A} (l : list A) : map snd (enumerate l) = l.
Proof.
  unfold enumerate. apply snd_zip. rewrite length_map, length_seq. lia.
Qed.

Lemma enumerate_lookup {A} (l : list A) k x :
  l !! k = Some x → (Z.of_nat k, x) ∈ enumerate l.
Proof.
  intros H. unfold enumerate. apply list_elem_of_lookup. exists k.
  apply lookup_zip_with_Some. exists (Z.of_nat k), x. split; [done |].
  split; [| done]. rewrite list_lookup_fmap, lookup_seq_lt; [done |].
  by apply lookup_lt_Some in H.
Qed.

(** [probe] is [probe_n_load] on the loader of the object, with one event
    per call of the loader; the object is not touched. *)
Lemma probe_run env key s alt w :
  probe env key s alt w =
    let r := probe_n_load (run_loader env (self w)) (recursion_limit env)
               (Some key) s alt in
    (r.2, mkWorld (self w) (trace w ++ map (λ a, EvLoad a.1 a.2) r.1)).
Proof.
  unfold probe, mbind, M_bind, getself, emits, lift. simpl.
  by destruct (probe_n_load _ _ _ _ _).2.
Qed.

(** The four reads: each array is what [probe_n_load] returns for its
    key, and the per-frame lists are not touched. *)
Lemma load_read_ok env sl w w' :
  load_read env sl w = (Ok (), w') →
  ∃ a m dk fl,
    (probe_n_load (run_loader env (self w)) (recursion_limit env)
       (Some "data") sl None).2 = Ok a
    ∧ (probe_n_load (run_loader env (self w)) (recursion_limit env)
         (Some "mask") sl (Some "fmask")).2 = Ok m
    ∧ (probe_n_load (run_loader env (self w)) (recursion_limit env)
         (Some "dark") sl None).2 = Ok dk
    ∧ (probe_n_load (run_loader env (self w)) (recursion_limit env)
         (Some "flat") sl None).2 = Ok fl
    ∧ self w' = upd_flat (Some fl) (upd_dark (Some dk)
                  (upd_mask (Some m) (upd_data (Some a) (self w)))).
Proof.
  intros H. unfold load_read in H.
  apply bind_ok in H as (a & w1 & H1 & H). rewrite probe_run in H1.
  inversion H1 as [[Ha Hw1]]; clear H1.
  apply bind_ok in H as ([] & w2 & H2 & H). apply modify_ok in H2.
  apply bind_ok in H as (m & w3 & H3 & H). rewrite probe_run in H3.
  inversion H3 as [[Hm Hw3]]; clear H3.
  apply bind_ok in H as ([] & w4 & H4 & H). apply modify_ok in H4.
  apply bind_ok in H as (dk & w5 & H5 & H). rewrite probe_run in H5.
  inversion H5 as [[Hdk Hw5]]; clear H5.
  apply bind_ok in H as ([] & w6 & H6 & H). apply modify_ok in H6.
  apply bind_ok in H as (fl & w7 & H7 & H). rewrite probe_run in H7.
  inversion H7 as [[Hfl Hw7]]; clear H7.
  apply modify_ok in H.
  exists a, m, dk, fl. subst. simpl in *. repeat split; assumption.
Qed.

Lemma py_range_nonempty a b x :
  py_getitem (py_range a b) 0 = Ok x → a < b.
Proof.
  intros H. destruct (decide (a < b)) as [| Hge]; [done |].
  unfold py_range in H. replace (Z.to_nat (b - a)) with 0%nat in H by lia.
  discriminate.
Qed.

(** The frames chosen, by mode. *)
Lemma choose_indices_ok env first last split w ix fs w' :
  choose_indices env first last split w = (Ok (ix, fs), w') →
  w' = w
  ∧ match split with
    | AllFrames => ix = py_range first last ∧ fs = Some slice_all
    | AutoPartition =>
        ∃ a b lbl, a ≤ b ∧ ix = py_range a (b + 1)
          ∧ fs = Some (mkSlice (Some a) (Some (b + 1)))
          ∧ param_attr (scan_info (self w)) "scan_label" = Ok lbl
          ∧ assign env (map (λ i, (lbl, i)) (py_range first last)) = Ok ix
    | ExplicitIndices l => ix = l ∧ fs = None
    end.
Proof.
  intros H. destruct split as [| | l]; simpl in H.
  - apply mret_ok in H as [H ->]. by inversion H.
  - inv_ok H. inversion H; subst. split; [done |].
    apply bool_decide_eq_true in Hm3.
    match type of Hm3 with _ = py_range ?a (?b + 1) => exists a, b end.
    eexists. repeat split; try eassumption.
    rewrite Hm3 in Hm1. apply py_range_nonempty in Hm1. lia.
  - apply mret_ok in H as [H ->]. by inversion H.
Qed.

(** The first half of [load] reads nothing and records what it chose. *)
Lemma load_prepare_ok env first last roidim roictr split w ix N sl w' :
  load_prepare env first last roidim roictr split w = (Ok (ix, N, sl), w') →
  ∃ lst fs,
    resolve_last (self w) last = Ok lst ∧ N = lst - first ∧ 0 < N
    ∧ choose_indices env first lst split w = (Ok (ix, fs), w)
    ∧ trace w' = trace w
    ∧ indices (self w') = Some ix ∧ Nframes (self w') = Some N
    ∧ frame_slice (self w') = Some fs
    ∧ scan_info (self w') = scan_info (self w)
    ∧ loader (self w') = loader (self w)
    ∧ source (self w') = source (self w).
Proof.
  intros H. unfold load_prepare in H.
  apply bind_ok in H as (d & w0 & H0 & H). apply getself_ok in H0 as [-> ->].
  apply bind_ok in H as (lst & w0 & Hl & H).
  assert (resolve_last (self w) last = Ok lst ∧ w0 = w) as [Hlst ->].
  { unfold resolve_last. destruct last as [l |].
    - apply mret_ok in Hl as [-> ->]. done.
    - inv_ok Hl. rewrite Hm. simpl. done. }
  destruct roidim as [rd |]; inv_ok H.
  all: match goal with
       | Hc : choose_indices _ _ _ _ _ = (Ok (?l, ?o), ?w1) |- _ =>
           pose proof (choose_indices_ok _ _ _ _ _ _ _ _ Hc) as [-> _];
           exists lst, o
       end.
  all: apply Z.ltb_lt in Hm.
  - inversion H; subst. by repeat split.
  - destruct (length (tail _) =? 2)%nat; inv_ok Hm4.
    inversion H; subst. by repeat split.
Qed.

Lemma load_ok env first last roidim roictr split w w' :
  load env first last roidim roictr split w = (Ok (), w') →
  ∃ ix N sl w1 w2,
    load_prepare env first last roidim roictr split w = (Ok (ix, N, sl), w1)
    ∧ load_read env sl w1 = (Ok (), w2)
    ∧ load_populate N ix w2 = (Ok (), w').
Proof.
  intros H. unfold load in H.
  apply bind_ok in H as ([[ix N] sl] & w1 & H1 & H).
  apply bind_ok in H as ([] & w2 & H2 & H). eauto 10.
Qed.

(** Whatever the frame numbers, the loop keeps the arrays, the trace and
    the lengths of the lists. *)
Lemma for_each_populate_frame kis : ∀ w w' dl ml fll dkl,
  for_each kis populate_step w = (Ok (), w') →
  datalist (self w) = Some dl → masklist (self w) = Some ml →
  flatlist (self w) = Some fll → darklist (self w) = Some dkl →
  same_arrays (self w) (self w') ∧ trace w' = trace w
  ∧ ∃ dl' ml' fll' dkl',
      datalist (self w') = Some dl' ∧ masklist (self w') = Some ml'
      ∧ flatlist (self w') = Some fll' ∧ darklist (self w') = Some dkl'
      ∧ length dl' = length dl ∧ length ml' = length ml
      ∧ length fll' = length fll ∧ length dkl' = length dkl.
Proof.
  induction kis as [| [k i] kis IH]; intros w w' dl ml fll dkl Hrun Hdl Hml Hfll Hdkl.
  - simpl in Hrun. apply mret_ok in Hrun as [_ ->].
    split; [apply same_arrays_refl |]. split; [done |].
    exists dl, ml, fll, dkl. by repeat split.
  - simpl in Hrun. apply bind_ok in Hrun as ([] & w1 & Hstep & Hrest).
    apply populate_step_ok in Hstep
      as (dat & fr & msk & mk & fl & dk & dl0 & ml0 & fll0 & dkl0
          & n1 & n2 & n3 & n4 & Hdat & Hfr & Hmsk & Hmk & Hfl & Hdk
          & Hdl0 & Hn1 & Hml0 & Hn2 & Hfll0 & Hn3 & Hdkl0 & Hn4 & ->).
    rewrite Hdl in Hdl0. rewrite Hml in Hml0. rewrite Hfll in Hfll0.
    rewrite Hdkl in Hdkl0. inversion Hdl0; inversion Hml0; inversion Hfll0;
      inversion Hdkl0; subst dl0 ml0 fll0 dkl0.
    destruct (IH _ _ _ _ _ _ Hrest eq_refl eq_refl eq_refl eq_refl)
      as (Hsame & Htr & dl' & ml' & fll' & dkl' & ? & ? & ? & ?
          & Ll1 & Ll2 & Ll3 & Ll4).
    rewrite length_insert in Ll1, Ll2, Ll3, Ll4.
    split; [exact Hsame |]. split; [exact Htr |].
    exists dl', ml', fll', dkl'. by repeat split.
Qed.

(** The second half of [load]; the slots are described for distinct frame
    numbers that are not negative. *)
Lemma load_populate_ok N ix w w' :
  load_populate N ix w = (Ok (), w') →
  same_arrays (self w) (self w') ∧ trace w' = trace w
  ∧ ∃ dl ml fll dkl,
      datalist (self w') = Some dl ∧ masklist (self w') = Some ml
      ∧ flatlist (self w') = Some fll ∧ darklist (self w') = Some dkl
      ∧ length dl = Z.to_nat N ∧ length ml = Z.to_nat N
      ∧ length fll = Z.to_nat N ∧ length dkl = Z.to_nat N
      ∧ (NoDup ix → Forall (λ i, 0 ≤ i) ix →
         (∀ j, (j < Z.to_nat N)%nat → Z.of_nat j ∉ ix →
              dl !! j = Some None ∧ ml !! j = Some None
              ∧ fll !! j = Some None ∧ dkl !! j = Some None)
         ∧ (∀ k i, ix !! k = Some i →
              ∃ dat fr msk mk fl dk,
                data (self w) = Some dat ∧ frame_of dat (Z.of_nat k) = Ok fr
                ∧ mask (self w) = Some msk ∧ mask_of msk (Z.of_nat k) = Ok mk
                ∧ flat (self w) = Some fl ∧ dark (self w) = Some dk
                ∧ dl !! Z.to_nat i = Some (Some fr)
                ∧ ml !! Z.to_nat i = Some (Some mk)
                ∧ fll !! Z.to_nat i = Some fl
                ∧ dkl !! Z.to_nat i = Some dk)).
Proof.
  intros H. unfold load_populate in H.
  apply bind_ok in H as ([] & w1 & H1 & H). apply modify_ok in H1. subst w1.
  apply bind_ok in H as ([] & w2 & H2 & H). apply modify_ok in H2. subst w2.
  apply bind_ok in H as ([] & w3 & H3 & H). apply modify_ok in H3. subst w3.
  apply bind_ok in H as ([] & w4 & H4 & H). apply modify_ok in H4. subst w4.
  simpl in H.
  destruct (for_each_populate_frame _ _ _ _ _ _ _ H eq_refl eq_refl eq_refl eq_refl)
    as (Hsame & Htr & dl & ml & fll & dkl & Hdl & Hml & Hfll & Hdkl
        & L1 & L2 & L3 & L4).
  rewrite length_replicate in L1, L2, L3, L4.
  split; [exact Hsame |]. split; [exact Htr |].
  exists dl, ml, fll, dkl. repeat (split; [assumption |]).
  intros Hnd Hpos.
  assert (NoDup (map snd (enumerate ix))) as Hnd'
    by (by rewrite enumerate_snd).
  assert (Forall (λ ki : Z * Z, 0 ≤ ki.2) (enumerate ix)) as Hpos'.
  { apply Forall_forall. intros [k i] Hin. rewrite Forall_forall in Hpos.
    apply Hpos. rewrite <- (enumerate_snd ix).
    by apply (list_elem_of_fmap_2 snd _ (k, i)). }
  destruct (for_each_populate _ _ _ _ _ _ _ H Hnd' Hpos'
              eq_refl eq_refl eq_refl eq_refl)
    as (dl' & ml' & fll' & dkl' & Hdl' & Hml' & Hfll' & Hdkl'
        & _ & _ & _ & _ & _ & _ & Hkeep & Hset).
  rewrite Hdl in Hdl'. rewrite Hml in Hml'. rewrite Hfll in Hfll'.
  rewrite Hdkl in Hdkl'. inversion Hdl'; inversion Hml'; inversion Hfll';
    inversion Hdkl'; subst dl' ml' fll' dkl'.
  rewrite enumerate_snd in Hkeep. split.
  - intros j Hj Hfree. destruct (Hkeep j Hfree) as (-> & -> & -> & ->).
    rewrite !lookup_replicate_2 by lia. done.
  - intros k i Hki. apply enumerate_lookup in Hki.
    destruct (Hset _ _ Hki)
      as (dat & fr & msk & mk & fl & dk & H1 & H2 & H3 & H4 & H5 & H6 & H7).
    simpl in H1, H3, H5, H6.
    exists dat, fr, msk, mk, fl, dk. by repeat (split; [assumption |]).
Qed.

(** *** The two directions of C4 *)

Lemma not_contiguous_0_2 : ¬ contiguous [0; 2].
Proof.
  intros (a & b & Hab & H).
  assert (length (py_range a (b + 1)) = 2%nat) as Hlen by (by rewrite <- H).
  rewrite py_range_length in Hlen. unfold py_range in H. rewrite Hlen in H.
  simpl in H. inversion H. lia.
Qed.

(** C4: in automatic-partition mode a [load] that succeeds has been given
    a run of consecutive frame numbers [a, ..., b], which it keeps as
    [indices] and reads with the one slice [a : b+1]; when the list the
    load manager assigns to this process is not such a run, [load] raises
    and leaves the object and the trace as they were: nothing has been
    read from the store. *)
Theorem load_requires_contiguous (env : Env) (first : Z) (last : option Z)
    (roidim roictr : option (list Z)) (w : world) :
  (∀ w', load env first last roidim roictr AutoPartition w = (Ok (), w') →
     ∃ a b, a ≤ b ∧ indices (self w') = Some (py_range a (b + 1))
       ∧ frame_slice (self w')
         = Some (Some (mkSlice (Some a) (Some (b + 1)))))
  ∧ (∀ lst lbl ix,
       resolve_last (self w) last = Ok lst →
       param_attr (scan_info (self w)) "scan_label" = Ok lbl →
       assign env (map (λ i, (lbl, i)) (py_range first lst)) = Ok ix →
       ¬ contiguous ix →
       ∃ e, load env first last roidim roictr AutoPartition w = (Raise e, w)).
Proof.
  split.
  - intros w' H.
    apply load_ok in H as (ix & N & sl & w1 & w2 & Hprep & Hread & Hpop).
    apply load_prepare_ok in Hprep
      as (lst & fs & _ & _ & _ & Hch & _ & Hix & _ & Hfs & _).
    apply choose_indices_ok in Hch as [_ (a & b & lbl & Hab & -> & -> & _)].
    apply load_read_ok in Hread as (? & ? & ? & ? & _ & _ & _ & _ & Hw2).
    apply load_populate_ok in Hpop as [Hsame _].
    destruct Hsame as (_ & _ & _ & _ & Hi & _ & Hf & _).
    exists a, b. split; [done |]. rewrite Hi, Hf, Hw2. simpl. by rewrite Hix, Hfs.
  - intros lst lbl ix Hl. by apply load_rejects_gaps.
Qed.

(** A load manager that assigns the frames 0 and 2 to this process makes
    [load] fail before the store is asked for anything. *)
Lemma load_requires_contiguous_witness :
  (∃ e, load gappy 0 None None None AutoPartition (mkWorld (scan_of store_b) [])
        = (Raise e, mkWorld (scan_of store_b) []))
  ∧ (load gappy 0 None None None AutoPartition (mkWorld (scan_of store_b) [])).1
    = Raise AssertionError.
Proof.
  split; [| vm_compute; reflexivity].
  apply (proj2 (load_requires_contiguous gappy 0 None None None
                  (mkWorld (scan_of store_b) []))
           2 (PStr "Scan%(idx)02d") [0; 2]).
  - vm_compute. reflexivity.
  - vm_compute. reflexivity.
  - reflexivity.
  - exact not_contiguous_0_2.
Defined.

(** ** C5: the per-frame views *)

Lemma nd_item_ndim a k fr : nd_item a k = Ok fr → ndim a = S (ndim fr).
Proof.
  unfold nd_item, ndim. destruct (shape a) as [| n sh]; [done |].
  destruct (norm_index n k); [| done]. simpl. intros H. by inversion H.
Qed.

(** The per-frame lists after a successful [load] of the frames
    [first, last): the four lists have length [last - first].  For frame
    numbers that are distinct and not negative, the slot of the [k]-th
    owned number [i] holds: in [datalist] the sub-array [data[k]], of one
    dimension less than [data]; in [masklist] the mask itself when it has
    two dimensions and [mask[k]] otherwise; in [flatlist] and [darklist]
    the whole loaded [flat] and [dark] (Absent when the store has none),
    whatever their dimension.  Every other slot is Absent. *)
Lemma load_fills_views (env : Env) (first : Z) (last : option Z)
    (roidim roictr : option (list Z)) (split : partition) (w w' : world) :
  load env first last roidim roictr split w = (Ok (), w') →
  ∃ lst N ix dat msk fl dk dl ml fll dkl,
    resolve_last (self w) last = Ok lst ∧ N = lst - first ∧ 0 < N
    ∧ indices (self w') = Some ix
    ∧ data (self w') = Some dat ∧ mask (self w') = Some msk
    ∧ flat (self w') = Some fl ∧ dark (self w') = Some dk
    ∧ datalist (self w') = Some dl ∧ masklist (self w') = Some ml
    ∧ flatlist (self w') = Some fll ∧ darklist (self w') = Some dkl
    ∧ length dl = Z.to_nat N ∧ length ml = Z.to_nat N
    ∧ length fll = Z.to_nat N ∧ length dkl = Z.to_nat N
    ∧ (NoDup ix → Forall (λ i, 0 ≤ i) ix →
       (∀ k i, ix !! k = Some i →
          (∃ a fr, dat = Some a ∧ nd_item a (Z.of_nat k) = Ok fr
             ∧ ndim a = S (ndim fr)
             ∧ dl !! Z.to_nat i = Some (Some fr))
          ∧ (∃ m mk, msk = Some m ∧ ml !! Z.to_nat i = Some (Some mk)
               ∧ ((ndim m = 2%nat ∧ mk = m)
                  ∨ (ndim m ≠ 2%nat ∧ nd_item m (Z.of_nat k) = Ok mk)))
          ∧ fll !! Z.to_nat i = Some fl
          ∧ dkl !! Z.to_nat i = Some dk)
       ∧ (∀ j, (j < Z.to_nat N)%nat → Z.of_nat j ∉ ix →
            dl !! j = Some None ∧ ml !! j = Some None
            ∧ fll !! j = Some None ∧ dkl !! j = Some None)).
Proof.
  intros H.
  apply load_ok in H as (ix & N & sl & w1 & w2 & Hprep & Hread & Hpop).
  apply load_prepare_ok in Hprep
    as (lst & fs & Hlst & HN & Hpos & _ & _ & Hix & _ & _ & _).
  apply load_read_ok in Hread as (a & m & dk & fl & _ & _ & _ & _ & Hw2).
  apply load_populate_ok in Hpop
    as (Hsame & _ & dl & ml & fll & dkl & Hdl & Hml & Hfll & Hdkl
        & L1 & L2 & L3 & L4 & Hslots).
  destruct Hsame as (Hd & Hm & Hf & Hk & Hi & _).
  rewrite Hw2 in Hd, Hm, Hf, Hk, Hi. simpl in Hd, Hm, Hf, Hk, Hi.
  exists lst, N, ix, a, m, fl, dk, dl, ml, fll, dkl.
  repeat (split; [first [assumption | congruence] |]).
  intros Hnd Hnn. destruct (Hslots Hnd Hnn) as [Hfree Hset]. split; [| exact Hfree].
  intros k i Hki.
  destruct (Hset k i Hki)
    as (dat' & fr & msk' & mk & fl' & dk' & H1 & H2 & H3 & H4 & H5 & H6
        & S1 & S2 & S3 & S4).
  rewrite Hw2 in H1, H3, H5, H6. simpl in H1, H3, H5, H6.
  inversion H1; inversion H3; inversion H5; inversion H6; subst dat' msk' fl' dk'.
  split; [| split; [| by split]].
  - destruct a as [a |]; [| done]. simpl in H2.
    exists a, fr. repeat split; try done. by eapply nd_item_ndim.
  - destruct m as [m |]; [| done]. simpl in H4.
    exists m, mk. repeat split; try done.
    destruct (ndim m =? 2)%nat eqn:E.
    + left. apply Nat.eqb_eq in E. split; [done |]. by inversion H4.
    + right. apply Nat.eqb_neq in E. done.
Qed.

(** The store [store_b], all frames: two slots in each list. *)
Lemma load_fills_views_witness :
  ∃ dl, datalist (self (load single_process 0 None None None AllFrames
                          (mkWorld (scan_of store_b) [])).2) = Some dl
        ∧ length dl = 2%nat.
Proof.
  destruct (load_fills_views single_process 0 None None None AllFrames
              (mkWorld (scan_of store_b) [])
              (load single_process 0 None None None AllFrames
                 (mkWorld (scan_of store_b) [])).2)
    as (lst & N & ix & dat & msk & fl & dk & dl & ml & fll & dkl
        & Hlst & HN & _ & _ & _ & _ & _ & _ & Hdl & _ & _ & _ & L & _).
  - vm_compute. reflexivity.
  - exists dl. split; [exact Hdl |].
    rewrite L, HN. vm_compute in Hlst. inversion Hlst. reflexivity.
Defined.

(** C5, on the code: the per-frame lists get their length, their frames
    of [data] and their masks as claimed, but [flatlist] and [darklist]
    do not get per-frame slices.  Every turn of the loop stores the whole
    of [self.flat] and of [self.dark] in the slot, whatever their
    dimension; the test on the dimension is written only for the mask, and
    stands in a comment for the two others.  [store_a] holds a flat of three
    dimensions, one frame per data frame: after [load] both slots of
    [flatlist] hold the whole 3-d array, not [flat[0]] and [flat[1]], next
    to 2-d frames in [datalist].  A mask of three dimensions, in
    [store_mask3], is cut per frame. *)
Theorem load_flat_not_sliced :
  (∀ k i w w',
     populate_step (k, i) w = (Ok (), w') →
     ∃ fl dk fll dkl n m,
       flat (self w) = Some fl ∧ dark (self w) = Some dk
       ∧ flatlist (self w) = Some fll ∧ darklist (self w) = Some dkl
       ∧ norm_index (length fll) i = Ok n ∧ norm_index (length dkl) i = Ok m
       ∧ flatlist (self w') = Some (<[n := fl]> fll)
       ∧ darklist (self w') = Some (<[m := dk]> dkl))
  ∧ (run (load single_process 0 None None None AllFrames) (scan_of store_a) []).1.1
    = Ok ()
  ∧ flat (run (load single_process 0 None None None AllFrames)
            (scan_of store_a) []).1.2 = Some (Some flat3)
  ∧ ndim flat3 = 3%nat
  ∧ flatlist (run (load single_process 0 None None None AllFrames)
                (scan_of store_a) []).1.2 = Some [Some flat3; Some flat3]
  ∧ nd_item flat3 0 = Ok (mkArr [2; 2]%nat [9; 9; 9; 9])
  ∧ nd_item flat3 1 = Ok (mkArr [2; 2]%nat [7; 7; 7; 7])
  ∧ datalist (run (load single_process 0 None None None AllFrames)
                (scan_of store_a) []).1.2
    = Some [Some (mkArr [2; 2]%nat [1; 2; 3; 4]);
            Some (mkArr [2; 2]%nat [5; 6; 7; 8])]
  ∧ masklist (run (load single_process 0 None None None AllFrames)
                (scan_of store_a) []).1.2 = Some [Some mask2; Some mask2]
  ∧ darklist (run (load single_process 0 None None None AllFrames)
                (scan_of store_a) []).1.2 = Some [None; None]
  ∧ masklist (run (load single_process 0 None None None AllFrames)
                (scan_of store_mask3) []).1.2
    = Some [Some (mkArr [2; 2]%nat [9; 9; 9; 9]);
            Some (mkArr [2; 2]%nat [7; 7; 7; 7])].
Proof.
  split; [| vm_compute; repeat split; reflexivity].
  intros k i w w' H.
  apply populate_step_ok in H
    as (dat & fr & msk & mk & fl & dk & dl & ml & fll & dkl & n1 & n2 & n3 & n4
        & _ & _ & _ & _ & Hfl & Hdk & _ & _ & _ & _ & Hfll & Hn3 & Hdkl & Hn4 & ->).
  exists fl, dk, fll, dkl, n3, n4. by repeat split.
Qed.

(** ** C6: saving what was never loaded *)

Lemma set_source_keeps_data env src w :
  data (self (set_source env src w).2) = data (self w).
Proof.
  unfold set_source, set_label_from_info, modify, getself, lift, raise,
    mbind, M_bind.
  destruct src as [| path | info arrays]; simpl; [done | | done].
  destruct (endswith path ".h5" || endswith path ".ptyd"); [| done].
  by destruct (h5info env path).
Qed.

(** [unload_data] deletes [data] or, when it raises before, leaves it. *)
Lemma unload_data_data w :
  data (self (unload_data w).2) = None
  ∨ data (self (unload_data w).2) = data (self w).
Proof.
  unfold unload_data, del, getattr, modify, getself, raise, mbind, M_bind, mret,
    M_ret. simpl.
  destruct (datalist (self w)) eqn:E1; simpl; [| by right].
  destruct (masklist (self w)) eqn:E2; simpl; [| by right].
  destruct (darklist (self w)) eqn:E3; simpl; [| by right].
  destruct (flatlist (self w)) eqn:E4; simpl; [| by right].
  destruct (data (self w)) eqn:E5; simpl; [| right; by rewrite E5].
  destruct (mask (self w)) eqn:E6; simpl; [| by left].
  destruct (dark (self w)) eqn:E7; simpl; [| by left].
  destruct (flat (self w)) eqn:E8; simpl; by left.
Qed.

(** Without frames [save] raises at once: on a deleted [data] by its own
    check, on [data = None] when it asks for [len(self.data)]. *)
Lemma save_no_data env filename force_overwrite w :
  (data (self w) = None →
   save env filename force_overwrite w
   = (Raise (RuntimeError
        "Attempting to save DataScan instance that does not contain data."), w))
  ∧ (data (self w) = Some None →
     save env filename force_overwrite w = (Raise TypeError, w)).
Proof.
  unfold save, getattr, getself, lift, raise, mbind, M_bind, mret, M_ret.
  split; intros H; simpl; repeat (rewrite H; simpl); reflexivity.
Qed.

Lemma DataScan_init_data env pars src snk d :
  DataScan_init env pars src snk = Ok d → data d = Some None.
Proof.
  unfold DataScan_init. intros Hinit.
  pose proof (set_source_keeps_data env src (mkWorld (blank pars src snk) [])) as Hk.
  destruct (set_source env src _) as [[u | e] w']; [| done].
  inversion Hinit; subst. exact Hk.
Qed.

Lemma never_loaded_data env d :
  never_loaded env d → data d = None ∨ data d = Some None.
Proof.
  induction 1 as [pars src snk d Hinit | d src tr _ IH | d tr _ IH
                  | d fn fo tr _ IH].
  - right. unfold DataScan_init in Hinit.
    pose proof (set_source_keeps_data env src (mkWorld (blank pars src snk) [])) as Hk.
    destruct (set_source env src _) as [[u | e] w']; [| done].
    inversion Hinit; subst. exact Hk.
  - by rewrite set_source_keeps_data.
  - destruct (unload_data_data (mkWorld d tr)) as [-> | ->]; [by left | exact IH].
  - destruct (save_no_data env fn fo (mkWorld d tr)) as [H1 H2].
    destruct IH as [Hd | Hd]; [rewrite (H1 Hd) | rewrite (H2 Hd)]; simpl; auto.
Qed.

(** C6 (as amended): an object on which [load] was never run and in
    which nothing was stored from outside cannot be saved: [save] raises
    and leaves the object and the outside world as they were, so nothing
    is written.  Which error is raised goes with the state of [data]: the
    [RuntimeError] of the check at the head of [save] when the attribute
    is not there, the [TypeError] of [len(self.data)] when it is [None],
    as it is on an object just constructed. *)
Theorem save_without_data (env : Env) (d : DataScan) (filename : option string)
    (force_overwrite : option bool) (tr : list event) :
  never_loaded env d →
  ∃ e, save env filename force_overwrite (mkWorld d tr) = (Raise e, mkWorld d tr)
    ∧ ((data d = Some None ∧ e = TypeError)
       ∨ (data d = None
          ∧ e = RuntimeError
                  "Attempting to save DataScan instance that does not contain data."))
    ∧ (∀ pars src snk, DataScan_init env pars src snk = Ok d → e = TypeError).
Proof.
  intros H. apply never_loaded_data in H.
  destruct (save_no_data env filename force_overwrite (mkWorld d tr)) as [H1 H2].
  destruct H as [Hd | Hd].
  - eexists. split; [apply H1; exact Hd |]. split; [by right |].
    intros pars src snk Hinit. apply DataScan_init_data in Hinit. congruence.
  - eexists. split; [apply H2; exact Hd |]. split; [by left | done].
Qed.

(** A newly constructed scan, and the same after [unload_data]. *)
Lemma save_without_data_witness :
  save single_process None (Some true) (mkWorld scan222 [])
  = (Raise TypeError, mkWorld scan222 [])
  ∧ (save single_process None (Some true)
       (mkWorld (self (unload_data (mkWorld scan222 [])).2) [])).1
    = Raise (RuntimeError
               "Attempting to save DataScan instance that does not contain data.").
Proof.
  assert (DataScan_init single_process
            (Some (list_to_map [("shape", PTuple [2; 2; 2]);
                                ("data_filename", PStr "scan.h5")]))
            SrcNone SrcNone = Ok scan222) as Hinit by (vm_compute; reflexivity).
  destruct (save_without_data single_process scan222 None (Some true) []
              (nl_init single_process _ _ _ _ Hinit))
    as (e & Hsave & _ & Hnew).
  rewrite (Hnew _ _ _ Hinit) in Hsave.
  split; [exact Hsave | vm_compute; reflexivity].
Defined.

(** C6 as stated fails: [load] was never run on [attached], whose frames
    were stored in it from outside, and [save] writes it. *)
Lemma save_attached_data :
  indices attached = None ∧ Nframes attached = None
  ∧ save single_process None (Some true) (mkWorld attached [])
    = (Ok (),
       mkWorld attached
         [EvWarn "Save file exists but will be overwritten (force_overwrite is True)";
          EvWrite "scan.h5" (Some frames3) (Some mask2) None None
            (scan_info attached);
          EvBarrier]).
Proof. vm_compute. repeat split; reflexivity. Qed.

(** ** C7: the overwrite policy *)

(** C7, on the code: when the destination exists, [force_overwrite=True]
    logs a warning and goes on and [force_overwrite=False] raises; with
    [force_overwrite=None] the second branch is taken as well, since
    [not None] is true: [save] raises without asking anybody.  So it does
    for [loaded_b] and a file [scan.h5] that exists. *)
Theorem save_ask_never_asks :
  (∀ env fn w,
     overwrite_check env fn (Some true) w
     = (Ok (), mkWorld (self w)
                 (trace w ++ [EvWarn "Save file exists but will be overwritten (force_overwrite is True)"])))
  ∧ (∀ env fn w,
       overwrite_check env fn (Some false) w
       = (Raise (RuntimeError ("File " ++ fn ++ " exists! Operation cancelled.")), w))
  ∧ (∀ env fn w,
       overwrite_check env fn None w
       = (Raise (RuntimeError ("File " ++ fn ++ " exists! Operation cancelled.")), w))
  ∧ save single_process (Some "scan.h5") None (mkWorld loaded_b [])
    = (Raise (RuntimeError "File scan.h5 exists! Operation cancelled."),
       mkWorld loaded_b []).
Proof.
  split; [reflexivity |]. split; [reflexivity |]. split; [reflexivity |].
  vm_compute. reflexivity.
Qed.

(** ** C8: the chunked feed *)

(** C8, on the code: no [PseudoDynamicDataSource] can be constructed,
    since its [__init__] starts by looking up the name
    [DynamicDataSource], which the module does not bind; and were there
    one, the first step of its [feed_data] over any scan would raise,
    since it calls [DS.load_data()] and a [DataScan] has no such method.
    No window of frames is ever yielded. *)
Theorem pseudo_dynamic_unusable :
  (∀ env filelist unique_scan_labels patterns_per_call,
     PseudoDynamicDataSource_init env filelist unique_scan_labels
       patterns_per_call = Raise NameError)
  ∧ (∀ env w, call_method env "load_data" w = (Raise AttributeError, w))
  ∧ (∀ env f lbl rest,
       (pseudo_feed_from env f (lbl :: rest)).1
       = match PyDict.getitem (scans (base (pagg f))) lbl with
         | Some _ => Raise AttributeError
         | None => Raise KeyError
         end)
  ∧ res_map (λ s, (pseudo_feed_next single_process
                     (pseudo_feed_data (mkPseudo s 5 0 0) [])).1) two_scans
    = Ok (Raise AttributeError).
Proof.
  split; [reflexivity |]. split; [reflexivity |]. split.
  - intros env f lbl rest. unfold pseudo_feed_from, pseudo_on_scan.
    destruct (PyDict.getitem (scans (base (pagg f))) lbl); reflexivity.
  - vm_compute. reflexivity.
Qed.

(** ** C9: the whole-scan feed *)

(** C9, on the code: the scans are kept in a plain dictionary and fed in
    the order its hash table is walked in, not in the order they came.
    Two sources without labels of their own are named [Scan00] and
    [Scan01] in that order; their hashes put [Scan00] in slot 5 and
    [Scan01] in slot 4 of the table, so the feed loads and yields [Scan01]
    first, then [Scan00]; it ends with the flag cleared. *)
Theorem feed_data_order :
  interpolate single_process "Scan%(idx)02d" 0 = Ok "Scan00"
  ∧ interpolate single_process "Scan%(idx)02d" 1 = Ok "Scan01"
  ∧ Z.land (PyDict.string_hash "Scan00") 7 = 5
  ∧ Z.land (PyDict.string_hash "Scan01") 7 = 4
  ∧ res_map (λ s, source <$> PyDict.getitem (scans s) "Scan00") two_scans
    = Ok (Some store_b)
  ∧ res_map (λ s, source <$> PyDict.getitem (scans s) "Scan01") two_scans
    = Ok (Some store_a)
  ∧ res_map (λ s, PyDict.keys (scans s)) two_scans = Ok ["Scan01"; "Scan00"]
  ∧ res_map data_available two_scans = Ok true
  ∧ res_map (λ r, res_map batch_labels r.1) two_scans_fed
    = Ok (Ok [Some (PStr "Scan01"); Some (PStr "Scan00")])
  ∧ res_map (λ r, res_map (map (λ p, length (iterable p))) r.1) two_scans_fed
    = Ok (Ok [2; 2]%nat)
  ∧ res_map (λ r, (gen r.2, data_available (agg r.2))) two_scans_fed
    = Ok (GenDone, false).
Proof.
  repeat split; vm_compute; reflexivity.
Qed.

(** ** C10: the loader of an empty scan *)

Lemma chunk_Forall (P : Z → Prop) stride el p :
  Forall P el → Forall P (chunk stride el p).
Proof. intros H. unfold chunk. by apply Forall_take, Forall_drop. Qed.

Lemma flat_map_Forall {A} (P : Z → Prop) (f : A → list Z) (l : list A) :
  (∀ x, Forall P (f x)) → Forall P (flat_map f l).
Proof.
  intros H. induction l as [| x l IH]; simpl; [constructor |].
  apply Forall_app. split; [apply H | exact IH].
Qed.

(** Cropping picks elements of the array; it makes none. *)
Lemma crop_elems_Forall (P : Z → Prop) ss : ∀ sh el,
  Forall P el → Forall P (crop_elems ss sh el).
Proof.
  induction ss as [| s ss IH]; intros sh el H; [by destruct sh |].
  destruct sh as [| n sh]; [done |]. simpl.
  apply flat_map_Forall. intros p. apply IH. by apply chunk_Forall.
Qed.

Lemma nd_getitem_Forall (P : Z → Prop) a s a' :
  Forall P (elems a) → nd_getitem a s = Ok a' → Forall P (elems a').
Proof.
  intros H. destruct a as [sh el], s as [ss | ids ss]; simpl in *.
  - destruct (crop_shape ss sh); [| done]. intros E. inversion E; subst. simpl.
    by apply crop_elems_Forall.
  - destruct sh as [| n sh]; [done |]. destruct (crop_shape ss sh); [| done].
    destruct (res_mapM (norm_index n) ids) as [ps |]; [| done]. simpl.
    intros E. inversion E; subst. simpl.
    apply flat_map_Forall. intros p. apply crop_elems_Forall.
    by apply chunk_Forall.
Qed.

Lemma res_mapM_norm_index n ids e :
  res_mapM (norm_index n) ids = Raise e → e = IndexError.
Proof.
  induction ids as [| i ids IH]; simpl; [done |].
  unfold norm_index at 1.
  destruct ((0 <=? i) && (i <? Z.of_nat n)); simpl.
  - destruct (res_mapM (norm_index n) ids); simpl; [done |].
    intros H. inversion H; subst. by apply IH.
  - destruct ((- Z.of_nat n <=? i) && (i <? 0)); simpl.
    + destruct (res_mapM (norm_index n) ids); simpl; [done |].
      intros H. inversion H; subst. by apply IH.
    + intros H. by inversion H.
Qed.

(** Indexing an array fails with [IndexError] only. *)
Lemma nd_getitem_raises a s e : nd_getitem a s = Raise e → e = IndexError.
Proof.
  destruct a as [sh el], s as [ss | ids ss]; simpl.
  - destruct (crop_shape ss sh); [done |]. intros H. by inversion H.
  - destruct sh as [| n sh]; [intros H; by inversion H |].
    destruct (crop_shape ss sh); [| intros H; by inversion H].
    destruct (res_mapM (norm_index n) ids) as [ps |] eqn:E; simpl; [done |].
    intros H. inversion H; subst. by eapply res_mapM_norm_index.
Qed.

Lemma np_full_ok v shp :
  Forall (λ n, 0 ≤ n) shp →
  np_full v shp
  = Ok (mkArr (map Z.to_nat shp) (replicate (size_of (map Z.to_nat shp)) v)).
Proof.
  intros H. unfold np_full.
  assert (forallb (λ d, 0 <=? d) shp = true) as ->; [| done].
  apply forallb_forall. intros x Hx. apply Z.leb_le.
  rewrite Forall_forall in H. apply H. by apply list_elem_of_In.
Qed.

(** C10: a scan constructed without a source has a loader that knows
    every key.  With the declared shape [shp] (no dimension negative) it
    builds an array of that shape, of ones for the keys [flat] and [mask]
    and of zeros for any other key, [data] and [dark] among them; without
    a slice it returns this array, with a slice the array indexed by it.
    Whatever comes back holds only that one value, and a [KeyError] never
    comes back. *)
Theorem empty_loader_total (env : Env) (pars : option param) (snk : source_t)
    (d : DataScan) (key : string) (shp : list Z) :
  DataScan_init env pars SrcNone snk = Ok d →
  si_shape (scan_info d) = Ok shp →
  Forall (λ n, 0 ≤ n) shp →
  ∃ v buf,
    v = (if bool_decide (key = "flat" ∨ key = "mask") then 1 else 0)
    ∧ buf = mkArr (map Z.to_nat shp) (replicate (size_of (map Z.to_nat shp)) v)
    ∧ well_formed buf
    ∧ run_loader env d key None = Ok buf
    ∧ (∀ s, run_loader env d key (Some s) = nd_getitem buf s)
    ∧ (∀ s a, run_loader env d key s = Ok a → Forall (λ x, x = v) (elems a))
    ∧ (∀ s, run_loader env d key s ≠ Raise KeyError).
Proof.
  intros Hinit Hshp Hpos.
  assert (loader d = LoaderEmpty) as Hl.
  { unfold DataScan_init in Hinit. simpl in Hinit. by inversion Hinit. }
  set (v := if bool_decide (key = "flat" ∨ key = "mask") then 1 else 0).
  set (buf := mkArr (map Z.to_nat shp) (replicate (size_of (map Z.to_nat shp)) v)).
  assert (∀ s, run_loader env d key s
               = match s with None => Ok buf | Some s => nd_getitem buf s end)
    as Hrun.
  { intros s. unfold run_loader. rewrite Hl, Hshp. simpl.
    assert ((if bool_decide (key ∈ ["flat"; "mask"]) then np_ones shp
             else np_zeros shp) = Ok buf) as ->; [| done].
    unfold np_ones, np_zeros, buf, v.
    destruct (bool_decide (key ∈ ["flat"; "mask"])) eqn:E1;
      destruct (bool_decide (key = "flat" ∨ key = "mask")) eqn:E2;
      try (by apply np_full_ok).
    - apply bool_decide_eq_true in E1. apply bool_decide_eq_false in E2.
      exfalso. apply E2.
      apply elem_of_cons in E1 as [-> | E1]; [by left |].
      apply elem_of_cons in E1 as [-> | E1]; [by right |].
      by apply elem_of_nil in E1.
    - apply bool_decide_eq_false in E1. apply bool_decide_eq_true in E2.
      exfalso. apply E1. destruct E2 as [-> | ->]; repeat constructor. }
  assert (Forall (λ x, x = v) (elems buf)) as Hall
    by (apply Forall_replicate; done).
  exists v, buf. split; [done |]. split; [done |].
  split; [unfold well_formed, buf; simpl; by rewrite length_replicate |].
  split; [apply (Hrun None) |]. split; [intros s; apply (Hrun (Some s)) |].
  split.
  - intros [s |] a; rewrite Hrun; intros H.
    + by eapply nd_getitem_Forall.
    + by inversion H.
  - intros [s |]; rewrite Hrun; [| done].
    intros H. by apply nd_getitem_raises in H.
Qed.

(** The empty scan of three 10x10 frames, asked for the second [mask]
    frame. *)
Lemma empty_loader_total_witness :
  ∃ a, run_loader single_process scan10 "mask"
         (Some (Picked [1] [slice_all; slice_all])) = Ok a
       ∧ shape a = [1; 10; 10]%nat
       ∧ Forall (λ x, x = 1) (elems a).
Proof.
  destruct (empty_loader_total single_process
              (Some (list_to_map [("shape", PTuple [3; 10; 10])])) SrcNone
              scan10 "mask" [3; 10; 10])
    as (v & buf & Hv & Hbuf & _ & _ & Hsl & Hall & _).
  - vm_compute. reflexivity.
  - vm_compute. reflexivity.
  - repeat constructor; lia.
  - destruct (run_loader single_process scan10 "mask"
                (Some (Picked [1] [slice_all; slice_all]))) as [a | e] eqn:E.
    + exists a. split; [reflexivity |]. split.
      * vm_compute in E. inversion E. reflexivity.
      * rewrite Hv in Hall. simpl in Hall. by apply (Hall _ _ E).
    + vm_compute in E. discriminate E.
Defined.

(** ** C3: the region of interest *)

(** Below 2^53 nothing is rounded. *)
Lemma round53_exact z : Z.abs z < 2 ^ 53 → round53 z = z.
Proof.
  intros H. unfold round53.
  destruct (Z.ltb_spec (Z.log2 (Z.abs z)) 53) as [| Hge]; [done |].
  exfalso. destruct (decide (Z.abs z = 0)) as [E | Hne].
  - rewrite E in Hge. simpl in Hge. lia.
  - apply Z.log2_lt_pow2 in H; lia.
Qed.

Lemma float_of_int_exact z : Z.abs z < 2 ^ 53 → float_of_int z = Ok z.
Proof.
  intros H. unfold float_of_int. rewrite round53_exact by exact H.
  assert (2 ^ 53 < 2 ^ 1024) by (apply Z.pow_lt_mono_r; lia).
  destruct (Z.ltb_spec (Z.abs z) (2 ^ 1024)); [done | lia].
Qed.

Lemma int_ceil_halves_exact h :
  Z.abs h < 2 ^ 53 → int_ceil_halves h = Ok ((h + 1) / 2).
Proof.
  intros H. unfold int_ceil_halves.
  assert (2 ^ 53 < 2 ^ 1025) by (apply Z.pow_lt_mono_r; lia).
  destruct (Z.ltb_spec (Z.abs h) (2 ^ 1025)); [done | lia].
Qed.

(** Where the doubles are exact the window runs from [ctr - dim div 2] to
    [ctr + (dim + 1) div 2]. *)
Lemma roi_axis_exact ctr dim :
  Z.abs (2 * ctr) + Z.abs dim < 2 ^ 53 →
  roi_axis ctr dim
  = Ok (mkSlice (Some (ctr - dim / 2)) (Some (ctr + (dim + 1) / 2))).
Proof.
  intros H. unfold roi_axis.
  rewrite (float_of_int_exact dim) by lia.
  rewrite (float_of_int_exact ctr) by lia. simpl.
  rewrite (round53_exact (2 * ctr - dim)) by lia.
  rewrite (round53_exact (2 * ctr + dim)) by lia.
  rewrite !int_ceil_halves_exact by lia. simpl.
  do 3 f_equal.
  - f_equal.
    pose proof (Z.div_mod dim 2 ltac:(lia)).
    pose proof (Z.mod_pos_bound dim 2 ltac:(lia)).
    pose proof (Z.div_mod (2 * ctr - dim + 1) 2 ltac:(lia)).
    pose proof (Z.mod_pos_bound (2 * ctr - dim + 1) 2 ltac:(lia)).
    lia.
  - pose proof (Z.div_mod (dim + 1) 2 ltac:(lia)).
    pose proof (Z.mod_pos_bound (dim + 1) 2 ltac:(lia)).
    pose proof (Z.div_mod (2 * ctr + dim + 1) 2 ltac:(lia)).
    pose proof (Z.mod_pos_bound (2 * ctr + dim + 1) 2 ltac:(lia)).
    lia.
Qed.

(** Beyond 2^53 they are not: the centre 2^53 + 1 is held as 2^53, and
    the window of size 2 around it comes out one pixel wide. *)
Lemma roi_axis_rounds :
  roi_axis (2 ^ 53 + 1) 2 = Ok (mkSlice (Some (2 ^ 53 - 1)) (Some (2 ^ 53))).
Proof. vm_compute. reflexivity. Qed.

Lemma Qceiling_centre_minus ctr dim :
  Qceiling (inject_Z ctr - inject_Z dim / 2) = ctr - dim / 2.
Proof.
  unfold Qceiling, Qfloor, Qminus, Qdiv, Qplus, Qopp, Qmult, Qinv, inject_Z.
  simpl. rewrite !Z.mul_1_r.
  change (Z.pos (1 * 2)) with 2. change (Z.pos (1 * (1 * 2))) with 2.
  replace (- (ctr * 2 + - dim)) with (dim + (- ctr) * 2) by lia.
  rewrite Z.div_add by lia. lia.
Qed.

Lemma Qceiling_centre_plus ctr dim :
  Qceiling (inject_Z ctr + inject_Z dim / 2) = ctr + (dim + 1) / 2.
Proof.
  unfold Qceiling, Qfloor, Qminus, Qdiv, Qplus, Qopp, Qmult, Qinv, inject_Z.
  simpl. rewrite !Z.mul_1_r.
  change (Z.pos (1 * 2)) with 2. change (Z.pos (1 * (1 * 2))) with 2.
  pose proof (Z.div_mod (dim + 1) 2 ltac:(lia)).
  pose proof (Z.mod_pos_bound (dim + 1) 2 ltac:(lia)).
  pose proof (Z.div_mod (- (ctr * 2 + dim)) 2 ltac:(lia)).
  pose proof (Z.mod_pos_bound (- (ctr * 2 + dim)) 2 ltac:(lia)).
  lia.
Qed.

Lemma roi_axis_ceiling ctr dim :
  Z.abs (2 * ctr) + Z.abs dim < 2 ^ 53 →
  ∃ a b, roi_axis ctr dim = Ok (mkSlice (Some a) (Some b))
    ∧ is_ceiling a (inject_Z ctr - inject_Z dim / 2)
    ∧ is_ceiling b (inject_Z ctr + inject_Z dim / 2)
    ∧ a = ctr - dim / 2 ∧ b = ctr + (dim + 1) / 2.
Proof.
  intros H. eexists _, _. split; [by apply roi_axis_exact |].
  split; [rewrite <- Qceiling_centre_minus;
          split; [apply Qceiling_lt | apply Qle_ceiling] |].
  split; [rewrite <- Qceiling_centre_plus;
          split; [apply Qceiling_lt | apply Qle_ceiling] |].
  done.
Qed.

(** What the first half of [load] makes of a region of interest. *)
Lemma load_prepare_roi env first last rd roictr split w ix N sl w' :
  load_prepare env first last (Some rd) roictr split w = (Ok (ix, N, sl), w') →
  ∃ shp dp dim ctr roislice,
    si_shape (scan_info (self w)) = Ok shp
    ∧ expect2 env (tail shp) = Ok dp
    ∧ expect2 env rd = Ok dim
    ∧ roi_centre env dp roictr = Ok ctr
    ∧ roi_slices ctr dim = Ok roislice
    ∧ slc_tail sl = Slices roislice.
Proof.
  intros H. unfold load_prepare in H. inv_ok H.
  match goal with
  | Hs : si_shape _ = Ok ?shp, Hd : expect2 _ (tail ?shp) = Ok ?dp,
    Hr : expect2 _ rd = Ok ?dim, Hc : roi_centre _ ?dp _ = Ok ?ctr,
    Hroi : roi_slices ?ctr ?dim = Ok ?rs |- _ =>
      exists shp, dp, dim, ctr, rs; repeat (split; [assumption |])
  end.
  inversion H; subst. by destruct o.
Qed.

(** The reads of one [probe]: all on the slice or on what is left of it,
    the first, when an array or Absent comes back, on the slice itself. *)
Lemma probe_trace env key s alt w r w' :
  probe env key s alt w = (r, w') →
  self w' = self w
  ∧ ∃ evs, trace w' = (trace w ++ evs)%list
      ∧ Forall (λ e, ∃ k j, e = EvLoad k (slc_drop j s)) evs
      ∧ (∀ a, r = Ok a → ∃ rest, evs = EvLoad key s :: rest).
Proof.
  rewrite probe_run. cbv zeta. intros H. inversion H; subst. clear H.
  split; [done |]. eexists. split; [done |]. split.
  - apply Forall_forall. intros e He.
    apply list_elem_of_fmap in He as ([k' s'] & -> & Hin).
    apply (probe_n_load_attempts (run_loader env (self w)) (recursion_limit env)
             key s alt) in Hin as [_ [j ->]].
    by exists k', j.
  - intros a Ha. destruct (recursion_limit env) as [| depth]; [discriminate Ha |].
    destruct (probe_n_load_first (run_loader env (self w)) depth key s alt)
      as [rest ->].
    by eexists.
Qed.

(** The reads of [load]: the first asks for [data] on the slice built. *)
Lemma load_read_trace env sl w w' :
  load_read env sl w = (Ok (), w') →
  ∃ evs, trace w' = (trace w ++ EvLoad "data" sl :: evs)%list
    ∧ Forall (λ e, ∃ k j, e = EvLoad k (slc_drop j sl)) evs.
Proof.
  intros H. unfold load_read in H.
  apply bind_ok in H as (a & w1 & H1 & H).
  apply probe_trace in H1 as (_ & e1 & T1 & F1 & First).
  destruct (First a eq_refl) as [rest ->]. apply Forall_cons in F1 as [_ F1].
  apply bind_ok in H as ([] & w2 & H2 & H). apply modify_ok in H2. subst w2.
  apply bind_ok in H as (m & w3 & H3 & H).
  apply probe_trace in H3 as (_ & e2 & T2 & F2 & _).
  apply bind_ok in H as ([] & w4 & H4 & H). apply modify_ok in H4. subst w4.
  apply bind_ok in H as (dk & w5 & H5 & H).
  apply probe_trace in H5 as (_ & e3 & T3 & F3 & _).
  apply bind_ok in H as ([] & w6 & H6 & H). apply modify_ok in H6. subst w6.
  apply bind_ok in H as (fl & w7 & H7 & H).
  apply probe_trace in H7 as (_ & e4 & T4 & F4 & _).
  apply modify_ok in H. subst w'. simpl in *.
  exists (rest ++ e2 ++ e3 ++ e4)%list. split.
  - rewrite T4, T3, T2, T1. by rewrite <- !app_assoc.
  - by repeat (apply Forall_app; split).
Qed.

(** C3 (as amended): a [load] that is asked for a region of interest of
    size [dim] and returns has taken the centre given, or the floor of half the frame
    size on each axis when none is given, and has asked the store for
    [data], and then for every other array, with a slice whose entries for
    the two image axes run from [ceil(centre - size/2)] to
    [ceil(centre + size/2)], which for integers is
    [centre - size div 2] to [centre + (size+1) div 2].  The code computes
    the two bounds in double precision; the statement is for centres and
    sizes with [|2 centre| + |size| < 2^53], where doubles hold them
    exactly.  Size (4,4) at centre (5,5) gives [3:7) on both axes, size
    (3,3) gives [4:7). *)
Theorem load_roi_window (env : Env) (first : Z) (last : option Z)
    (rd : list Z) (roictr : option (list Z)) (split : partition)
    (w w' : world) (shp : list Z) (dp dim ctr : Z * Z) :
  si_shape (scan_info (self w)) = Ok shp →
  expect2 env (tail shp) = Ok dp →
  expect2 env rd = Ok dim →
  roi_centre env dp roictr = Ok ctr →
  Z.abs (2 * ctr.1) + Z.abs dim.1 < 2 ^ 53 →
  Z.abs (2 * ctr.2) + Z.abs dim.2 < 2 ^ 53 →
  load env first last (Some rd) roictr split w = (Ok (), w') →
  match roictr with
  | None => ctr = (dp.1 / 2, dp.2 / 2)
  | Some c => expect2 env c = Ok ctr
  end
  ∧ (∃ sl evs a0 b0 a1 b1,
       trace w' = (trace w ++ EvLoad "data" sl :: evs)%list
       ∧ Forall (λ e, ∃ k j, e = EvLoad k (slc_drop j sl)) evs
       ∧ slc_tail sl
         = Slices [mkSlice (Some a0) (Some b0); mkSlice (Some a1) (Some b1)]
       ∧ is_ceiling a0 (inject_Z ctr.1 - inject_Z dim.1 / 2)
       ∧ is_ceiling b0 (inject_Z ctr.1 + inject_Z dim.1 / 2)
       ∧ is_ceiling a1 (inject_Z ctr.2 - inject_Z dim.2 / 2)
       ∧ is_ceiling b1 (inject_Z ctr.2 + inject_Z dim.2 / 2)
       ∧ a0 = ctr.1 - dim.1 / 2 ∧ b0 = ctr.1 + (dim.1 + 1) / 2
       ∧ a1 = ctr.2 - dim.2 / 2 ∧ b1 = ctr.2 + (dim.2 + 1) / 2)
  ∧ roi_slices (5, 5) (4, 4)
    = Ok [mkSlice (Some 3) (Some 7); mkSlice (Some 3) (Some 7)]
  ∧ roi_slices (5, 5) (3, 3)
    = Ok [mkSlice (Some 4) (Some 7); mkSlice (Some 4) (Some 7)].
Proof.
  intros Hshp Hdp Hdim Hctr B1 B2 H.
  split; [| split; [| split; reflexivity]].
  { destruct roictr; simpl in Hctr; [assumption | by inversion Hctr]. }
  apply load_ok in H as (ix & N & sl & w1 & w2 & Hprep & Hread & Hpop).
  pose proof (load_prepare_ok _ _ _ _ _ _ _ _ _ _ _ Hprep)
    as (_ & _ & _ & _ & _ & _ & Htr1 & _).
  apply load_prepare_roi in Hprep
    as (shp' & dp' & dim' & ctr' & rs & Hshp' & Hdp' & Hdim' & Hctr' & Hrs & Htl).
  rewrite Hshp in Hshp'. inversion Hshp'; subst shp'.
  rewrite Hdp in Hdp'. inversion Hdp'; subst dp'.
  rewrite Hdim in Hdim'. inversion Hdim'; subst dim'.
  rewrite Hctr in Hctr'. inversion Hctr'; subst ctr'.
  apply load_read_trace in Hread as (evs & Htr2 & Hall).
  apply load_populate_ok in Hpop as (_ & Htr3 & _).
  destruct (roi_axis_ceiling ctr.1 dim.1 B1) as (a0 & b0 & E0 & C0 & D0 & -> & ->).
  destruct (roi_axis_ceiling ctr.2 dim.2 B2) as (a1 & b1 & E1 & C1 & D1 & -> & ->).
  unfold roi_slices in Hrs. rewrite E0, E1 in Hrs. simpl in Hrs.
  inversion Hrs; subst rs.
  eexists sl, evs, _, _, _, _.
  split; [by rewrite Htr3, Htr2, Htr1 |]. split; [exact Hall |].
  split; [exact Htl |].
  split; [exact C0 |]. split; [exact D0 |].
  split; [exact C1 |]. split; [exact D1 |]. by repeat split.
Qed.

(** Three 10x10 frames, a region of 4x4 and no centre given: the centre
    is (5,5) and every array is asked for over [3:7) on both image axes. *)
Lemma load_roi_window_witness :
  trace (load single_process 0 None (Some [4; 4]) None AllFrames
           (mkWorld scan10 [])).2
  = [EvLoad "data" (Slices [slice_all; mkSlice (Some 3) (Some 7);
                            mkSlice (Some 3) (Some 7)]);
     EvLoad "mask" (Slices [slice_all; mkSlice (Some 3) (Some 7);
                            mkSlice (Some 3) (Some 7)]);
     EvLoad "dark" (Slices [slice_all; mkSlice (Some 3) (Some 7);
                            mkSlice (Some 3) (Some 7)]);
     EvLoad "flat" (Slices [slice_all; mkSlice (Some 3) (Some 7);
                            mkSlice (Some 3) (Some 7)])]
  ∧ ∃ sl evs,
      trace (load single_process 0 None (Some [4; 4]) None AllFrames
               (mkWorld scan10 [])).2 = EvLoad "data" sl :: evs
      ∧ slc_tail sl
        = Slices [mkSlice (Some 3) (Some 7); mkSlice (Some 3) (Some 7)].
Proof.
  split; [vm_compute; reflexivity |].
  destruct (load_roi_window single_process 0 None [4; 4] None AllFrames
              (mkWorld scan10 [])
              (load single_process 0 None (Some [4; 4]) None AllFrames
                 (mkWorld scan10 [])).2
              [3; 10; 10] (10, 10) (4, 4) (5, 5))
    as (_ & (sl & evs & a0 & b0 & a1 & b1 & Htr & _ & Htl & _ & _ & _ & _
             & -> & -> & -> & ->) & _).
  - vm_compute. reflexivity.
  - reflexivity.
  - reflexivity.
  - reflexivity.
  - vm_compute. reflexivity.
  - vm_compute. reflexivity.
  - vm_compute. reflexivity.
  - exists sl, evs. split; [exact Htr | exact Htl].
Defined.

(** C3 as stated fails beyond the range of exact doubles.  A region of
    size (2,2) centred at (2^53 + 1, 2^53 + 1) is asked of three 10x10
    frames: the centre is held as 2^53, [load] returns, and every array was
    asked for over [2^53 - 1 : 2^53) on both image axes, where the
    ceilings of [centre - size/2] and [centre + size/2] are 2^53 and
    2^53 + 2. *)
Lemma load_roi_window_rounds :
  (load single_process 0 None (Some [2; 2]) (Some [2 ^ 53 + 1; 2 ^ 53 + 1])
     AllFrames (mkWorld scan10 [])).1 = Ok ()
  ∧ trace (load single_process 0 None (Some [2; 2])
             (Some [2 ^ 53 + 1; 2 ^ 53 + 1]) AllFrames (mkWorld scan10 [])).2
    = [EvLoad "data" (Slices [slice_all; mkSlice (Some (2 ^ 53 - 1)) (Some (2 ^ 53));
                              mkSlice (Some (2 ^ 53 - 1)) (Some (2 ^ 53))]);
       EvLoad "mask" (Slices [slice_all; mkSlice (Some (2 ^ 53 - 1)) (Some (2 ^ 53));
                              mkSlice (Some (2 ^ 53 - 1)) (Some (2 ^ 53))]);
       EvLoad "dark" (Slices [slice_all; mkSlice (Some (2 ^ 53 - 1)) (Some (2 ^ 53));
                              mkSlice (Some (2 ^ 53 - 1)) (Some (2 ^ 53))]);
       EvLoad "flat" (Slices [slice_all; mkSlice (Some (2 ^ 53 - 1)) (Some (2 ^ 53));
                              mkSlice (Some (2 ^ 53 - 1)) (Some (2 ^ 53))])]
  ∧ Qceiling (inject_Z (2 ^ 53 + 1) - inject_Z 2 / 2) = 2 ^ 53
  ∧ Qceiling (inject_Z (2 ^ 53 + 1) + inject_Z 2 / 2) = 2 ^ 53 + 2
  ∧ is_ceiling (2 ^ 53) (inject_Z (2 ^ 53 + 1) - inject_Z 2 / 2)
  ∧ is_ceiling (2 ^ 53 + 2) (inject_Z (2 ^ 53 + 1) + inject_Z 2 / 2).
Proof.
  split; [vm_compute; reflexivity |]. split; [vm_compute; reflexivity |].
  split; [vm_compute; reflexivity |]. split; [vm_compute; reflexivity |].
  split.
  - change (2 ^ 53) with (Qceiling (inject_Z (2 ^ 53 + 1) - inject_Z 2 / 2)) at 1.
    split; [apply Qceiling_lt | apply Qle_ceiling].
  - change (2 ^ 53 + 2)
      with (Qceiling (inject_Z (2 ^ 53 + 1) + inject_Z 2 / 2)) at 1.
    split; [apply Qceiling_lt | apply Qle_ceiling].
Qed.

(** * Further properties of the code *)

(** ** [probe_n_load]: where its result comes from *)

(** An array that comes back was handed out by the loader at one of the
    attempts. *)
Lemma probe_n_load_from_loader (ld : string → option slc → res ndarray) depth :
  ∀ k s alt a,
    (probe_n_load ld depth (Some k) s alt).2 = Ok (Some a) →
    ∃ k' s', (k', s') ∈ (probe_n_load ld depth (Some k) s alt).1
             ∧ ld k' (Some s') = Ok a.
Proof.
  induction depth as [| depth IH]; intros k s alt a; [done |].
  simpl. destruct (ld k (Some s)) as [a' | e] eqn:E; simpl.
  - intros H. inversion H; subst. exists k, s. split; [apply list_elem_of_here | done].
  - destruct e; simpl; try done.
    + intros H. destruct (IH _ _ _ _ H) as (k' & s' & Hin & Hld).
      exists k', s'. split; [by apply list_elem_of_further | done].
    + intros H. destruct (IH _ _ _ _ H) as (k' & s' & Hin & Hld).
      exists k', s'. split; [by apply list_elem_of_further | done].
    + destruct alt as [ak |]; simpl; [| done].
      intros H. destruct (IH _ _ _ _ H) as (k' & s' & Hin & Hld).
      exists k', s'. split; [by apply list_elem_of_further | done].
Qed.

(** The three errors the [except] clauses catch never leave the call. *)
Lemma probe_n_load_catches (ld : string → option slc → res ndarray) depth :
  ∀ k s alt e,
    (probe_n_load ld depth k s alt).2 = Raise e →
    e ≠ IndexError ∧ e ≠ TypeError ∧ e ≠ KeyError.
Proof.
  induction depth as [| depth IH]; intros k s alt e.
  - simpl. intros H. inversion H. by repeat split.
  - simpl. destruct k as [k |]; [| done].
    destruct (ld k (Some s)) as [a' | e'] eqn:E; simpl; [done |].
    destruct e'; simpl; try (intros H; inversion H; by repeat split);
      try apply IH.
    destruct alt as [ak |]; simpl; [apply IH | done].
Qed.

(** X1: soundness of the frame loader.  Whatever array [probe_n_load]
    returns was returned by the store itself, for the key or the alternate
    key, on the slice asked for with some leading entries dropped; the
    store is asked at most [depth] times, never with another key or
    slice; and an [IndexError], [TypeError] or [KeyError] of the store
    never reaches the caller. *)
Theorem probe_n_load_sound (ld : string → option slc → res ndarray)
    (depth : nat) (k : string) (s : slc) (alt : option string) :
  (∀ a, (probe_n_load ld depth (Some k) s alt).2 = Ok (Some a) →
     ∃ k' j, (k' = k ∨ alt = Some k')
       ∧ (k', slc_drop j s) ∈ (probe_n_load ld depth (Some k) s alt).1
       ∧ ld k' (Some (slc_drop j s)) = Ok a)
  ∧ (∀ k' s', (k', s') ∈ (probe_n_load ld depth (Some k) s alt).1 →
       (k' = k ∨ alt = Some k') ∧ ∃ j, s' = slc_drop j s)
  ∧ (length (probe_n_load ld depth (Some k) s alt).1 ≤ depth)%nat
  ∧ (∀ e, (probe_n_load ld depth (Some k) s alt).2 = Raise e →
       e ≠ IndexError ∧ e ≠ TypeError ∧ e ≠ KeyError).
Proof.
  destruct (probe_n_load_attempts ld depth k s alt) as [Hlen Hin].
  split; [| split; [exact Hin | split; [exact Hlen | apply probe_n_load_catches]]].
  intros a H.
  destruct (probe_n_load_from_loader ld depth k s alt a H) as (k' & s' & Hmem & Hld).
  destruct (Hin _ _ Hmem) as [Hk [j ->]]. by exists k', j.
Qed.

(** ** [load]: what a successful load implies *)

Lemma norm_index_bounds n i k :
  norm_index n i = Ok k → - Z.of_nat n ≤ i < Z.of_nat n.
Proof.
  unfold norm_index.
  destruct ((0 <=? i) && (i <? Z.of_nat n)) eqn:E.
  - intros _. apply andb_true_iff in E as [E1 E2]. lia.
  - destruct ((- Z.of_nat n <=? i) && (i <? 0)) eqn:E'; [| done].
    intros _. apply andb_true_iff in E' as [E1 E2]. lia.
Qed.

(** Every frame number the loop gets through fits the length of the
    lists, counting from either end. *)
Lemma for_each_populate_bounds kis : ∀ w w' dl,
  for_each kis populate_step w = (Ok (), w') →
  datalist (self w) = Some dl →
  Forall (λ ki : Z * Z, - Z.of_nat (length dl) ≤ ki.2 < Z.of_nat (length dl)) kis.
Proof.
  induction kis as [| [k i] kis IH]; intros w w' dl Hrun Hdl; [constructor |].
  simpl in Hrun. apply bind_ok in Hrun as ([] & w1 & Hstep & Hrest).
  apply populate_step_ok in Hstep
    as (dat & fr & msk & mk & fl & dk & dl0 & ml0 & fll0 & dkl0
        & n1 & n2 & n3 & n4 & Hdat & Hfr & Hmsk & Hmk & Hfl & Hdk
        & Hdl0 & Hn1 & Hml0 & Hn2 & Hfll0 & Hn3 & Hdkl0 & Hn4 & ->).
  rewrite Hdl in Hdl0. inversion Hdl0; subst dl0.
  constructor; [by apply norm_index_bounds in Hn1 |].
  specialize (IH _ _ (<[n1 := Some fr]> dl) Hrest eq_refl).
  by rewrite length_insert in IH.
Qed.

(** The first turn of the loop needs frames and a mask. *)
Lemma for_each_populate_first ki kis w w' :
  for_each (ki :: kis) populate_step w = (Ok (), w') →
  ∃ a m fr, data (self w) = Some (Some a) ∧ mask (self w) = Some (Some m)
    ∧ nd_item a ki.1 = Ok fr.
Proof.
  intros Hrun. destruct ki as [k i].
  simpl in Hrun. apply bind_ok in Hrun as ([] & w1 & Hstep & _).
  apply populate_step_ok in Hstep
    as (dat & fr & msk & mk & _ & _ & _ & _ & _ & _ & _ & _ & _ & _
        & Hdat & Hfr & Hmsk & Hmk & _).
  destruct dat as [a |]; [| done]. destruct msk as [m |]; [| done].
  by exists a, m, fr.
Qed.

Lemma py_range_elem a b x : a ≤ x < b → x ∈ py_range a b.
Proof.
  intros H. unfold py_range. apply list_elem_of_fmap.
  exists (Z.to_nat (x - a)). split; [lia |].
  apply list_elem_of_In, in_seq. lia.
Qed.

(** What [load] leaves in the object when it returns. *)
Lemma load_ok_state env first last roidim roictr split w w' :
  load env first last roidim roictr split w = (Ok (), w') →
  ∃ ix N lst fs a m dk fl w2,
    resolve_last (self w) last = Ok lst ∧ N = lst - first ∧ 0 < N
    ∧ choose_indices env first lst split w = (Ok (ix, fs), w)
    ∧ indices (self w') = Some ix ∧ Nframes (self w') = Some N
    ∧ frame_slice (self w') = Some fs
    ∧ scan_info (self w') = scan_info (self w)
    ∧ data (self w') = Some a ∧ mask (self w') = Some m
    ∧ dark (self w') = Some dk ∧ flat (self w') = Some fl
    ∧ data (self w2) = Some a ∧ mask (self w2) = Some m
    ∧ load_populate N ix w2 = (Ok (), w').
Proof.
  intros H.
  apply load_ok in H as (ix & N & sl & w1 & w2 & Hprep & Hread & Hpop).
  apply load_prepare_ok in Hprep
    as (lst & fs & Hlst & HN & Hpos & Hch & _ & Hix & HNf & Hfs & Hsi & _).
  apply load_read_ok in Hread as (a & m & dk & fl & _ & _ & _ & _ & Hw2).
  pose proof Hpop as Hpop'.
  apply load_populate_ok in Hpop' as [Hsame _].
  destruct Hsame as (Hd & Hm & Hf & Hk & Hi & Hn & Hfsl & Hs & _).
  exists ix, N, lst, fs, a, m, dk, fl, w2.
  rewrite Hd, Hm, Hf, Hk, Hi, Hn, Hfsl, Hs, Hw2. simpl.
  repeat (split; [first [assumption | reflexivity] |]). exact Hpop.
Qed.

(** X2: a [load] that returns with at least one owned frame has found
    frames and a mask in the store: the loop over the owned frames indexes
    [self.data] and asks [self.mask] for its [ndim], so the Absent that
    [probe_n_load] returns for a missing [data], or for a missing [mask]
    and [fmask], stops [load] there. *)
Theorem load_needs_data_and_mask (env : Env) (first : Z) (last : option Z)
    (roidim roictr : option (list Z)) (split : partition) (w w' : world)
    (ix : list Z) :
  load env first last roidim roictr split w = (Ok (), w') →
  indices (self w') = Some ix →
  ix ≠ [] →
  ∃ a m, data (self w') = Some (Some a) ∧ mask (self w') = Some (Some m).
Proof.
  intros H Hix Hne.
  apply load_ok_state in H
    as (ix' & N & lst & fs & a & m & dk & fl & w2 & _ & _ & _ & _ & Hix'
        & _ & _ & _ & Hd & Hm & _ & _ & Hd2 & Hm2 & Hpop).
  rewrite Hix in Hix'. inversion Hix'; subst ix'.
  unfold load_populate in Hpop.
  apply bind_ok in Hpop as ([] & v1 & H1 & Hpop). apply modify_ok in H1. subst v1.
  apply bind_ok in Hpop as ([] & v2 & H2 & Hpop). apply modify_ok in H2. subst v2.
  apply bind_ok in Hpop as ([] & v3 & H3 & Hpop). apply modify_ok in H3. subst v3.
  apply bind_ok in Hpop as ([] & v4 & H4 & Hpop). apply modify_ok in H4. subst v4.
  destruct ix as [| i ix]; [done |].
  assert (∃ ki kis, enumerate (i :: ix) = ki :: kis) as (ki & kis & Hen)
    by (eexists _, _; reflexivity).
  rewrite Hen in Hpop.
  apply for_each_populate_first in Hpop as (a' & m' & fr & Ha & Hm' & _).
  simpl in Ha, Hm'. rewrite Hd2 in Ha. rewrite Hm2 in Hm'.
  inversion Ha; inversion Hm'; subst. by exists a', m'.
Qed.

(** [store_b] has both; a store with frames but no mask under either key
    makes [load] raise. *)
Lemma load_needs_data_and_mask_witness :
  (∃ a m, data (self (load single_process 0 None None None AllFrames
                        (mkWorld (scan_of store_b) [])).2) = Some (Some a)
          ∧ mask (self (load single_process 0 None None None AllFrames
                          (mkWorld (scan_of store_b) [])).2) = Some (Some m))
  ∧ (load single_process 0 None None None AllFrames
       (mkWorld (scan_of (SrcDict (Some info222)
                            (list_to_map [("data", frames3)]))) [])).1
    = Raise AttributeError.
Proof.
  split; [| vm_compute; reflexivity].
  apply (load_needs_data_and_mask single_process 0 None None None AllFrames
           (mkWorld (scan_of store_b) [])
           (load single_process 0 None None None AllFrames
              (mkWorld (scan_of store_b) [])).2 [0; 1]).
  - vm_compute. reflexivity.
  - vm_compute. reflexivity.
  - discriminate.
Defined.

(** X3: the per-frame lists have [N = last - first] slots but are indexed
    by the frame numbers themselves, so after a [load] that returns every
    owned frame number [i] has [-N <= i < N]; with [MPIsplit=False], where
    the owned numbers are [first, ..., last-1], this leaves [first <= 0]:
    a range that starts after frame 0 cannot be loaded. *)
Theorem load_indices_fit (env : Env) (first : Z) (last : option Z)
    (roidim roictr : option (list Z)) (split : partition) (w w' : world) :
  load env first last roidim roictr split w = (Ok (), w') →
  ∃ ix N,
    indices (self w') = Some ix ∧ Nframes (self w') = Some N ∧ 0 < N
    ∧ Forall (λ i, - N ≤ i < N) ix
    ∧ (split = AllFrames → - N ≤ first ≤ 0).
Proof.
  intros H.
  apply load_ok_state in H
    as (ix & N & lst & fs & a & m & dk & fl & w2 & _ & HN & Hpos & Hch & Hix
        & HNf & _ & _ & _ & _ & _ & _ & _ & _ & Hpop).
  exists ix, N. repeat (split; [assumption |]).
  assert (Forall (λ i, - N ≤ i < N) ix) as Hall.
  { unfold load_populate in Hpop.
    apply bind_ok in Hpop as ([] & v1 & H1 & Hpop). apply modify_ok in H1. subst v1.
    apply bind_ok in Hpop as ([] & v2 & H2 & Hpop). apply modify_ok in H2. subst v2.
    apply bind_ok in Hpop as ([] & v3 & H3 & Hpop). apply modify_ok in H3. subst v3.
    apply bind_ok in Hpop as ([] & v4 & H4 & Hpop). apply modify_ok in H4. subst v4.
    eapply for_each_populate_bounds in Hpop; [| reflexivity].
    rewrite length_replicate in Hpop. rewrite Z2Nat.id in Hpop by lia.
    rewrite <- (enumerate_snd ix). apply Forall_fmap.
    eapply Forall_impl; [exact Hpop |]. intros [k i] Hki. exact Hki. }
  split; [exact Hall |].
  intros ->. apply choose_indices_ok in Hch as [_ [-> _]].
  rewrite Forall_forall in Hall.
  assert (first ≤ first < lst) as H1 by lia.
  assert (first ≤ lst - 1 < lst) as H2 by lia.
  pose proof (Hall first (py_range_elem _ _ _ H1)).
  pose proof (Hall (lst - 1) (py_range_elem _ _ _ H2)). lia.
Qed.

(** [store_b], frames 0 and 1; the same store asked for frame 1 alone. *)
Lemma load_indices_fit_witness :
  (∃ ix N, indices (self (load single_process 0 None None None AllFrames
                            (mkWorld (scan_of store_b) [])).2) = Some ix
           ∧ Nframes (self (load single_process 0 None None None AllFrames
                              (mkWorld (scan_of store_b) [])).2) = Some N
           ∧ 0 < N ∧ Forall (λ i, - N ≤ i < N) ix
           ∧ (AllFrames = AllFrames → - N ≤ 0 ≤ 0))
  ∧ (load single_process 1 None None None AllFrames
       (mkWorld (scan_of store_b) [])).1 = Raise IndexError.
Proof.
  split; [| vm_compute; reflexivity].
  apply (load_indices_fit single_process 0 None None None AllFrames
           (mkWorld (scan_of store_b) [])
           (load single_process 0 None None None AllFrames
              (mkWorld (scan_of store_b) [])).2).
  vm_compute. reflexivity.
Defined.

(** ** [save]: when it fails, what it writes *)

Lemma save_mpi_raises (env : Env) (filename : option string)
    (force_overwrite : option bool) (w : world) :
  MPIenabled env = true →
  ∃ e, save env filename force_overwrite w = (Raise e, w).
Proof.
  intros Hmpi.
  destruct (save_no_data env filename force_overwrite w) as [H1 H2].
  destruct (data (self w)) as [[a |] |] eqn:Hd;
    [| eexists; by apply H2 | eexists; by apply H1].
  clear H1 H2.
  unfold save, getattr, getself, lift, raise, mbind, M_bind, mret, M_ret.
  simpl. rewrite Hd. simpl. rewrite ?Hd. simpl.
  destruct (nd_len a) as [n |]; simpl; [| by eexists].
  destruct (datalist (self w)) as [dl |]; simpl; [| by eexists].
  destruct (bool_decide (n ≠ length dl)); rewrite Hmpi; simpl; by eexists.
Qed.

(** X4: with MPI enabled [save] cannot succeed.  When the numbers of
    frames in [data] and [datalist] differ it raises the [RuntimeError]
    meant for that case; when they agree, the local [Nframes] that the
    gather loop counts to has never been bound.  Whatever the error, the
    object and the trace are left as they were: nothing is sent, received
    or written. *)
Theorem save_fails_with_mpi (env : Env) (filename : option string)
    (force_overwrite : option bool) (w : world) :
  MPIenabled env = true →
  ∃ e, save env filename force_overwrite w = (Raise e, w).
Proof. apply save_mpi_raises. Qed.

(** The environment [gappy] has MPI enabled. *)
Lemma save_fails_with_mpi_witness :
  (∃ e, save gappy None (Some true) (mkWorld attached [])
        = (Raise e, mkWorld attached []))
  ∧ (save gappy None (Some true) (mkWorld loaded_b [])).1 = Raise UnboundLocalError.
Proof.
  split; [| vm_compute; reflexivity].
  apply (save_fails_with_mpi gappy None (Some true) (mkWorld attached [])).
  reflexivity.
Defined.

(** What a [save] that returns has done. *)
Lemma save_ok_inv (env : Env) (filename : option string)
    (force_overwrite : option bool) (w w' : world) :
  save env filename force_overwrite w = (Ok (), w') →
  MPIenabled env = false ∧ self w' = self w
  ∧ ((0 < rank env)%nat → trace w' = (trace w ++ [EvBarrier])%list)
  ∧ (rank env = 0%nat →
     ∃ a msk fl dk target file,
       data (self w) = Some (Some a) ∧ mask (self w) = Some msk
       ∧ flat (self w) = Some fl ∧ dark (self w) = Some dk
       ∧ param_attr (scan_info (self w)) "shape"
         = Ok (PTuple (map Z.of_nat (shape a)))
       ∧ match filename with
         | Some f => target = PStr f
         | None => param_attr (scan_info (self w)) "data_filename" = Ok target
         end
       ∧ clean_path env target = Ok file
       ∧ (path_exists env file = true → force_overwrite = Some true)
       ∧ trace w'
         = (trace w
            ++ (if path_exists env file
                then [EvWarn "Save file exists but will be overwritten (force_overwrite is True)"]
                else [])
            ++ [EvWrite file (Some a) msk fl dk (scan_info (self w)); EvBarrier])%list).
Proof.
  intros H.
  destruct (MPIenabled env) eqn:Hmpi.
  { destruct (save_mpi_raises env filename force_overwrite w Hmpi) as [e He].
    rewrite He in H. discriminate H. }
  split; [done |].
  unfold save in H. rewrite Hmpi in H. cbv beta iota in H.
  inv_ok H.
  destruct (bool_decide (data (self w) = None)); inv_ok Hm.
  assert (
    (if (0 <? rank env)%nat then emit EvBarrier
     else
       '(dat, msk) ← (dat ← getattr data; msk ← getattr mask; mret (dat, msk));
       d ← getself;
       shp ← lift (match dat with
                   | None => Raise AttributeError
                   | Some a => Ok (map Z.of_nat (shape a))
                   end);
       declared ← lift (param_attr (scan_info d) "shape");
       (match declared with
        | PTuple l =>
            if bool_decide (shp = l) then mret ()
            else raise (RuntimeError
                   "Attempting to save DataScan instance with non-native data dimension ")
        | _ => raise (RuntimeError
                   "Attempting to save DataScan instance with non-native data dimension ")
        end);;
       fn ← match filename with
            | None => lift (param_attr (scan_info d) "data_filename")
            | Some f => mret (PStr f)
            end;
       fn ← lift (clean_path env fn);
       (if path_exists env fn then overwrite_check env fn force_overwrite
        else mret ());;
       fl ← getattr flat;
       dk ← getattr dark;
       emit (EvWrite fn dat msk fl dk (scan_info d));;
       emit EvBarrier) w = (Ok (), w')) as H'
    by (destruct (bool_decide (a1 ≠ length a2)); inv_ok Hm3; exact H).
  clear H. rename H' into H.
  destruct (0 <? rank env)%nat eqn:Hrk.
  { apply emit_ok in H as ->. simpl.
    split; [done |]. split; [done |].
    intros Hr. rewrite Hr in Hrk. discriminate Hrk. }
  clear Hm3.
  apply bind_ok in H as ([dat msk] & v & Hdm & H).
  apply bind_ok in Hdm as (dat' & v1 & Hdat & Hdm).
  apply getattr_ok in Hdat as [Hdat ->].
  apply bind_ok in Hdm as (msk' & v1 & Hmsk & Hdm).
  apply getattr_ok in Hmsk as [Hmsk ->].
  apply mret_ok in Hdm as [Heq ->]. inversion Heq; subst dat' msk'. clear Heq.
  apply bind_ok in H as (d & v & Hd & H). apply getself_ok in Hd as [-> ->].
  apply bind_ok in H as (shp & v & Hshp & H). apply lift_ok in Hshp as [Hshp ->].
  destruct dat as [a |]; [| discriminate Hshp]. inversion Hshp; subst shp. clear Hshp.
  apply bind_ok in H as (declared & v & Hdecl & H).
  apply lift_ok in Hdecl as [Hdecl ->].
  apply bind_ok in H as ([] & v & Hcmp & H).
  assert (declared = PTuple (map Z.of_nat (shape a)) ∧ v = w) as [-> ->].
  { destruct declared; try (unfold raise in Hcmp; discriminate Hcmp).
    destruct (bool_decide_reflect (map Z.of_nat (shape a) = l)) as [<- |];
      [| unfold raise in Hcmp; discriminate Hcmp].
    by apply mret_ok in Hcmp as [_ ->]. }
  clear Hcmp.
  apply bind_ok in H as (target & v & Htgt & H).
  assert (match filename with
          | Some f => target = PStr f
          | None => param_attr (scan_info (self w)) "data_filename" = Ok target
          end ∧ v = w) as [Htarget ->].
  { destruct filename.
    - by apply mret_ok in Htgt as [-> ->].
    - by apply lift_ok in Htgt as [-> ->]. }
  clear Htgt.
  apply bind_ok in H as (file & v & Hfile & H). apply lift_ok in Hfile as [Hfile ->].
  apply bind_ok in H as ([] & v & Hex & H).
  assert ((path_exists env file = true → force_overwrite = Some true)
          ∧ v = mkWorld (self w)
                  (trace w ++
                   (if path_exists env file
                    then [EvWarn "Save file exists but will be overwritten (force_overwrite is True)"]
                    else []))%list) as [Hforce ->].
  { destruct (path_exists env file).
    - unfold overwrite_check in Hex.
      destruct force_overwrite as [[|] |]; simpl in Hex;
        try (unfold raise in Hex; discriminate Hex).
      by apply emit_ok in Hex as ->.
    - apply mret_ok in Hex as [_ ->]. rewrite app_nil_r. by destruct w. }
  clear Hex.
  apply bind_ok in H as (fl & v & Hfl & H). apply getattr_ok in Hfl as [Hfl ->].
  apply bind_ok in H as (dk & v & Hdk & H). apply getattr_ok in Hdk as [Hdk ->].
  apply bind_ok in H as ([] & v & Hwr & H). apply emit_ok in Hwr as ->.
  apply emit_ok in H as ->. simpl in *.
  split; [done |]. split.
  { intros Hr. apply Nat.ltb_ge in Hrk. lia. }
  intros _. exists a, msk, fl, dk, target, file.
  repeat (split; [assumption |]).
  by rewrite <- !app_assoc.
Qed.

(** X5: what a [save] that returns has done.  MPI is off and the object is
    as it was.  A process of rank above 0 has only joined the barrier.  The
    process of rank 0 has written one file and then joined the barrier: the
    array written is [self.data], whose shape is the declared
    [scan_info.shape], with [self.mask], [self.flat], [self.dark] and the
    [scan_info]; the file is the cleaned [filename], or the cleaned
    [scan_info.data_filename] when none is given; and a file that was there
    already is overwritten, after one warning, only for a true
    [force_overwrite]. *)
Theorem save_writes_once (env : Env) (filename : option string)
    (force_overwrite : option bool) (w w' : world) :
  save env filename force_overwrite w = (Ok (), w') →
  MPIenabled env = false ∧ self w' = self w
  ∧ ((0 < rank env)%nat → trace w' = (trace w ++ [EvBarrier])%list)
  ∧ (rank env = 0%nat →
     ∃ a msk fl dk target file,
       data (self w) = Some (Some a) ∧ mask (self w) = Some msk
       ∧ flat (self w) = Some fl ∧ dark (self w) = Some dk
       ∧ param_attr (scan_info (self w)) "shape"
         = Ok (PTuple (map Z.of_nat (shape a)))
       ∧ match filename with
         | Some f => target = PStr f
         | None => param_attr (scan_info (self w)) "data_filename" = Ok target
         end
       ∧ clean_path env target = Ok file
       ∧ (path_exists env file = true → force_overwrite = Some true)
       ∧ trace w'
         = (trace w
            ++ (if path_exists env file
                then [EvWarn "Save file exists but will be overwritten (force_overwrite is True)"]
                else [])
            ++ [EvWrite file (Some a) msk fl dk (scan_info (self w)); EvBarrier])%list).
Proof. apply save_ok_inv. Qed.

(** The object [attached] saved under its own file name, which exists. *)
Lemma save_writes_once_witness :
  self (save single_process None (Some true) (mkWorld attached [])).2 = attached
  ∧ trace (save single_process None (Some true) (mkWorld attached [])).2
    = [EvWarn "Save file exists but will be overwritten (force_overwrite is True)";
       EvWrite "scan.h5" (Some frames3) (Some mask2) None None (scan_info attached);
       EvBarrier].
Proof.
  pose proof (save_writes_once single_process None (Some true)
                (mkWorld attached [])
                (save single_process None (Some true) (mkWorld attached [])).2
                ltac:(vm_compute; reflexivity)) as (_ & Hself & _ & Hw).
  split; [exact Hself |].
  destruct (Hw eq_refl) as (a & msk & fl & dk & target & file & Ha & Hm & Hf & Hd
                            & _ & Ht & Hc & _ & Htr).
  rewrite Htr. clear Htr Hw Hself.
  vm_compute in Ha, Hm, Hf, Hd, Ht.
  inversion Ha; inversion Hm; inversion Hf; inversion Hd; inversion Ht; subst.
  vm_compute in Hc. inversion Hc; subst. reflexivity.
Defined.

(** ** [unload_data] *)

(** What an [unload_data] that returns has deleted and kept. *)
Lemma unload_data_ok w w' :
  unload_data w = (Ok (), w') →
  datalist (self w') = None ∧ masklist (self w') = None
  ∧ darklist (self w') = None ∧ flatlist (self w') = None
  ∧ data (self w') = None ∧ mask (self w') = None
  ∧ dark (self w') = None ∧ flat (self w') = None
  ∧ indices (self w') = indices (self w) ∧ Nframes (self w') = Nframes (self w)
  ∧ scan_info (self w') = scan_info (self w) ∧ label (self w') = label (self w)
  ∧ source (self w') = source (self w) ∧ loader (self w') = loader (self w)
  ∧ trace w' = trace w.
Proof.
  unfold unload_data, del, getattr, modify, getself, raise, mbind, M_bind, mret,
    M_ret. simpl.
  destruct (datalist (self w)); simpl; [| discriminate].
  destruct (masklist (self w)); simpl; [| discriminate].
  destruct (darklist (self w)); simpl; [| discriminate].
  destruct (flatlist (self w)); simpl; [| discriminate].
  destruct (data (self w)); simpl; [| discriminate].
  destruct (mask (self w)); simpl; [| discriminate].
  destruct (dark (self w)); simpl; [| discriminate].
  destruct (flat (self w)); simpl; [| discriminate].
  intros H. inversion H; subst. simpl. repeat split; reflexivity.
Qed.

(** X6: an [unload_data] that returns has deleted the four arrays and the
    four per-frame lists and nothing else: the frame numbers, [Nframes],
    the [scan_info], the label, the source and its loader stay, and no
    event is recorded.  On the object it leaves, a second [unload_data]
    raises [AttributeError] at its first [del], [save] raises the
    [RuntimeError] of its own check, and [as_data_package] asked for at
    least one frame raises [AttributeError] on the missing [datalist]. *)
Theorem unload_data_once (w w' : world) :
  unload_data w = (Ok (), w') →
  (data (self w') = None ∧ mask (self w') = None
   ∧ dark (self w') = None ∧ flat (self w') = None
   ∧ datalist (self w') = None ∧ masklist (self w') = None
   ∧ darklist (self w') = None ∧ flatlist (self w') = None)
  ∧ (indices (self w') = indices (self w) ∧ Nframes (self w') = Nframes (self w)
     ∧ scan_info (self w') = scan_info (self w) ∧ label (self w') = label (self w)
     ∧ source (self w') = source (self w) ∧ loader (self w') = loader (self w)
     ∧ trace w' = trace w)
  ∧ unload_data w' = (Raise AttributeError, w')
  ∧ (∀ env filename force_overwrite,
       save env filename force_overwrite w'
       = (Raise (RuntimeError
            "Attempting to save DataScan instance that does not contain data."), w'))
  ∧ (∀ N start stop,
       Nframes (self w) = Some N → start < N → (∀ s, stop = Some s → start < s) →
       as_data_package (self w') start stop = Raise AttributeError).
Proof.
  intros H. apply unload_data_ok in H
    as (Hdl & Hml & Hkl & Hfl & Hd & Hm & Hk & Hf & Hi & Hn & Hs & Hl & Hsrc & Hld & Ht).
  split; [by repeat split |]. split; [by repeat split |]. split; [| split].
  - unfold unload_data, del, getattr, getself, raise, mbind, M_bind. simpl.
    by rewrite Hdl.
  - intros env fn fo. by apply save_no_data.
  - intros N start stop HN Hlt Hstop.
    unfold as_data_package. rewrite Hn, HN.
    set (stop' := match stop with
                  | Some s => if N <? s then N else s
                  | None => N
                  end).
    assert (start < stop') as Hlt'.
    { unfold stop'. destruct stop as [s |]; [| done].
      specialize (Hstop s eq_refl). destruct (N <? s); lia. }
    unfold py_range.
    destruct (Z.to_nat (stop' - start)) as [| n] eqn:E; [lia |].
    simpl. unfold package_frame. by rewrite Hdl.
Qed.

(** [loaded_b] unloaded. *)
Lemma unload_data_once_witness :
  unload_data (unload_data (mkWorld loaded_b [])).2
  = (Raise AttributeError, (unload_data (mkWorld loaded_b [])).2)
  ∧ Nframes (self (unload_data (mkWorld loaded_b [])).2) = Some 2
  ∧ as_data_package (self (unload_data (mkWorld loaded_b [])).2) 0 None
    = Raise AttributeError.
Proof.
  pose proof (unload_data_once (mkWorld loaded_b [])
                (unload_data (mkWorld loaded_b [])).2
                ltac:(vm_compute; reflexivity))
    as (_ & (_ & Hn & _) & Hagain & _ & Hpkg).
  split; [exact Hagain |]. split.
  - rewrite Hn. vm_compute. reflexivity.
  - apply (Hpkg 2); [vm_compute; reflexivity | lia | discriminate].
Defined.

(** ** The pixels of a region of interest *)

Lemma roi_axis_bounds ctr dim :
  Z.abs (2 * ctr) + Z.abs dim < 2 ^ 53 →
  roi_axis ctr dim
  = Ok (mkSlice (Some (ctr - dim / 2)) (Some (ctr - dim / 2 + dim))).
Proof.
  intros H. rewrite roi_axis_exact by exact H.
  do 3 f_equal.
  pose proof (Z.div_mod dim 2 ltac:(lia)).
  pose proof (Z.mod_pos_bound dim 2 ltac:(lia)).
  pose proof (Z.div_mod (dim + 1) 2 ltac:(lia)).
  pose proof (Z.mod_pos_bound (dim + 1) 2 ltac:(lia)).
  lia.
Qed.

(** X7: the pixels that the slice of a region of interest selects on an
    axis of [n] pixels, for a size [dim] between 1 and [n], where the
    doubles that [load] computes the bounds in hold the centre and the
    size exactly ([n < 2^52], [|2 ctr| + dim < 2^53]).  The window starts
    at [a = ctr - dim div 2].  When it lies in the frame it selects the
    [dim] pixels from [a] on; with the default centre [n div 2] and
    [dim = n] these are all pixels.  When it sticks out at the low edge
    ([a < 0 <= a + dim]) it is not clipped: the negative start counts from
    the far end of the axis, beyond the stop, and no pixel is selected. *)
Theorem roi_window_pixels (ctr dim : Z) (n : nat) :
  0 < dim ≤ Z.of_nat n →
  Z.of_nat n < 2 ^ 52 →
  Z.abs (2 * ctr) + dim < 2 ^ 53 →
  (0 ≤ ctr - dim / 2 → ctr - dim / 2 + dim ≤ Z.of_nat n →
   res_map (λ s, slice_positions s n) (roi_axis ctr dim)
   = Ok (seq (Z.to_nat (ctr - dim / 2)) (Z.to_nat dim)))
  ∧ (dim = Z.of_nat n →
     res_map (λ s, slice_positions s n) (roi_axis (Z.of_nat n / 2) dim)
     = Ok (seq 0 n))
  ∧ (ctr - dim / 2 < 0 → 0 ≤ ctr - dim / 2 + dim →
     res_map (λ s, slice_positions s n) (roi_axis ctr dim) = Ok []).
Proof.
  intros Hdim Hn Hctr.
  assert (∀ c, Z.abs (2 * c) + dim < 2 ^ 53 →
               0 ≤ c - dim / 2 → c - dim / 2 + dim ≤ Z.of_nat n →
               res_map (λ s, slice_positions s n) (roi_axis c dim)
               = Ok (seq (Z.to_nat (c - dim / 2)) (Z.to_nat dim))) as Hin.
  { intros c Hc Ha Hb. rewrite roi_axis_bounds by lia.
    unfold res_map, slice_positions, slice_bounds, clamp. simpl.
    destruct (Z.ltb_spec (c - dim / 2) 0) as [| _]; [lia |].
    destruct (Z.ltb_spec (c - dim / 2 + dim) 0) as [| _]; [lia |].
    f_equal. f_equal; f_equal; lia. }
  split; [by apply Hin |]. split.
  - intros ->.
    pose proof (Z.div_mod (Z.of_nat n) 2 ltac:(lia)).
    pose proof (Z.mod_pos_bound (Z.of_nat n) 2 ltac:(lia)).
    assert (2 ^ 53 = 2 * 2 ^ 52) as E by reflexivity.
    rewrite Hin; [| lia | lia | lia].
    f_equal. f_equal; lia.
  - intros Ha Hb. rewrite roi_axis_bounds by lia.
    unfold res_map, slice_positions, slice_bounds, clamp. simpl.
    destruct (Z.ltb_spec (ctr - dim / 2) 0) as [_ |]; [| lia].
    destruct (Z.ltb_spec (ctr - dim / 2 + dim) 0) as [| _]; [lia |].
    f_equal.
    match goal with
    | |- seq _ ?k = [] => assert (k = 0%nat) as -> by lia
    end.
    reflexivity.
Qed.

(** An axis of 10 pixels and a window of 4: centred at 5 it selects the
    pixels 3 to 6, centred at 1 it selects none. *)
Lemma roi_window_pixels_witness :
  res_map (λ s, slice_positions s 10) (roi_axis 5 4) = Ok [3; 4; 5; 6]%nat
  ∧ res_map (λ s, slice_positions s 10) (roi_axis 1 4) = Ok [].
Proof.
  destruct (roi_window_pixels 5 4 10) as (Hin & _ & _);
    [lia | vm_compute; reflexivity | vm_compute; reflexivity |].
  destruct (roi_window_pixels 1 4 10) as (_ & _ & Hout);
    [lia | vm_compute; reflexivity | vm_compute; reflexivity |].
  split.
  - rewrite Hin; [reflexivity | vm_compute; discriminate | vm_compute; discriminate].
  - apply Hout; [reflexivity | vm_compute; discriminate].
Defined.

(** ** [MetaTranslator]: there and back *)

(** Renaming the keys of a dictionary along a table that sends no two
    keys to one name. *)
Lemma rename_NoDup (m : gmap string string) (l : list (string * pyval)) :
  (∀ k1 k2 k', m !! k1 = Some k' → m !! k2 = Some k' → k1 = k2) →
  NoDup l.*1 →
  NoDup (omap (λ kv, (λ k', (k', kv.2)) <$> m !! kv.1) l).*1.
Proof.
  intros Hinj. induction l as [| [k v] l IH]; intros Hnd; [constructor |].
  simpl in Hnd. apply NoDup_cons in Hnd as [Hk Hnd]. simpl.
  destruct (m !! k) as [k' |] eqn:Hm; simpl; [| by apply IH].
  apply NoDup_cons. split; [| by apply IH].
  intros Hin. apply Hk.
  apply list_elem_of_fmap in Hin as ([k1 v1] & Hk1 & Hin). simpl in Hk1. subst k1.
  apply list_elem_of_omap in Hin as ([k2 v2] & Hin & Hf). simpl in Hf.
  destruct (m !! k2) as [k'' |] eqn:Hm2; [| discriminate]. simpl in Hf.
  inversion Hf; subst k'' v2.
  rewrite (Hinj k k2 k' Hm Hm2).
  apply list_elem_of_fmap. by exists (k2, v1).
Qed.

Lemma rename_lookup (m : gmap string string) (d : param) k' v :
  (∀ k1 k2 k', m !! k1 = Some k' → m !! k2 = Some k' → k1 = k2) →
  (list_to_map (omap (λ kv, (λ k', (k', kv.2)) <$> m !! kv.1) (map_to_list d))
     : param) !! k' = Some v
  ↔ ∃ k, m !! k = Some k' ∧ d !! k = Some v.
Proof.
  intros Hinj.
  rewrite <- elem_of_list_to_map
    by (apply rename_NoDup; [exact Hinj | apply NoDup_fst_map_to_list]).
  rewrite list_elem_of_omap. split.
  - intros ([k v0] & Hin & Hf). simpl in Hf.
    destruct (m !! k) as [k'' |] eqn:Hm; [| discriminate]. simpl in Hf.
    inversion Hf; subst. exists k. split; [done |].
    by apply elem_of_map_to_list in Hin.
  - intros (k & Hm & Hd). exists (k, v). split.
    + by apply elem_of_map_to_list.
    + simpl. by rewrite Hm.
Qed.

Lemma to_scan_info_of_meta :
  map_Forall (λ k k', to_scan_info_dct !! k' = Some k) to_meta_dct.
Proof. refine (bool_decide_unpack _ _). vm_compute. exact I. Qed.

Lemma to_meta_of_scan_info :
  map_Forall (λ k' k, to_meta_dct !! k = Some k') to_scan_info_dct.
Proof. refine (bool_decide_unpack _ _). vm_compute. exact I. Qed.

Lemma to_meta_dct_known :
  map_Forall (λ k _, is_Some (DEFAULT_scan_info !! k)) to_meta_dct.
Proof. refine (bool_decide_unpack _ _). vm_compute. exact I. Qed.

Lemma known_to_meta_dct :
  map_Forall (λ k _, is_Some (to_meta_dct !! k)) DEFAULT_scan_info.
Proof. refine (bool_decide_unpack _ _). vm_compute. exact I. Qed.

Lemma to_meta_dct_inj k1 k2 k' :
  to_meta_dct !! k1 = Some k' → to_meta_dct !! k2 = Some k' → k1 = k2.
Proof.
  intros H1 H2.
  apply to_scan_info_of_meta in H1. apply to_scan_info_of_meta in H2.
  cbv beta in H1, H2. congruence.
Qed.

Lemma to_scan_info_dct_inj k1 k2 k' :
  to_scan_info_dct !! k1 = Some k' → to_scan_info_dct !! k2 = Some k' → k1 = k2.
Proof.
  intros H1 H2.
  apply to_meta_of_scan_info in H1. apply to_meta_of_scan_info in H2.
  cbv beta in H1, H2. congruence.
Qed.

Lemma as_meta_lookup d k' v :
  as_meta d !! k' = Some v ↔ ∃ k, to_meta_dct !! k = Some k' ∧ d !! k = Some v.
Proof. apply rename_lookup, to_meta_dct_inj. Qed.

Lemma as_scan_info_lookup d k v :
  as_scan_info d !! k = Some v
  ↔ ∃ k', to_scan_info_dct !! k' = Some k ∧ d !! k' = Some v.
Proof. apply rename_lookup, to_scan_info_dct_inj. Qed.

(** X8: the two directions of the translator undo each other.  Turning
    a dictionary of scan information into meta names and back gives the
    entries of the dictionary whose keys [DEFAULT_scan_info] knows,
    unchanged, and drops the others; turning a dictionary of meta names
    into scan information and back gives its entries under a meta name,
    and drops the others.  No entry is lost to a clash of names: in
    neither table do two keys share a translation. *)
Theorem meta_round_trip (d : param) :
  as_scan_info (as_meta d)
  = filter (λ kv, is_Some (DEFAULT_scan_info !! kv.1)) d
  ∧ as_meta (as_scan_info d)
    = filter (λ kv, is_Some (to_scan_info_dct !! kv.1)) d
  ∧ (∀ k v, d !! k = Some v → is_Some (DEFAULT_scan_info !! k) →
       ∃ k', to_meta_dct !! k = Some k' ∧ as_meta d !! k' = Some v)
  ∧ (∀ k1 k2 k', to_meta_dct !! k1 = Some k' → to_meta_dct !! k2 = Some k' →
       k1 = k2).
Proof.
  split; [| split; [| split]].
  - apply map_eq. intros k. apply option_eq. intros v.
    rewrite as_scan_info_lookup, map_lookup_filter_Some. cbn [fst]. split.
    + intros (k' & Hs & Hm). apply as_meta_lookup in Hm as (k0 & Hk0 & Hd).
      pose proof (to_meta_of_scan_info _ _ Hs) as Hk. cbv beta in Hk.
      rewrite (to_meta_dct_inj k k0 k' Hk Hk0). split; [exact Hd |].
      exact (to_meta_dct_known _ _ Hk0).
    + intros [Hd [x Hx]].
      destruct (known_to_meta_dct _ _ Hx) as [k' Hk']. exists k'. split.
      * exact (to_scan_info_of_meta _ _ Hk').
      * apply as_meta_lookup. exists k; split; assumption.
  - apply map_eq. intros k'. apply option_eq. intros v.
    rewrite as_meta_lookup, map_lookup_filter_Some. cbn [fst]. split.
    + intros (k & Hm & Hs). apply as_scan_info_lookup in Hs as (k0 & Hk0 & Hd).
      pose proof (to_scan_info_of_meta _ _ Hm) as Hk. cbv beta in Hk.
      rewrite (to_scan_info_dct_inj k' k0 k Hk Hk0). split; [exact Hd |].
      exists k. exact Hk0.
    + intros [Hd [k Hk]]. exists k. split.
      * exact (to_meta_of_scan_info _ _ Hk).
      * apply as_scan_info_lookup. exists k'; split; assumption.
  - intros k v Hd [x Hx].
    destruct (known_to_meta_dct _ _ Hx) as [k' Hk']. exists k'.
    split; [exact Hk' |]. apply as_meta_lookup. exists k; split; assumption.
  - apply to_meta_dct_inj.
Qed.

(** ** [as_data_package] *)

Lemma res_mapM_ok {A B} (f : A → res B) (l : list A) (ys : list B) :
  res_mapM f l = Ok ys → Forall2 (λ x y, f x = Ok y) l ys.
Proof.
  revert ys. induction l as [| x l IH]; intros ys H; simpl in H.
  - inversion H. constructor.
  - destruct (f x) as [y | e] eqn:Hx; [| discriminate]. simpl in H.
    destruct (res_mapM f l) as [ys' | e]; [| discriminate]. simpl in H.
    inversion H; subst. constructor; [exact Hx | by apply IH].
Qed.

Lemma package_frame_ok d i fr :
  package_frame d i = Ok fr →
  f_index fr = i
  ∧ ∃ dl ml ps,
      datalist d = Some dl ∧ masklist d = Some ml
      ∧ param_attr (scan_info d) "positions" = Ok ps
      ∧ py_getitem dl i = Ok (f_data fr) ∧ py_getitem ml i = Ok (f_mask fr)
      ∧ pyval_item ps i = Ok (f_position fr).
Proof.
  unfold package_frame. intros H.
  destruct (datalist d) as [dl |]; [| discriminate].
  destruct (py_getitem dl i) as [x |] eqn:Hx; [| discriminate]. simpl in H.
  destruct (masklist d) as [ml |]; [| discriminate].
  destruct (py_getitem ml i) as [m |] eqn:Hm; [| discriminate]. simpl in H.
  destruct (param_attr (scan_info d) "positions") as [ps |]; [| discriminate].
  simpl in H.
  destruct (pyval_item ps i) as [pos |] eqn:Hp; [| discriminate]. simpl in H.
  inversion H; subst. simpl. split; [done |].
  by exists dl, ml, ps.
Qed.

Lemma package_frames_ok d (l : list Z) (fs : list frame) :
  Forall2 (λ i fr, package_frame d i = Ok fr) l fs →
  map f_index fs = l
  ∧ Forall (λ fr, ∃ dl ml ps,
              datalist d = Some dl ∧ masklist d = Some ml
              ∧ param_attr (scan_info d) "positions" = Ok ps
              ∧ py_getitem dl (f_index fr) = Ok (f_data fr)
              ∧ py_getitem ml (f_index fr) = Ok (f_mask fr)
              ∧ pyval_item ps (f_index fr) = Ok (f_position fr)) fs.
Proof.
  induction 1 as [| i fr l fs Hfr _ [IH1 IH2]]; [by split |].
  apply package_frame_ok in Hfr
    as [<- (dl & ml & ps & Hdl & Hml & Hps & Hd & Hm & Hp)].
  split; [simpl; by rewrite IH1 |].
  constructor; [| exact IH2]. by exists dl, ml, ps.
Qed.

(** X9: the package [as_data_package(start, stop)] returns.  Its frames
    are numbered [start, start+1, ...] up to, and without, the lesser of
    [stop] and [Nframes] ([Nframes] when no [stop] is given); [start] is
    taken as it is.  The frame numbered [i] carries [datalist[i]],
    [masklist[i]] and [scan_info.positions[i]], so a position is needed
    for every frame handed out.  The common part is the [scan_info] in
    meta names with the label of the scan under [label]. *)
Theorem as_data_package_window (d : DataScan) (start : Z) (stop : option Z)
    (p : package) :
  as_data_package d start stop = Ok p →
  ∃ N,
    Nframes d = Some N
    ∧ map f_index (iterable p)
      = py_range start (match stop with Some s => Z.min s N | None => N end)
    ∧ Forall (λ fr, ∃ dl ml ps,
                datalist d = Some dl ∧ masklist d = Some ml
                ∧ param_attr (scan_info d) "positions" = Ok ps
                ∧ py_getitem dl (f_index fr) = Ok (f_data fr)
                ∧ py_getitem ml (f_index fr) = Ok (f_mask fr)
                ∧ pyval_item ps (f_index fr) = Ok (f_position fr))
        (iterable p)
    ∧ common p = <["label" := label d]> (as_meta (scan_info d)).
Proof.
  unfold as_data_package. intros H.
  destruct (Nframes d) as [N |]; [| discriminate].
  assert (match stop with Some s => if N <? s then N else s | None => N end
          = match stop with Some s => Z.min s N | None => N end) as Hstop.
  { destruct stop as [s |]; [| done]. destruct (Z.ltb_spec N s); lia. }
  rewrite Hstop in H. clear Hstop.
  set (stop' := match stop with Some s => Z.min s N | None => N end) in *.
  destruct (res_mapM (package_frame d) (py_range start stop')) as [fs |] eqn:Hfs;
    [| discriminate].
  simpl in H. inversion H; subst p. simpl. clear H.
  apply res_mapM_ok, package_frames_ok in Hfs as [Hidx Hall].
  exists N. by repeat split.
Qed.

(** [loaded_b] holds two frames: asked for frames 0 to 4 it hands out 0
    and 1. *)
Lemma as_data_package_window_witness :
  res_map (λ p, map f_index (iterable p)) (as_data_package loaded_b 0 (Some 5))
  = Ok [0; 1]
  ∧ as_data_package scan222 0 None = Raise AttributeError.
Proof.
  split; [| vm_compute; reflexivity].
  destruct (as_data_package loaded_b 0 (Some 5)) as [p |] eqn:Hp;
    [| vm_compute in Hp; discriminate Hp].
  destruct (as_data_package_window loaded_b 0 (Some 5) p Hp)
    as (N & HN & Hidx & _).
  simpl. rewrite Hidx. vm_compute in HN. inversion HN; subst. reflexivity.
Defined.

(** ** [StaticDataSource]: the labels *)

Lemma py_getitem_nat_lt {A} (l : list A) (i : nat) x :
  py_getitem l (Z.of_nat i) = Ok x → (i < length l)%nat.
Proof.
  unfold py_getitem, norm_index. intros H.
  destruct (Z.leb_spec 0 (Z.of_nat i)); [| lia].
  destruct (Z.ltb_spec (Z.of_nat i) (Z.of_nat (length l))); simpl in H; [lia |].
  destruct (Z.leb_spec (- Z.of_nat (length l)) (Z.of_nat i)); simpl in H;
    [| discriminate].
  destruct (Z.ltb_spec (Z.of_nat i) 0); simpl in H; [lia | discriminate].
Qed.

(** One turn of the loop of [__init__] touches the dictionary and the
    frame count only. *)
Lemma add_scan_ok env pars_list rl acc i src acc' :
  add_scan env pars_list rl acc i src = Ok acc' →
  labels acc' = labels acc ∧ sources acc' = sources acc
  ∧ recon_labels acc' = recon_labels acc ∧ count acc' = count acc
  ∧ data_available acc' = data_available acc
  ∧ (i < length pars_list)%nat.
Proof.
  unfold add_scan. intros H.
  destruct (py_getitem pars_list (Z.of_nat i)) as [pars |] eqn:Hp;
    [| discriminate H].
  apply py_getitem_nat_lt in Hp.
  cbv beta iota delta [res_bind] in H.
  destruct (DataScan_init env pars SrcNone SrcNone) as [DS |]; [| discriminate H].
  destruct (run (set_source env src) DS []) as [[[u | e] DS'] tr];
    [| discriminate H].
  match type of H with
  | match ?r with Ok _ => _ | Raise _ => _ end = _ =>
      destruct r as [lbl |]; [| discriminate H]
  end.
  destruct (bool_decide (lbl ∈ labels acc)); [discriminate H |].
  destruct (si_shape _) as [shp |]; [| discriminate H].
  destruct (py_getitem shp 0) as [n |]; [| discriminate H].
  inversion H; subst. simpl. by repeat split.
Qed.

Lemma add_scans_ok env pars_list rl srcs : ∀ acc i s,
  add_scans env pars_list rl acc i srcs = Ok s →
  labels s = labels acc ∧ sources s = sources acc
  ∧ recon_labels s = recon_labels acc ∧ count s = count acc
  ∧ data_available s = data_available acc
  ∧ (srcs = [] ∨ i + length srcs ≤ length pars_list)%nat.
Proof.
  induction srcs as [| src srcs IH]; intros acc i s H; simpl in H.
  - inversion H; subst. repeat split; by left.
  - destruct (add_scan env pars_list rl acc i src) as [acc' |] eqn:H1;
      [| discriminate].
    simpl in H. apply add_scan_ok in H1 as (L1 & L2 & L3 & L4 & L5 & Hi).
    apply IH in H as (M1 & M2 & M3 & M4 & M5 & Hlen).
    repeat (split; [congruence |]).
    right. destruct Hlen as [-> | Hlen]; simpl; lia.
Qed.

(** X10: the aggregator [StaticDataSource(sources, pars_list,
    recon_labels)] as constructed.  Its list [labels] is empty: the loop
    tests the label of every scan against this list and never appends
    to it, so neither test for a label in use can hold, and two scans
    given one label are both accepted, the second replacing the first in
    the dictionary.  [pars_list] has an entry for every source, while
    [recon_labels] may be shorter; [count] is 0 and [data_available] says
    whether the frame total is positive. *)
Theorem static_labels_stay_empty (env : Env) (srcs : list source_t)
    (pars_list : list (option param)) (rl : list (option string))
    (s : StaticDataSource) :
  StaticDataSource_init env srcs pars_list rl = Ok s →
  labels s = [] ∧ sources s = srcs ∧ recon_labels s = rl ∧ count s = 0
  ∧ data_available s = (0 <? total_frames s)
  ∧ (length srcs ≤ length pars_list)%nat.
Proof.
  unfold StaticDataSource_init. intros H.
  destruct (add_scans _ _ _ _ _ _) as [s0 |] eqn:H0; [| discriminate].
  simpl in H. inversion H; subst. simpl. clear H.
  apply add_scans_ok in H0 as (L1 & L2 & L3 & _ & _ & Hlen). simpl in *.
  repeat (split; [done |]). destruct Hlen as [-> | Hlen]; simpl in *; lia.
Qed.

(** Two stores, both given the label [A]: one scan is left, the second. *)
Lemma static_labels_stay_empty_witness :
  res_map labels
    (StaticDataSource_init single_process [store_b; store_a] [None; None]
       [Some "A"; Some "A"]) = Ok []
  ∧ res_map (λ s, PyDict.keys (scans s))
      (StaticDataSource_init single_process [store_b; store_a] [None; None]
         [Some "A"; Some "A"]) = Ok ["A"]
  ∧ res_map (λ s, source <$> PyDict.getitem (scans s) "A")
      (StaticDataSource_init single_process [store_b; store_a] [None; None]
         [Some "A"; Some "A"]) = Ok (Some store_a)
  ∧ res_map total_frames
      (StaticDataSource_init single_process [store_b; store_a] [None; None]
         [Some "A"; Some "A"]) = Ok 4.
Proof.
  split; [| repeat split; vm_compute; reflexivity].
  destruct (StaticDataSource_init single_process [store_b; store_a] [None; None]
              [Some "A"; Some "A"]) as [s |] eqn:Hs;
    [| vm_compute in Hs; discriminate Hs].
  simpl. f_equal.
  exact (proj1 (static_labels_stay_empty _ _ _ _ _ Hs)).
Defined.

(** ** [feed_data]: how many batches, and how it ends *)

(** A method run on a stored scan leaves the generator and the flag. *)
Lemma on_scan_keeps {A} (f : feeder) lbl (m : M A) r f' :
  on_scan f lbl m = (r, f') →
  gen f' = gen f ∧ data_available (agg f') = data_available (agg f).
Proof.
  unfold on_scan. intros H.
  destruct (PyDict.getitem (scans (agg f)) lbl) as [d |].
  - destruct (run m d (events f)) as [[r0 d'] tr]. by inversion H.
  - by inversion H.
Qed.

Lemma feed_from_result env f todo r f1 :
  feed_from env f todo = (r, f1) →
  match r with
  | Ok None =>
      todo = [] ∧ gen f1 = GenDone ∧ data_available (agg f1) = false
  | Ok (Some _) =>
      ∃ lbl rest, todo = lbl :: rest ∧ gen f1 = GenAt lbl rest
        ∧ data_available (agg f1) = data_available (agg f)
  | Raise _ =>
      gen f1 = GenDone ∧ data_available (agg f1) = data_available (agg f)
  end.
Proof.
  unfold feed_from. intros H. destruct todo as [| lbl rest].
  - by inversion H.
  - destruct (on_scan f lbl _) as [[p | e] f'] eqn:Hon;
      apply on_scan_keeps in Hon as [_ Hflag]; inversion H; subst; simpl.
    + by exists lbl, rest.
    + done.
Qed.

(** The labels the generator has still to visit. *)
Lemma drain_batches env fuel : ∀ f todo,
  match gen f with
  | GenNew => todo = PyDict.keys (scans (agg f))
  | GenAt _ rest => todo = rest
  | GenDone => False
  end →
  (length todo < fuel)%nat →
  match drain env fuel f with
  | (Ok ps, f') =>
      length ps = length todo ∧ gen f' = GenDone
      ∧ data_available (agg f') = false
  | (Raise _, f') =>
      gen f' = GenDone ∧ data_available (agg f') = data_available (agg f)
  end.
Proof.
  induction fuel as [| fuel IH]; intros f todo Hgen Hfuel; [lia |].
  simpl.
  assert ((∃ f0, feed_next env f = feed_from env f0 todo
                 ∧ data_available (agg f0) = data_available (agg f))
          ∨ (∃ e f1, feed_next env f = (Raise e, f1) ∧ gen f1 = GenDone
                     ∧ data_available (agg f1) = data_available (agg f)))
    as [(f0 & Hnext & Hflag0) | (e & f1 & Hnext & Hg & Hflag)].
  { unfold feed_next. destruct (gen f) as [| lbl rest |]; [| | done].
    - left. exists f. by subst todo.
    - subst todo.
      destruct (on_scan f lbl unload_data) as [[u | e] f0] eqn:Hon;
        apply on_scan_keeps in Hon as [_ Hflag].
      + left. by exists f0.
      + right. by eexists _, _. }
  2: { rewrite Hnext. done. }
  rewrite Hnext.
  destruct (feed_from env f0 todo) as [[[p |] | e] f1] eqn:Hfrom;
    apply feed_from_result in Hfrom.
  - destruct Hfrom as (lbl & rest & -> & Hg & Hflag).
    specialize (IH f1 rest). rewrite Hg in IH.
    specialize (IH eq_refl ltac:(simpl in Hfuel; lia)).
    destruct (drain env fuel f1) as [[ps | e] f2].
    + destruct IH as (Hlen & Hg2 & Hfl). simpl. by rewrite Hlen.
    + destruct IH as [Hg2 Hfl]. split; [done |]. congruence.
  - destruct Hfrom as (-> & Hg & Hfl). done.
  - destruct Hfrom as [Hg Hfl]. split; [done |]. congruence.
Qed.

(** X11: [list(feed_data())] on an aggregator.  When every scan loads,
    there is one batch for each key of the dictionary, the generator is
    finished and the flag [data_available] is cleared.  When a scan fails
    to load, to be packaged or to be unloaded, the error ends the
    generator and the flag is left as it was. *)
Theorem feed_data_batches (env : Env) (s : StaticDataSource) (tr : list event)
    (fuel : nat) :
  (length (PyDict.keys (scans s)) < fuel)%nat →
  match drain env fuel (feed_data s tr) with
  | (Ok ps, f') =>
      length ps = length (PyDict.keys (scans s)) ∧ gen f' = GenDone
      ∧ data_available (agg f') = false
  | (Raise _, f') =>
      gen f' = GenDone ∧ data_available (agg f') = data_available s
  end.
Proof.
  intros Hfuel.
  exact (drain_batches env fuel (feed_data s tr) _ eq_refl Hfuel).
Qed.

(** The two scans of [two_scans]: two batches. *)
Lemma feed_data_batches_witness :
  ∃ s, two_scans = Ok s
    ∧ match drain single_process 3 (feed_data s []) with
      | (Ok ps, f') =>
          length ps = length (PyDict.keys (scans s)) ∧ gen f' = GenDone
          ∧ data_available (agg f') = false
      | (Raise _, f') =>
          gen f' = GenDone ∧ data_available (agg f') = data_available s
      end
    ∧ res_map (λ r, res_map length r.1) two_scans_fed = Ok (Ok 2%nat).
Proof.
  assert (res_map (λ s, length (PyDict.keys (scans s))) two_scans = Ok 2%nat)
    as Hkeys by (vm_compute; reflexivity).
  destruct two_scans as [s |] eqn:Hs; [| discriminate Hkeys].
  exists s. split; [reflexivity |]. split; [| vm_compute; reflexivity].
  apply (feed_data_batches single_process s [] 3).
  simpl in Hkeys. inversion Hkeys as [Hlen]. rewrite Hlen. lia.
Defined.

(** ** Reading a whole store *)

Lemma load_prepare_full env first last roictr w ix N sl w' :
  load_prepare env first last None roictr AllFrames w = (Ok (ix, N, sl), w') →
  sl = full3.
Proof.
  intros H. unfold load_prepare in H.
  apply bind_ok in H as (d & w0 & H0 & H). apply getself_ok in H0 as [-> ->].
  apply bind_ok in H as (lst & w0 & Hl & H).
  inv_ok H.
  match goal with
  | Hc : choose_indices _ _ _ AllFrames _ = _ |- _ =>
      apply choose_indices_ok in Hc as [-> [-> ->]]
  end.
  destruct (length (tail _) =? 2)%nat; inv_ok Hm4.
  by inversion H.
Qed.

(** The frames of a store kept in memory, read through [load] in full. *)
Lemma load_full_data env first last roictr w w' info arrays a :
  loader (self w) = LoaderDict → source (self w) = SrcDict info arrays →
  arrays !! "data" = Some a → well_formed a → ndim a = 3%nat →
  load env first last None roictr AllFrames w = (Ok (), w') →
  data (self w') = Some (Some a) ∧ scan_info (self w') = scan_info (self w).
Proof.
  intros Hld Hsrc Harr Hwf Hdim H.
  apply load_ok in H as (ix & N & sl & w1 & w2 & Hprep & Hread & Hpop).
  pose proof (load_prepare_full _ _ _ _ _ _ _ _ _ Hprep) as ->.
  apply load_prepare_ok in Hprep
    as (lst & fs & _ & _ & _ & _ & _ & _ & _ & _ & Hsi & Hld1 & Hsrc1).
  rewrite Hld in Hld1. rewrite Hsrc in Hsrc1.
  apply load_read_ok in Hread as (x & m & dk & fl & Hx & _ & _ & _ & Hw2).
  apply load_populate_ok in Hpop as [Hsame _].
  destruct Hsame as (Hd & _ & _ & _ & _ & _ & _ & Hs & _).
  rewrite Hd, Hs, Hw2. simpl. split; [| exact Hsi].
  destruct (recursion_limit env) as [| depth]; [discriminate Hx |].
  rewrite (probe_n_load_ok _ depth "data" full3 None a) in Hx.
  - simpl in Hx. by inversion Hx.
  - rewrite (run_loader_dict env _ info arrays "data" a full3 Hld1 Hsrc1 Harr).
    apply nd_getitem_full; [exact Hwf | by repeat constructor |].
    rewrite Hdim. simpl. lia.
Qed.

(** X12: with [MPIsplit=False] and no region of interest, [load] asks
    the store for [slice(None)] on every axis, whatever [first] and
    [last] are: from a store kept in memory whose [data] is a 3-d array
    it takes that array whole and unchanged into [self.data], [first] and
    [last] deciding the number of per-frame slots only.  A [save] of the
    loaded object that returns on the process of rank 0 then writes
    exactly the array of the store, with the [scan_info] of the object. *)
Theorem load_all_reads_whole_store (env : Env) (first : Z) (last : option Z)
    (roictr : option (list Z)) (w w' : world) (info : option param)
    (arrays : gmap string ndarray) (a : ndarray) :
  loader (self w) = LoaderDict → source (self w) = SrcDict info arrays →
  arrays !! "data" = Some a → well_formed a → ndim a = 3%nat →
  load env first last None roictr AllFrames w = (Ok (), w') →
  data (self w') = Some (Some a)
  ∧ (∀ filename force_overwrite w'',
       rank env = 0%nat →
       save env filename force_overwrite w' = (Ok (), w'') →
       ∃ pre file msk fl dk,
         trace w''
         = (pre ++ [EvWrite file (Some a) msk fl dk (scan_info (self w));
                    EvBarrier])%list).
Proof.
  intros Hld Hsrc Harr Hwf Hdim H.
  destruct (load_full_data _ _ _ _ _ _ _ _ _ Hld Hsrc Harr Hwf Hdim H) as [Hd Hsi].
  split; [exact Hd |].
  intros fn fo w'' Hrk Hsave.
  apply save_ok_inv in Hsave as (_ & _ & _ & Hw).
  destruct (Hw Hrk) as (a0 & msk & fl & dk & target & file & Ha0 & _ & _ & _
                        & _ & _ & _ & _ & Htr).
  rewrite Hd in Ha0. inversion Ha0; subst a0.
  rewrite Hsi in Htr. rewrite Htr, app_assoc. by eexists _, file, msk, fl, dk.
Qed.

(** Frame 0 alone asked of [store_b], which holds two frames: both are
    read, and one slot is filled. *)
Lemma load_all_reads_whole_store_witness :
  data (self (load single_process 0 (Some 1) None None AllFrames
                (mkWorld (scan_of store_b) [])).2) = Some (Some frames3)
  ∧ Nframes (self (load single_process 0 (Some 1) None None AllFrames
                     (mkWorld (scan_of store_b) [])).2) = Some 1.
Proof.
  split; [| vm_compute; reflexivity].
  refine (proj1 (load_all_reads_whole_store single_process 0 (Some 1) None
                   (mkWorld (scan_of store_b) [])
                   (load single_process 0 (Some 1) None None AllFrames
                      (mkWorld (scan_of store_b) [])).2
                   (Some info222)
                   (list_to_map [("data", frames3); ("mask", mask2); ("flat", flat3)])
                   frames3 _ _ _ _ _ _)).
  all: vm_compute; reflexivity.
Defined.

(** ** [load] only reads *)

Lemma reads_since_refl w : reads_since w w.
Proof.
  split; [| done]. exists []. split; [by rewrite app_nil_r | constructor].
Qed.

Lemma reads_since_trans w1 w2 w3 :
  reads_since w1 w2 → reads_since w2 w3 → reads_since w1 w3.
Proof.
  intros [(e1 & T1 & F1) (A1 & B1 & C1 & D1 & E1)]
         [(e2 & T2 & F2) (A2 & B2 & C2 & D2 & E2)].
  split; [| repeat split; congruence].
  exists (e1 ++ e2)%list. split.
  - by rewrite T2, T1, app_assoc.
  - by apply Forall_app.
Qed.

Lemma ro_ret {A} (a : A) : reads_only (mret a : M A).
Proof. intros w. apply reads_since_refl. Qed.

Lemma ro_raise {A} e : reads_only (raise e : M A).
Proof. intros w. apply reads_since_refl. Qed.

Lemma ro_lift {A} (r : res A) : reads_only (lift r).
Proof. intros w. apply reads_since_refl. Qed.

Lemma ro_getself : reads_only getself.
Proof. intros w. apply reads_since_refl. Qed.

Lemma ro_bind {A B} (m : M A) (k : A → M B) :
  reads_only m → (∀ a, reads_only (k a)) → reads_only (m ≫= k).
Proof.
  intros Hm Hk w. unfold mbind, M_bind. specialize (Hm w).
  destruct (m w) as [[a | e] w1]; simpl in *; [| exact Hm].
  eapply reads_since_trans; [exact Hm | apply Hk].
Qed.

Lemma ro_modify f :
  (∀ d, scan_info (f d) = scan_info d ∧ label (f d) = label d
        ∧ source (f d) = source d ∧ loader (f d) = loader d
        ∧ sink (f d) = sink d) →
  reads_only (modify f).
Proof.
  intros Hf w. split; [| apply Hf].
  exists []. split; [simpl; by rewrite app_nil_r | constructor].
Qed.

Lemma ro_emits es : Forall is_load es → reads_only (emits es).
Proof. intros Hes w. split; [| done]. by exists es. Qed.

Lemma ro_py_assert b : reads_only (py_assert b).
Proof. destruct b; [apply ro_ret | apply ro_raise]. Qed.

Lemma ro_getattr {A} (f : DataScan → attr A) : reads_only (getattr f).
Proof.
  apply ro_bind; [apply ro_getself |]. intros d.
  destruct (f d); [apply ro_ret | apply ro_raise].
Qed.

Lemma ro_for_each {A} (l : list A) (body : A → M unit) :
  (∀ x, reads_only (body x)) → reads_only (for_each l body).
Proof.
  intros Hb. induction l as [| x l IH]; simpl; [apply ro_ret |].
  apply ro_bind; [apply Hb | intros _; exact IH].
Qed.

Ltac ro_step :=
  first
    [ apply ro_ret | apply ro_raise | apply ro_lift | apply ro_getself
    | apply ro_py_assert | apply ro_getattr
    | apply ro_modify; intros []; by repeat split
    | apply ro_bind; [| intros ?]
    | match goal with
      | |- reads_only (match ?x with _ => _ end) => destruct x
      | |- reads_only (let '(_, _) := ?x in _) => destruct x
      end ].

Lemma ro_probe env key s alt :
  key ∈ ["data"; "mask"; "fmask"; "dark"; "flat"] →
  (∀ k, alt = Some k → k ∈ ["data"; "mask"; "fmask"; "dark"; "flat"]) →
  reads_only (probe env key s alt).
Proof.
  intros Hk Ha. unfold probe.
  apply ro_bind; [apply ro_getself |]. intros d.
  apply ro_bind; [| intros _; apply ro_lift].
  apply ro_emits. apply Forall_forall. intros e He.
  apply list_elem_of_fmap in He as ([k' s'] & -> & Hin).
  apply (probe_n_load_attempts (run_loader env d) (recursion_limit env) key s alt)
    in Hin as [[Hk' | Halt] _]; exists k', s'; (split; [done |]);
    [by rewrite Hk' | by apply Ha].
Qed.

Lemma ro_setitem_attr f upd i v :
  (∀ x d, scan_info (upd x d) = scan_info d ∧ label (upd x d) = label d
          ∧ source (upd x d) = source d ∧ loader (upd x d) = loader d
          ∧ sink (upd x d) = sink d) →
  reads_only (setitem_attr f upd i v).
Proof.
  intros Hu. unfold setitem_attr.
  apply ro_bind; [apply ro_getattr |]. intros l.
  apply ro_bind; [apply ro_lift |]. intros l'.
  apply ro_modify. apply Hu.
Qed.

Lemma ro_load env first last roidim roictr split :
  reads_only (load env first last roidim roictr split).
Proof.
  unfold load. apply ro_bind.
  - unfold load_prepare, choose_indices. repeat ro_step.
  - intros [[ix N] sl]. apply ro_bind.
    + unfold load_read.
      repeat first
        [ apply ro_probe; [repeat constructor | intros k Hk; inversion Hk; repeat constructor]
        | ro_step ].
    + intros _. unfold load_populate.
      repeat first
        [ apply ro_for_each; intros [k i]; unfold populate_step
        | apply ro_setitem_attr; intros x []; by repeat split
        | ro_step ].
Qed.

(** X13: [load] only reads.  Whether it returns or raises, and whatever
    the store, the partition and the region asked for, the only effects
    of [load] outside the object are reads of the store under the keys
    [data], [mask], [fmask], [dark] and [flat]: nothing is written, sent
    or received, no warning is logged and no barrier is joined.  In the
    object, the [scan_info], the label, the source, its loader and the
    sink are left as they were. *)
Theorem load_only_reads (env : Env) (first : Z) (last : option Z)
    (roidim roictr : option (list Z)) (split : partition) (w : world) :
  (∃ evs,
     trace (load env first last roidim roictr split w).2 = (trace w ++ evs)%list
     ∧ Forall (λ e, ∃ k s, e = EvLoad k s
                       ∧ k ∈ ["data"; "mask"; "fmask"; "dark"; "flat"]) evs)
  ∧ scan_info (self (load env first last roidim roictr split w).2)
    = scan_info (self w)
  ∧ label (self (load env first last roidim roictr split w).2) = label (self w)
  ∧ source (self (load env first last roidim roictr split w).2) = source (self w)
  ∧ loader (self (load env first last roidim roictr split w).2) = loader (self w)
  ∧ sink (self (load env first last roidim roictr split w).2) = sink (self w).
Proof. exact (ro_load env first last roidim roictr split w). Qed.

(** ** [load], then [as_data_package] *)

Lemma py_range_lookup a b (k : nat) :
  (k < Z.to_nat (b - a))%nat → py_range a b !! k = Some (a + Z.of_nat k).
Proof.
  intros H. unfold py_range.
  rewrite list_lookup_fmap, lookup_seq_lt by done. reflexivity.
Qed.

Lemma py_range_NoDup a b : NoDup (py_range a b).
Proof.
  unfold py_range. apply NoDup_fmap_2; [| apply NoDup_seq].
  intros x y H. lia.
Qed.

Lemma py_range_bounds a b x : x ∈ py_range a b → a ≤ x < b.
Proof.
  unfold py_range. intros H. apply list_elem_of_fmap in H as (k & -> & Hk).
  apply list_elem_of_In, in_seq in Hk. lia.
Qed.

Lemma py_getitem_nonneg {A} (l : list A) i x :
  py_getitem l i = Ok x → 0 ≤ i → l !! Z.to_nat i = Some x.
Proof.
  unfold py_getitem. intros H Hi.
  destruct (norm_index (length l) i) as [k |] eqn:Hk; [| discriminate H].
  apply norm_index_nonneg in Hk as [-> _]; [| exact Hi]. simpl in H.
  destruct (l !! Z.to_nat i); [by inversion H | discriminate H].
Qed.

(** X14: the frames handed out after a load.  When [load], asked for the
    frames from 0 on with [MPIsplit=False], returns, and
    [as_data_package()] on the loaded object returns, the package holds
    one frame for each of the [Nframes] frame numbers, in order, and the
    frame numbered [i] carries the sub-array [data[i]] of the array that
    was read and a mask: none of the frames handed out is Absent. *)
Theorem load_then_package (env : Env) (last : option Z)
    (roidim roictr : option (list Z)) (w w' : world) (p : package) :
  load env 0 last roidim roictr AllFrames w = (Ok (), w') →
  as_data_package (self w') 0 None = Ok p →
  ∃ N a,
    Nframes (self w') = Some N ∧ 0 < N ∧ data (self w') = Some (Some a)
    ∧ map f_index (iterable p) = py_range 0 N
    ∧ Forall (λ fr, ∃ x m, f_data fr = Some x ∧ f_mask fr = Some m
                      ∧ nd_item a (f_index fr) = Ok x)
        (iterable p).
Proof.
  intros Hload Hpkg.
  apply load_ok_state in Hload
    as (ix & N & lst & fs & dat & msk & dk & fl & w2 & _ & HN & Hpos & Hch & _
        & HNf & _ & _ & Hd & _ & _ & _ & Hd2 & Hm2 & Hpop).
  apply choose_indices_ok in Hch as [_ [-> _]].
  replace lst with N in * by lia. clear HN.
  apply load_populate_ok in Hpop
    as (_ & _ & dl & ml & fll & dkl & Hdl & Hml & _ & _ & _ & _ & _ & _ & Hslots).
  destruct (Hslots (py_range_NoDup 0 N)) as [_ Hset].
  { apply Forall_forall. intros x Hx. apply py_range_bounds in Hx. lia. }
  unfold as_data_package in Hpkg. rewrite HNf in Hpkg.
  destruct (res_mapM _ _) as [frs |] eqn:Hfrs; [| discriminate Hpkg].
  simpl in Hpkg. inversion Hpkg; subst p. simpl. clear Hpkg.
  apply res_mapM_ok, package_frames_ok in Hfrs as [Hidx Hall].
  assert (∃ a, dat = Some a) as [a ->].
  { destruct (Hset 0%nat 0) as (dat' & fr & _ & _ & _ & _ & Hdat' & Hfr & _).
    { rewrite py_range_lookup by lia. reflexivity. }
    rewrite Hd2 in Hdat'. inversion Hdat'; subst dat'.
    destruct dat as [a |]; [by exists a | discriminate Hfr]. }
  exists N, a. repeat (split; [done |]).
  apply Forall_forall. intros fr Hfr.
  assert (f_index fr ∈ py_range 0 N) as Hi.
  { rewrite <- Hidx. by apply list_elem_of_fmap_2. }
  apply py_range_bounds in Hi.
  rewrite Forall_forall in Hall.
  destruct (Hall fr Hfr) as (dl' & ml' & ps & Hdl' & Hml' & _ & Hgd & Hgm & _).
  rewrite Hdl in Hdl'. rewrite Hml in Hml'. inversion Hdl'; inversion Hml'; subst dl' ml'.
  apply py_getitem_nonneg in Hgd; [| lia]. apply py_getitem_nonneg in Hgm; [| lia].
  destruct (Hset (Z.to_nat (f_index fr)) (f_index fr))
    as (dat' & x & msk' & mk & _ & _ & Hdat' & Hx & _ & _ & _ & _ & Sd & Sm & _).
  { rewrite py_range_lookup by lia. f_equal. lia. }
  rewrite Hd2 in Hdat'. inversion Hdat'; subst dat'.
  rewrite Sd in Hgd. rewrite Sm in Hgm. inversion Hgd; inversion Hgm.
  exists x, mk. repeat (split; [done |]).
  simpl in Hx. by rewrite Z2Nat.id in Hx by lia.
Qed.

(** [store_b] loaded and packaged: the frames 0 and 1. *)
Lemma load_then_package_witness :
  res_map (λ p, map f_index (iterable p))
    (as_data_package
       (self (load single_process 0 None None None AllFrames
                (mkWorld (scan_of store_b) [])).2) 0 None)
  = Ok [0; 1].
Proof.
  destruct (as_data_package _ 0 None) as [p |] eqn:Hp;
    [| vm_compute in Hp; discriminate Hp].
  destruct (load_then_package single_process None None None
              (mkWorld (scan_of store_b) [])
              (load single_process 0 None None None AllFrames
                 (mkWorld (scan_of store_b) [])).2 p
              ltac:(vm_compute; reflexivity) Hp)
    as (N & a & HN & _ & _ & Hidx & _).
  simpl. rewrite Hidx. vm_compute in HN. inversion HN; subst. reflexivity.
Defined.

(** ** [__init__] and [set_source]: the meta data *)

Lemma set_source_ok env src w u w' :
  set_source env src w = (Ok u, w') →
  trace w' = trace w
  ∧ source (self w') = src
  ∧ label (self w') = param_get (scan_info (self w')) "scan_label"
  ∧ data (self w') = data (self w) ∧ indices (self w') = indices (self w)
  ∧ sink (self w') = sink (self w)
  ∧ ∃ info,
      scan_info (self w') = info ∪ scan_info (self w)
      ∧ match src with
        | SrcNone => info = ∅ ∧ loader (self w') = LoaderEmpty
        | SrcFile path =>
            (endswith path ".h5" || endswith path ".ptyd") = true
            ∧ loader (self w') = LoaderH5
            ∧ ∃ i0, h5info env path = Ok i0
                    ∧ info = <["data_filename" := PStr path]> i0
        | SrcDict i0 _ => info = default ∅ i0 ∧ loader (self w') = LoaderDict
        end.
Proof.
  unfold set_source, set_label_from_info, modify, getself, lift, raise,
    mbind, M_bind, param_update.
  destruct src as [| path | i0 arrays]; simpl.
  - intros H. inversion H; subst. simpl. repeat (split; [done |]).
    exists ∅. by rewrite (left_id_L ∅ (∪)).
  - destruct (endswith path ".h5" || endswith path ".ptyd"); [| discriminate].
    destruct (h5info env path) as [i1 |] eqn:Hi; [| discriminate].
    intros H. inversion H; subst. simpl. repeat (split; [done |]).
    exists (<["data_filename" := PStr path]> i1).
    split; [by rewrite insert_union_l |]. split; [done |]. split; [done |].
    by exists i1.
  - intros H. inversion H; subst. simpl. repeat (split; [done |]).
    by eexists.
Qed.

(** X15: the object [DataScan(pars, source, sink)] when the constructor
    returns.  Its [scan_info] is [DEFAULT_scan_info] overlaid with [pars]
    and then with the meta data of the source, so that for every key the
    source wins over [pars] and [pars] over the default; for a file the
    source's meta data are those read from the file with [data_filename]
    set to the file's name, and the name ends in [.h5] or [.ptyd].  Every
    key of [DEFAULT_scan_info] is present, the label is
    [scan_info.get('scan_label')], and no frames are held. *)
Theorem DataScan_init_scan_info (env : Env) (pars : option param)
    (src snk : source_t) (d : DataScan) :
  DataScan_init env pars src snk = Ok d →
  label d = param_get (scan_info d) "scan_label"
  ∧ source d = src ∧ data d = Some None ∧ indices d = None
  ∧ sink d = match snk with SrcNone => src | _ => snk end
  ∧ (∀ k, is_Some (DEFAULT_scan_info !! k) → is_Some (scan_info d !! k))
  ∧ ∃ info,
      match src with
      | SrcNone => info = ∅
      | SrcFile path =>
          (endswith path ".h5" || endswith path ".ptyd") = true
          ∧ ∃ i0, h5info env path = Ok i0
                  ∧ info = <["data_filename" := PStr path]> i0
      | SrcDict i0 _ => info = default ∅ i0
      end
      ∧ ∀ k, scan_info d !! k
             = match info !! k with
               | Some v => Some v
               | None =>
                   match default ∅ pars !! k with
                   | Some v => Some v
                   | None => DEFAULT_scan_info !! k
                   end
               end.
Proof.
  unfold DataScan_init. intros H.
  destruct (set_source env src _) as [[u | e] w'] eqn:Hset; [| discriminate H].
  inversion H; subst d. clear H.
  apply set_source_ok in Hset
    as (_ & Hsrc & Hlbl & Hdat & Hidx & Hsnk & info & Hsi & Hinfo).
  simpl in Hdat, Hidx, Hsnk, Hsi.
  assert (∀ k, scan_info (self w') !! k
               = match info !! k with
                 | Some v => Some v
                 | None =>
                     match default ∅ pars !! k with
                     | Some v => Some v
                     | None => DEFAULT_scan_info !! k
                     end
                 end) as Hk.
  { intros k. rewrite Hsi, lookup_union.
    destruct (info !! k) as [v |] eqn:Hik.
    - apply union_Some_l.
    - rewrite (left_id_L None _).
      destruct pars as [p |]; simpl.
      + unfold param_update. rewrite lookup_union.
        destruct (p !! k) as [v |]; [apply union_Some_l |].
        by rewrite (left_id_L None _).
      + by rewrite lookup_empty. }
  repeat (split; [done |]). split.
  - intros k [v Hv]. rewrite Hk.
    destruct (info !! k); [by eexists |].
    destruct (default ∅ pars !! k); [by eexists |]. by exists v.
  - exists info. split; [| exact Hk].
    destruct src as [| path | i0 arrays].
    + by destruct Hinfo.
    + destruct Hinfo as (Hsuf & _ & Hi0). by split.
    + by destruct Hinfo.
Qed.

(** The scan over [store_b]: the shape comes from the store, the label
    from the defaults. *)
Lemma DataScan_init_scan_info_witness :
  label (scan_of store_b) = param_get (scan_info (scan_of store_b)) "scan_label"
  ∧ source (scan_of store_b) = store_b
  ∧ scan_info (scan_of store_b) !! "shape" = Some (PTuple [2; 2; 2])
  ∧ scan_info (scan_of store_b) !! "scan_label" = Some (PStr "Scan%(idx)02d").
Proof.
  pose proof (DataScan_init_scan_info single_process None store_b SrcNone
                (scan_of store_b) ltac:(vm_compute; reflexivity))
    as (Hl & Hs & _ & _ & _ & _ & info & Hinfo & Hk).
  split; [exact Hl |]. split; [exact Hs |].
  unfold store_b in Hinfo. simpl in Hinfo. subst info.
  rewrite !Hk. split; vm_compute; reflexivity.
Defined.
